(** * rcon-srcds: the Source RCON client of [src/rcon.js]

    A shallow embedding of the [SourceRCON] class: its constructor, the
    [write] primitive with its [onData] / [onError] handlers, [authenticate],
    [execute] and [disconnect], over an explicit model of the pieces of the
    JavaScript run time the class relies on (promises that settle once, the
    listener lists of the socket, the micro-task queue and the job queue).

    The modules [./packet] and [./protocol] required by [rcon.js] are not
    part of the sources at hand; what is needed of them is modelled from the
    specification and marked as such. *)

From Stdlib Require Import ZArith List String Ascii Lia Bool SpecFloat.
From Stdlib.Strings Require Import Byte.
From coqutil Require Import Byte Word.LittleEndianList.
From stdpp Require Import base list.
Import ListNotations.

Local Open Scope string_scope.
Local Open Scope list_scope.
Local Open Scope Z_scope.

(** ** JavaScript helpers *)

Definition newline : ascii := "010"%char.

(** [s.replace(/\n$/, repl)]: the pattern has no flag, so [$] only matches at
    the very end of [s]; a final line feed, when there is one, is replaced
    by [repl], and [s] is returned as it is otherwise. *)
Fixpoint replace_final_newline (s repl : string) : string :=
  match s with
  | EmptyString => EmptyString
  | String c rest =>
      match rest with
      | EmptyString => if Ascii.eqb c newline then repl else s
      | String _ _ => String c (replace_final_newline rest repl)
      end
  end.


(** [a || b] on an optional number: [undefined] (the property is absent)
    and [0] are falsy. *)
Definition or_number (a : option Z) (b : Z) : Z :=
  match a with
  | None => b
  | Some 0 => b
  | Some n => n
  end.

(** [a || b] on an optional string: [undefined] and the empty string are
    falsy. *)
Definition or_string (a : option string) (b : string) : string :=
  match a with
  | None => b
  | Some EmptyString => b
  | Some s => s
  end.

(** ** Protocol constants

    The request id that [authenticate] sends, [Protocol.ID_AUTH], has no
    value in the specification; it is a parameter of the session model. *)

Module Protocol.
(** Modelled from the spec: [SERVERDATA_AUTH] of the missing [./protocol],
    the kind of an authentication request; its value is the one of the
    wire-format section. *)
Definition SERVERDATA_AUTH : Z := 3.

(** Modelled from the spec: [SERVERDATA_AUTH_RESPONSE] of the missing
    [./protocol], the kind of the answer to an authentication request. *)
Definition SERVERDATA_AUTH_RESPONSE : Z := 2.

(** Modelled from the spec: [SERVERDATA_EXECCOMMAND] of the missing
    [./protocol], the kind of a command request; the same number as
    [SERVERDATA_AUTH_RESPONSE]. *)
Definition SERVERDATA_EXECCOMMAND : Z := 2.

(** Modelled from the spec: [SERVERDATA_RESPONSE_VALUE] of the missing
    [./protocol], the kind of the answer to a command. *)
Definition SERVERDATA_RESPONSE_VALUE : Z := 0.
End Protocol.

(** ** Packet codec *)

Module Packet.

(** Modelled from the spec: the object that [Packet.decode] of the missing
    [./packet] returns. *)
Record DecodedPacket : Type := mkDecoded
  { size : Z; id : Z; type : Z; body : string }.

(** Modelled from the spec: how the missing [./packet] writes a field of
    the frame, "4 bytes, little-endian signed int": the four bytes of
    [value], least significant first.  The data model gives the fields
    the type [int32]; of a value outside that range the low 32 bits are
    written here, where [Buffer.writeInt32LE] of Node raises a
    [RangeError]. *)
Definition writeInt32LE (value : Z) : list byte := le_split 4 value.

(** Two's complement reading of an unsigned 32-bit value. *)
Definition to_int32 (u : Z) : Z := if u <? 2 ^ 31 then u else u - 2 ^ 32.

(** Modelled from the spec: how the missing [./packet] reads a field of
    the frame, one of "the three 4-byte little-endian integers", at its
    position: the four bytes at [offset], read as a signed integer.  The
    specification trusts the transport to deliver a whole frame; in a
    buffer that ends before [offset + 4] the bytes that are not there
    count as zero here, where [Buffer.readInt32LE] of Node raises a
    [RangeError]. *)
Definition readInt32LE (buf : list byte) (offset : nat) : Z :=
  to_int32 (le_combine (firstn 4 (skipn offset buf))).


Section Codec.
(** The text codec of the platform ([Buffer] with the session's
    encoding name): from a string to its bytes and back. *)
Variable text_encode : string -> string -> list byte.
Variable text_decode : string -> list byte -> string.

(** Modelled from the spec: [Packet.encode] of the missing [./packet].
    The frame is [size], [id], [type] (4 bytes each, little-endian),
    the body encoded as text, the terminator byte and one more zero
    byte; [size] counts everything after the size field. *)
Definition encode (type id : Z) (body encoding : string) : list byte :=
  let text := text_encode encoding body in
  let size := 4 + 4 + Z.of_nat (length text) + 2 in
  writeInt32LE size ++ writeInt32LE id ++ writeInt32LE type
    ++ text ++ [x00] ++ [x00].

(** Modelled from the spec: [Packet.decode] of the missing [./packet].
    The three integers are read at their positions, the rest up to the
    two trailing zero bytes is decoded as text, and a single final line
    feed is trimmed from it.  The declared size is not compared with
    the length of the buffer. *)
Definition decode (buf : list byte) (encoding : string) : DecodedPacket :=
  let text := firstn (length buf - 2 - 12) (skipn 12 buf) in
  {| size := readInt32LE buf 0;
     id := readInt32LE buf 4;
     type := readInt32LE buf 8;
     body := replace_final_newline (text_decode encoding text) "" |}.
End Codec.

End Packet.

(** A text codec for single-byte characters: every character of the string
    is one byte of the buffer, whatever the encoding name. *)
Definition byte_text_encode (encoding body : string) : list byte :=
  list_byte_of_string body.
Definition byte_text_decode (encoding : string) (bytes : list byte) : string :=
  string_of_list_byte bytes.


(** ** Run-time model: values, errors, promises *)

(** What a promise of this program is resolved with: [undefined]
    ([authenticate], [disconnect]) or a string ([write], [execute]). *)
Inductive value : Type :=
| undefined
| str (s : string).

(** [Error(message)], and whatever the socket passes to its ['error']
    listeners. *)
Inductive error : Type :=
| Error (message : string).

Inductive settled : Type :=
| Pending
| Fulfilled (v : value)
| Rejected (e : error).

(** [resolve] and [reject] only act on a pending promise: the first call
    settles it, the later ones do nothing. *)
Definition settle (outcome current : settled) : settled :=
  match current with
  | Pending => outcome
  | _ => current
  end.

Definition value_eqb (a b : value) : bool :=
  match a, b with
  | undefined, undefined => true
  | str x, str y => String.eqb x y
  | _, _ => false
  end.

(** The two continuations hung on the promise of a [write]: the
    [.then(...).catch(reject)] chain of [authenticate] and the one of the
    job that [execute] enqueues.  [call] is the promise handed to the
    caller. *)
Inductive reaction : Type :=
| AuthReaction (call : nat)
| ExecReaction (call : nat).

(** The promise returned by one call of [write], with the continuation
    attached to it, if any. *)
Record WritePromise : Type := mkWritePromise
  { w_state : settled; w_reaction : option reaction }.

(** ** The socket *)

(** The closure [onData] of one call of [write]: the promise it settles,
    the [type] argument of the call and its [response] variable. *)
Record DataListener : Type := mkDataListener
  { od_write : nat; od_type : Z; od_response : string }.

Inductive ErrorListener : Type :=
| WriteOnError (write : nat)
| DisconnectOnError (call : nat).

Inductive CloseListener : Type :=
| DisconnectOnClose (call : nat).

Definition ErrorListener_eqb (a b : ErrorListener) : bool :=
  match a, b with
  | WriteOnError x, WriteOnError y => Nat.eqb x y
  | DisconnectOnError x, DisconnectOnError y => Nat.eqb x y
  | _, _ => false
  end.

Definition CloseListener_eqb (a b : CloseListener) : bool :=
  match a, b with
  | DisconnectOnClose x, DisconnectOnClose y => Nat.eqb x y
  end.

(** [net.Socket] as this class sees it.  [written] lists the buffers
    passed to [connection.write], oldest first. *)
Record Connection : Type := mkConnection
  { remote_host : string;
    remote_port : Z;
    idle_timeout : option Z;
    writable : bool;
    destroyed : bool;
    written : list (list byte);
    data_listeners : list DataListener;
    error_listeners : list ErrorListener;
    close_listeners : list CloseListener }.

Definition createConnection (host : string) (port : Z) : Connection :=
  {| remote_host := host; remote_port := port; idle_timeout := None;
     writable := true; destroyed := false; written := [];
     data_listeners := []; error_listeners := []; close_listeners := [] |}.

Definition setTimeout (ms : Z) (c : Connection) : Connection :=
  {| remote_host := remote_host c; remote_port := remote_port c;
     idle_timeout := Some ms;
     writable := writable c; destroyed := destroyed c; written := written c;
     data_listeners := data_listeners c;
     error_listeners := error_listeners c;
     close_listeners := close_listeners c |}.

Definition socket_write (chunk : list byte) (c : Connection) : Connection :=
  {| remote_host := remote_host c; remote_port := remote_port c;
     idle_timeout := idle_timeout c;
     writable := writable c; destroyed := destroyed c;
     written := written c ++ [chunk];
     data_listeners := data_listeners c;
     error_listeners := error_listeners c;
     close_listeners := close_listeners c |}.

(** [connection.destroy()]: the socket is closed for good; from then on
    its [destroyed] property is true and its [writable] property false. *)
Definition destroy (c : Connection) : Connection :=
  {| remote_host := remote_host c; remote_port := remote_port c;
     idle_timeout := idle_timeout c;
     writable := false; destroyed := true; written := written c;
     data_listeners := data_listeners c;
     error_listeners := error_listeners c;
     close_listeners := close_listeners c |}.

Definition set_data_listeners (ls : list DataListener) (c : Connection) : Connection :=
  {| remote_host := remote_host c; remote_port := remote_port c;
     idle_timeout := idle_timeout c;
     writable := writable c; destroyed := destroyed c; written := written c;
     data_listeners := ls;
     error_listeners := error_listeners c;
     close_listeners := close_listeners c |}.

Definition set_error_listeners (ls : list ErrorListener) (c : Connection) : Connection :=
  {| remote_host := remote_host c; remote_port := remote_port c;
     idle_timeout := idle_timeout c;
     writable := writable c; destroyed := destroyed c; written := written c;
     data_listeners := data_listeners c;
     error_listeners := ls;
     close_listeners := close_listeners c |}.

Definition set_close_listeners (ls : list CloseListener) (c : Connection) : Connection :=
  {| remote_host := remote_host c; remote_port := remote_port c;
     idle_timeout := idle_timeout c;
     writable := writable c; destroyed := destroyed c; written := written c;
     data_listeners := data_listeners c;
     error_listeners := error_listeners c;
     close_listeners := ls |}.

(** [connection.on('data', l)] *)
Definition on_data (l : DataListener) (c : Connection) : Connection :=
  set_data_listeners (data_listeners c ++ [l]) c.

(** [connection.once('error', l)]; that the listener goes away when it
    fires is part of [emit_error]. *)
Definition once_error (l : ErrorListener) (c : Connection) : Connection :=
  set_error_listeners (error_listeners c ++ [l]) c.

Definition once_close (l : CloseListener) (c : Connection) : Connection :=
  set_close_listeners (close_listeners c ++ [l]) c.

(** [connection.removeListener('data', onData)] for the [onData] of the
    write [p]. *)
Definition remove_data (p : nat) (c : Connection) : Connection :=
  set_data_listeners
    (List.filter (fun l => negb (Nat.eqb (od_write l) p)) (data_listeners c)) c.

Definition remove_error (l : ErrorListener) (c : Connection) : Connection :=
  set_error_listeners
    (List.filter (fun l' => negb (ErrorListener_eqb l' l)) (error_listeners c)) c.

Definition remove_close (l : CloseListener) (c : Connection) : Connection :=
  set_close_listeners
    (List.filter (fun l' => negb (CloseListener_eqb l' l)) (close_listeners c)) c.

(** Whether the [onData] of the write [p] is registered for ['data']. *)
Definition listens_data (p : nat) (c : Connection) : bool :=
  existsb (fun l => Nat.eqb (od_write l) p) (data_listeners c).

(** ** The job queue *)

(** The function pushed by [execute]: it captures [packetID], [command]
    and the [resolve] / [reject] of the promise of that call. *)
Record Job : Type := mkJob
  { job_packetID : Z; job_command : string; job_call : nat }.

(** [queue] with [concurrency: 1] and [autostart: true]: the jobs not yet
    started, in the order they were pushed, and whether one is running. *)
Record Queue : Type := mkQueue
  { jobs : list Job; running : bool }.

(** ** The class and the program state *)

Record SourceRCON : Type := mkSourceRCON
  { host : string;
    port : Z;
    maximumPacketSize : Z;
    encoding : string;
    timeout : Z;
    connection : Connection;
    authenticated : bool;
    q : Queue }.

(** The object together with the promises created so far and the
    micro-tasks waiting to run. *)
Record State : Type := mkState
  { self : SourceRCON;
    calls : list settled;
    writes : list WritePromise;
    microtasks : list (reaction * settled) }.

Definition set_connection (c : Connection) (t : SourceRCON) : SourceRCON :=
  {| host := host t; port := port t; maximumPacketSize := maximumPacketSize t;
     encoding := encoding t; timeout := timeout t;
     connection := c; authenticated := authenticated t; q := q t |}.

Definition set_authenticated (b : bool) (t : SourceRCON) : SourceRCON :=
  {| host := host t; port := port t; maximumPacketSize := maximumPacketSize t;
     encoding := encoding t; timeout := timeout t;
     connection := connection t; authenticated := b; q := q t |}.

Definition set_q (x : Queue) (t : SourceRCON) : SourceRCON :=
  {| host := host t; port := port t; maximumPacketSize := maximumPacketSize t;
     encoding := encoding t; timeout := timeout t;
     connection := connection t; authenticated := authenticated t; q := x |}.

Definition with_self (f : SourceRCON -> SourceRCON) (s : State) : State :=
  {| self := f (self s); calls := calls s; writes := writes s;
     microtasks := microtasks s |}.

Definition with_connection (f : Connection -> Connection) (s : State) : State :=
  with_self (fun t => set_connection (f (connection t)) t) s.

Definition set_calls (cs : list settled) (s : State) : State :=
  {| self := self s; calls := cs; writes := writes s;
     microtasks := microtasks s |}.

Definition set_writes (ws : list WritePromise) (s : State) : State :=
  {| self := self s; calls := calls s; writes := ws;
     microtasks := microtasks s |}.

Definition set_microtasks (ms : list (reaction * settled)) (s : State) : State :=
  {| self := self s; calls := calls s; writes := writes s; microtasks := ms |}.

(** [new Promise(...)] for a promise handed to the caller. *)
Definition new_call (s : State) : nat * State :=
  (length (calls s), set_calls (calls s ++ [Pending]) s).

(** [resolve] / [reject] of the promise [p] of a call. *)
Definition settle_call (p : nat) (outcome : settled) (s : State) : State :=
  set_calls (alter (settle outcome) p (calls s)) s.

(** [new Promise(...)] in [write]. *)
Definition new_write (s : State) : nat * State :=
  (length (writes s),
   set_writes (writes s ++ [mkWritePromise Pending None]) s).

(** [resolve] / [reject] of the promise [p] of a [write]: when this
    settles the promise, its continuation becomes a micro-task. *)
Definition settle_write (p : nat) (outcome : settled) (s : State) : State :=
  match writes s !! p with
  | Some (mkWritePromise Pending r) =>
      let s := set_writes (<[p := mkWritePromise outcome r]> (writes s)) s in
      match r with
      | Some k => set_microtasks (microtasks s ++ [(k, outcome)]) s
      | None => s
      end
  | _ => s
  end.

(** [.then(...).catch(reject)] on the promise [p] of a [write]. *)
Definition then_ (p : nat) (k : reaction) (s : State) : State :=
  match writes s !! p with
  | Some (mkWritePromise Pending _) =>
      set_writes (<[p := mkWritePromise Pending (Some k)]> (writes s)) s
  | Some (mkWritePromise outcome _) =>
      set_microtasks (microtasks s ++ [(k, outcome)]) s
  | None => s
  end.

Definition call_state (p : nat) (s : State) : settled :=
  default Pending (calls s !! p).

Definition write_state (p : nat) (s : State) : settled :=
  match writes s !! p with
  | Some w => w_state w
  | None => Pending
  end.

(** ** Construction *)

Record ClassOptions : Type := mkOptions
  { opt_host : option string;
    opt_port : option Z;
    opt_maximumPacketSize : option Z;
    opt_encoding : option string;
    opt_timeout : option Z }.

(** [options = {}] *)
Definition no_options : ClassOptions := mkOptions None None None None None.

(** Lines 22-83. *)
Definition constructor (options : ClassOptions) : SourceRCON :=
  let host := or_string (opt_host options) "127.0.0.1" in
  let port := or_number (opt_port options) 27015 in
  let maximumPacketSize := or_number (opt_maximumPacketSize options) 4096 in
  let encoding := or_string (opt_encoding options) "ascii" in
  let timeout := or_number (opt_timeout options) 1000 in
  {| host := host;
     port := port;
     maximumPacketSize := maximumPacketSize;
     encoding := encoding;
     timeout := timeout;
     connection := setTimeout timeout (createConnection host port);
     authenticated := false;
     q := mkQueue [] false |}.

(** A program that has just run [new SourceRCON(options)]. *)
Definition new_SourceRCON (options : ClassOptions) : State :=
  {| self := constructor options; calls := []; writes := []; microtasks := [] |}.

(** ** Numbers

    A JavaScript number is an IEEE 754 binary64 value; its arithmetic is
    the one of [SpecFloat] at precision 53, rounding to nearest, ties to
    even. *)

Definition prec : Z := 53.
Definition emax : Z := 1024.

(** An integer literal of the source. *)
Definition number_of_Z (z : Z) : spec_float := binary_normalize prec emax z 0 false.

Definition number_mul : spec_float -> spec_float -> spec_float := SFmul prec emax.
Definition number_add : spec_float -> spec_float -> spec_float := SFadd prec emax.
Definition number_sub : spec_float -> spec_float -> spec_float := SFsub prec emax.

(** [Math.floor] on a finite number, as an integer.  It is only applied to
    finite numbers here; the other cases are given [0]. *)
Definition Math_floor (x : spec_float) : Z :=
  match x with
  | S754_finite s m e => Z.shiftl (cond_Zopp s (Zpos m)) e
  | _ => 0
  end.

(** What [Math.random()] may return: a binary64 number in [[0, 1)]. *)
Definition random_draw (r : spec_float) : bool :=
  valid_binary prec emax r
  && SFleb (S754_zero false) r
  && SFltb r (number_of_Z 1).

(** Line 193: [Math.floor(Math.random() * (256 - 1) + 1)], for the draw
    [r]. *)
Definition packetID (r : spec_float) : Z :=
  Math_floor
    (number_add
       (number_mul r (number_sub (number_of_Z 256) (number_of_Z 1)))
       (number_of_Z 1)).

(** What a shift record holds after [N] has been shifted right by [k]
    places: the quotient, whether the remainder is at least one half, and
    whether it is neither zero nor one half. *)
Definition shr_inv (N k : Z) (mrs : shr_record) : Prop :=
  shr_m mrs = N / 2 ^ k
  /\ shr_r mrs = (2 ^ k <=? 2 * (N mod 2 ^ k))
  /\ shr_s mrs = negb (N mod 2 ^ k =? 0) && negb (2 * (N mod 2 ^ k) =? 2 ^ k).

(** ** The methods of the class *)

Section Session.
(** [Packet.encode(type, id, body, encoding)] and
    [Packet.decode(buffer, encoding)] of [./packet], and
    [Protocol.ID_AUTH] of [./protocol]. *)
Variable encode : Z -> Z -> string -> string -> list byte.
Variable decode : list byte -> string -> Packet.DecodedPacket.
Variable ID_AUTH : Z.

(** Lines 114-132.  Returns the promise of the call. *)
Definition disconnect (s : State) : nat * State :=
  let s := with_self (set_authenticated false) s in
  let s := with_connection destroy s in
  let (p, s) := new_call s in
  let s := with_connection (once_close (DisconnectOnClose p)) s in
  let s := with_connection (once_error (DisconnectOnError p)) s in
  (p, s).

(** Lines 119-122. *)
Definition disconnect_onClose (p : nat) (s : State) : State :=
  let s := with_connection (remove_error (DisconnectOnError p)) s in
  settle_call p (Fulfilled undefined) s.

(** Lines 124-127. *)
Definition disconnect_onError (p : nat) (e : error) (s : State) : State :=
  let s := with_connection (remove_close (DisconnectOnClose p)) s in
  settle_call p (Rejected e) s.

(** Lines 144-168: the listener [onData] of the write [od_write l],
    called with [packet]. *)
Definition onData (l : DataListener) (packet : list byte) (s : State) : State :=
  let p := od_write l in
  let type := od_type l in
  let decodedPacket := decode packet (encoding (self s)) in
  if (type =? Protocol.SERVERDATA_AUTH)
     && negb (Packet.type decodedPacket =? Protocol.SERVERDATA_AUTH_RESPONSE)
  then
    (* resolve('failed'); return; *)
    settle_write p (Fulfilled (str "failed")) s
  else
    let s :=
      if (type =? Protocol.SERVERDATA_AUTH)
         && (Packet.type decodedPacket =? Protocol.SERVERDATA_AUTH_RESPONSE)
      then
        let s :=
          if negb (Packet.id decodedPacket =? -1)
          then settle_write p (Fulfilled (str "success")) s
          else settle_write p (Fulfilled (str "failed")) s in
        with_connection (remove_data p) s
      else
        let response :=
          (od_response l ++
             replace_final_newline (Packet.body decodedPacket)
               (String newline EmptyString))%string in
        let s := with_connection (remove_data p) s in
        settle_write p (Fulfilled (str response)) s in
    with_connection (remove_error (WriteOnError p)) s.

(** Lines 170-173. *)
Definition onError (p : nat) (e : error) (s : State) : State :=
  let s := with_connection (remove_data p) s in
  settle_write p (Rejected e) s.

(** Lines 141-184.  Returns the promise of the call. *)
Definition write (type id : Z) (body : string) (s : State) : nat * State :=
  let (p, s) := new_write s in
  let encodedPacket := encode type id body (encoding (self s)) in
  let s :=
    if (maximumPacketSize (self s) >? 0)
       && (Z.of_nat (length encodedPacket) >? maximumPacketSize (self s))
    then settle_write p (Rejected (Error "Packet too long")) s
    else s in
  let s := with_connection (on_data (mkDataListener p type "")) s in
  let s := with_connection (once_error (WriteOnError p)) s in
  let s := with_connection (socket_write encodedPacket) s in
  (p, s).

(** Lines 90-108, up to the end of the promise executor. *)
Definition authenticate (password : string) (s : State) : nat * State :=
  let (p, s) := new_call s in
  let s :=
    if authenticated (self s)
    then settle_call p (Rejected (Error "Already authenticated")) s
    else s in
  let (w, s) := write Protocol.SERVERDATA_AUTH ID_AUTH password s in
  let s := then_ w (AuthReaction p) s in
  (p, s).

(** Lines 201-205: the job runs. *)
Definition run_job (j : Job) (s : State) : State :=
  let (w, s) :=
    write Protocol.SERVERDATA_EXECCOMMAND (job_packetID j) (job_command j) s in
  then_ w (ExecReaction (job_call j)) s.

(** The queue starts its next job when none is running. *)
Definition q_start (s : State) : State :=
  match running (q (self s)), jobs (q (self s)) with
  | false, j :: rest => run_job j (with_self (set_q (mkQueue rest true)) s)
  | _, _ => s
  end.

(** [q.push(job)] with [autostart]. *)
Definition q_push (j : Job) (s : State) : State :=
  let old := q (self s) in
  q_start (with_self (set_q (mkQueue (jobs old ++ [j]) (running old))) s).

(** Lines 191-207, up to the end of the promise executor; [r] is what
    [Math.random()] returns. *)
Definition execute (r : spec_float) (command : string) (s : State) : nat * State :=
  let (p, s) := new_call s in
  let packetID := packetID r in
  let s :=
    if negb (writable (connection (self s)))
    then settle_call p (Rejected (Error "Unable to write to socket")) s
    else s in
  let s :=
    if negb (authenticated (self s))
    then settle_call p (Rejected (Error "Unable to authenticate")) s
    else s in
  let s := q_push (mkJob packetID command p) s in
  (p, s).

(** The continuation [k] runs with the outcome of its [write]:
    lines 97-106 and 203-204. *)
Definition run_reaction (k : reaction) (outcome : settled) (s : State) : State :=
  match k, outcome with
  | _, Pending => s
  | AuthReaction p, Fulfilled data =>
      if value_eqb data (str "success")
      then
        let s := with_self (set_authenticated true) s in
        settle_call p (Fulfilled undefined) s
      else
        let s := snd (disconnect s) in
        settle_call p (Rejected (Error "Unable to authenticate")) s
  | AuthReaction p, Rejected e => settle_call p (Rejected e) s
  | ExecReaction p, Fulfilled data => settle_call p (Fulfilled data) s
  | ExecReaction p, Rejected e => settle_call p (Rejected e) s
  end.

(** The micro-tasks run, oldest first, once the current piece of code
    has returned. *)
Definition run_microtasks (s : State) : State :=
  fold_left (fun s m => run_reaction (fst m) (snd m) s)
    (microtasks s) (set_microtasks [] s).

(** The socket emits ['data']: the listeners registered at that moment
    are called in the order they were added. *)
Definition emit_data (packet : list byte) (s : State) : State :=
  fold_left (fun s l => onData l packet s)
    (data_listeners (connection (self s))) s.

(** The socket emits ['error']: every listener was added with [once], so
    it is removed, then called. *)
Definition emit_error (e : error) (s : State) : State :=
  fold_left
    (fun s l =>
       let s := with_connection (remove_error l) s in
       match l with
       | WriteOnError p => onError p e s
       | DisconnectOnError p => disconnect_onError p e s
       end)
    (error_listeners (connection (self s))) s.

(** The socket emits ['close']. *)
Definition emit_close (s : State) : State :=
  fold_left
    (fun s l =>
       let s := with_connection (remove_close l) s in
       match l with
       | DisconnectOnClose p => disconnect_onClose p s
       end)
    (close_listeners (connection (self s))) s.

(** *** Turns of the event loop

    Each of these is one piece of code run to completion, followed by
    the micro-tasks it has queued. *)

Definition call_authenticate (password : string) (s : State) : nat * State :=
  let (p, s) := authenticate password s in (p, run_microtasks s).

Definition call_execute (r : spec_float) (command : string) (s : State) : nat * State :=
  let (p, s) := execute r command s in (p, run_microtasks s).

Definition call_write (type id : Z) (body : string) (s : State) : nat * State :=
  let (p, s) := write type id body s in (p, run_microtasks s).

Definition call_disconnect (s : State) : nat * State :=
  let (p, s) := disconnect s in (p, run_microtasks s).

(** A buffer arrives from the server. *)
Definition deliver (packet : list byte) (s : State) : State :=
  run_microtasks (emit_data packet s).

Definition socket_error (e : error) (s : State) : State :=
  run_microtasks (emit_error e s).

Definition socket_close (s : State) : State :=
  run_microtasks (emit_close s).

(** The running job is over for the queue (its 500 ms have elapsed); the
    next one starts. *)
Definition job_over (s : State) : State :=
  let old := q (self s) in
  run_microtasks (q_start (with_self (set_q (mkQueue (jobs old) false)) s)).

(** The size check of [write] lets the packet through. *)
Definition fits (type id : Z) (body : string) (t : SourceRCON) : bool :=
  negb ((maximumPacketSize t >? 0)
        && (Z.of_nat (length (encode type id body (encoding t)))
            >? maximumPacketSize t)).

End Session.

(** The codec of [Packet] over single-byte text, to run the model on
    concrete sessions. *)
Definition byte_encode : Z -> Z -> string -> string -> list byte :=
  Packet.encode byte_text_encode.
Definition byte_decode : list byte -> string -> Packet.DecodedPacket :=
  Packet.decode byte_text_decode.

(** The string made of [n] copies of [c]. *)
Fixpoint repeat_char (n : nat) (c : ascii) : string :=
  match n with
  | O => EmptyString
  | S n' => String c (repeat_char n' c)
  end.

(** ** Histories

    A session is driven by its caller and by its socket.  An [Event] is
    one turn of the event loop: a call of a method, or an event of the
    socket or of the job queue. *)

Inductive Event : Type :=
| Authenticate (password : string)
| Execute (r : spec_float) (command : string)
| WritePacket (type id : Z) (body : string)
| Disconnect
| Data (packet : list byte)
| SocketError (e : error)
| SocketClose
| JobOver.

Section Histories.
Variable encode : Z -> Z -> string -> string -> list byte.
Variable decode : list byte -> string -> Packet.DecodedPacket.
Variable ID_AUTH : Z.

Definition turn (ev : Event) (s : State) : State :=
  match ev with
  | Authenticate password => snd (call_authenticate encode ID_AUTH password s)
  | Execute r command => snd (call_execute encode r command s)
  | WritePacket type id body => snd (call_write encode type id body s)
  | Disconnect => snd (call_disconnect s)
  | Data packet => deliver decode packet s
  | SocketError e => socket_error e s
  | SocketClose => socket_close s
  | JobOver => job_over encode s
  end.

Definition history (evs : list Event) (s : State) : State :=
  fold_left (fun s ev => turn ev s) evs s.

End Histories.

(** ** Notions used in the proofs *)

(** The elementary changes of the state that the methods and the
    handlers are made of, with the buffers they hand to the socket. *)
Inductive evolves : State -> list (list byte) -> State -> Prop :=
| ev_refl s : evolves s [] s
| ev_trans a x b y c : evolves a x b -> evolves b y c -> evolves a (x ++ y) c
| ev_on_data l s : evolves s [] (with_connection (on_data l) s)
| ev_once_error l s : evolves s [] (with_connection (once_error l) s)
| ev_once_close l s : evolves s [] (with_connection (once_close l) s)
| ev_remove_data p s : evolves s [] (with_connection (remove_data p) s)
| ev_remove_error l s : evolves s [] (with_connection (remove_error l) s)
| ev_remove_close l s : evolves s [] (with_connection (remove_close l) s)
| ev_socket_write chunk s :
    evolves s [chunk] (with_connection (socket_write chunk) s)
| ev_destroy s : evolves s [] (with_connection destroy s)
| ev_set_authenticated b s : evolves s [] (with_self (set_authenticated b) s)
| ev_set_q x s : evolves s [] (with_self (set_q x) s)
| ev_new_call s : evolves s [] (set_calls (calls s ++ [Pending]) s)
| ev_settle_call p outcome s : evolves s [] (settle_call p outcome s)
| ev_new_write s :
    evolves s [] (set_writes (writes s ++ [mkWritePromise Pending None]) s)
| ev_settle_write p outcome s : evolves s [] (settle_write p outcome s)
| ev_then p k s : evolves s [] (then_ p k s)
| ev_set_microtasks ms s : evolves s [] (set_microtasks ms s).

(** What the socket does with one listener for ['close']. *)
Definition close_step (s : State) (l : CloseListener) : State :=
  let s := with_connection (remove_close l) s in
  match l with
  | DisconnectOnClose p => disconnect_onClose p s
  end.

(** The promise of the call that a continuation settles. *)
Definition call_of (k : reaction) : nat :=
  match k with
  | AuthReaction p => p
  | ExecReaction p => p
  end.

(** The listeners for ['error'] can be told apart. *)
#[global] Instance ErrorListener_eq_dec : EqDecision ErrorListener.
Proof. solve_decision. Defined.

(** What the socket does with one listener for ['error']. *)
Definition error_step (e : error) (s : State) (l : ErrorListener) : State :=
  let s := with_connection (remove_error l) s in
  match l with
  | WriteOnError p => onError p e s
  | DisconnectOnError p => disconnect_onError p e s
  end.

(** The state of the promises while an error [e] is handled, against
    their state [s] before: a promise is as it was, or it was pending
    and is now rejected with [e]; the continuations in the queue all
    carry [e], and the one of every [write] rejected on the way is
    among them. *)
Definition rejecting (e : error) (s s' : State) : Prop :=
  (forall p,
     calls s' !! p = calls s !! p
     \/ (calls s !! p = Some Pending /\ calls s' !! p = Some (Rejected e)))
  /\ (forall w,
        writes s' !! w = writes s !! w
        \/ (exists k,
              writes s !! w = Some (mkWritePromise Pending k)
              /\ writes s' !! w = Some (mkWritePromise (Rejected e) k)))
  /\ (forall m, In m (microtasks s') -> snd m = Rejected e)
  /\ (forall w r,
        writes s !! w = Some (mkWritePromise Pending (Some r)) ->
        writes s' !! w = Some (mkWritePromise (Rejected e) (Some r)) ->
        In (r, Rejected e) (microtasks s')).

(** Whether the promise [p] of a [write] carries the continuation of an
    [authenticate]. *)
Definition auth_write (p : nat) (s : State) : bool :=
  match writes s !! p with
  | Some (mkWritePromise _ (Some (AuthReaction _))) => true
  | _ => false
  end.

(** The handlers for ['data'] belong to promises that exist, and the
    handler of a [write] made by [authenticate] has the type of an
    authentication. *)
Definition listeners_sound (s : State) : Prop :=
  forall l,
    In l (data_listeners (connection (self s))) ->
    (od_write l < length (writes s))%nat
    /\ (auth_write (od_write l) s = true ->
        od_type l = Protocol.SERVERDATA_AUTH).

(** No continuation of the list is the one of an [authenticate] whose
    [write] was resolved with ['success']. *)
Definition no_success (ms : list (reaction * settled)) : Prop :=
  forall p v,
    In (AuthReaction p, Fulfilled v) ms -> value_eqb v (str "success") = false.

(** The handlers are fewer or the same, the promises of the [write]s
    are as many and carry the same continuations. *)
Definition same_writes (s s' : State) : Prop :=
  (forall l,
     In l (data_listeners (connection (self s'))) ->
     In l (data_listeners (connection (self s))))
  /\ length (writes s') = length (writes s)
  /\ (forall p, auth_write p s' = auth_write p s).

(** The buffer decodes to an AUTH_RESPONSE packet whose id is not
    [-1]: the test of lines 152-153. *)
Definition accepted
    (decode : list byte -> string -> Packet.DecodedPacket)
    (packet : list byte) (enc : string) : Prop :=
  Packet.type (decode packet enc) = Protocol.SERVERDATA_AUTH_RESPONSE
  /\ Packet.id (decode packet enc) <> -1.

(** An event that is neither a buffer nor an error of the socket. *)
Definition silent (ev : Event) : bool :=
  match ev with
  | Data _ => false
  | SocketError _ => false
  | _ => true
  end.

(** The promise [p] of a call is pending, and nothing that runs without
    the socket refers to it: no listener for ['close'], no continuation
    in the queue of micro-tasks, no job that waits. *)
Definition untouched (p : nat) (s : State) : Prop :=
  calls s !! p = Some Pending
  /\ ~ In (DisconnectOnClose p) (close_listeners (connection (self s)))
  /\ (forall m, In m (microtasks s) -> call_of (fst m) <> p)
  /\ (forall j, In j (jobs (q (self s))) -> job_call j <> p).

(** The promise [p] of a call and the continuations that settle it while
    a buffer is handled: before the handler of its [write] [w] has run,
    the [write] is pending and no continuation in the queue is for [p];
    afterwards the continuation of [w], with the value [v], is in the
    queue and is the only one for [p].  No other pending [write] carries
    a continuation for [p]. *)
Definition answering (p w : nat) (v : value) (s : State) : Prop :=
  ((writes s !! w = Some (mkWritePromise Pending (Some (ExecReaction p)))
    /\ (forall m, In m (microtasks s) -> call_of (fst m) <> p))
   \/ (write_state w s <> Pending
       /\ In (ExecReaction p, Fulfilled v) (microtasks s)
       /\ (forall m, In m (microtasks s) ->
                     call_of (fst m) = p -> m = (ExecReaction p, Fulfilled v))))
  /\ (forall w' r,
        w' <> w ->
        writes s !! w' = Some (mkWritePromise Pending (Some r)) ->
        call_of r <> p).

(** ** Sessions to run the model on *)

(** A session after a handshake that the server has accepted: the
    object with its default options, [authenticate("pw")], and an
    AUTH_RESPONSE buffer with id 7. *)
Definition session_at_rest : State :=
  deliver byte_decode
    (byte_encode Protocol.SERVERDATA_AUTH_RESPONSE 7 "" "ascii")
    (snd (call_authenticate byte_encode 7 "pw" (new_SourceRCON no_options))).

(** A draw of [Math.random()]. *)
Definition draw_zero : spec_float := S754_zero false.

(** * Properties *)

(** ** The helpers *)

Lemma replace_final_newline_same (s : string) :
  replace_final_newline s (String newline EmptyString) = s.
Proof.
  induction s as [|c rest IH]; [reflexivity|].
  destruct rest as [|c' rest'].
  - simpl. destruct (Ascii.eqb_spec c newline) as [->|]; reflexivity.
  - change (String c (replace_final_newline (String c' rest')
                        (String newline EmptyString)) = String c (String c' rest')).
    now rewrite IH.
Qed.



(** ** The packet codec *)



Section CodecFacts.
Variable text_encode : string -> string -> list byte.
Variable text_decode : string -> list byte -> string.

Local Abbreviation encode := (Packet.encode text_encode).
Local Abbreviation decode := (Packet.decode text_decode).

Lemma encode_length (type id : Z) (body enc : string) :
  length (encode type id body enc) = (14 + length (text_encode enc body))%nat.
Proof.
  unfold Packet.encode, Packet.writeInt32LE.
  rewrite !length_app, !length_le_split. simpl. lia.
Qed.


End CodecFacts.






(** ** Construction *)

(** C10: an option given as [0] (port, timeout, maximumPacketSize) or as
    the empty string (host, encoding) builds the same object as the option
    left out, with the documented default in the field. *)
Theorem constructor_falsy_is_default
    (h e : option string) (p m t : option Z) :
  (constructor (mkOptions (Some "") p m e t) = constructor (mkOptions None p m e t)
   /\ host (constructor (mkOptions (Some "") p m e t)) = "127.0.0.1")
  /\ (constructor (mkOptions h (Some 0) m e t) = constructor (mkOptions h None m e t)
      /\ port (constructor (mkOptions h (Some 0) m e t)) = 27015)
  /\ (constructor (mkOptions h p (Some 0) e t) = constructor (mkOptions h p None e t)
      /\ maximumPacketSize (constructor (mkOptions h p (Some 0) e t)) = 4096)
  /\ (constructor (mkOptions h p m (Some "") t) = constructor (mkOptions h p m None t)
      /\ encoding (constructor (mkOptions h p m (Some "") t)) = "ascii")
  /\ (constructor (mkOptions h p m e (Some 0)) = constructor (mkOptions h p m e None)
      /\ timeout (constructor (mkOptions h p m e (Some 0))) = 1000).
Proof. repeat split. Qed.

(** ** Lists that grow at the end *)

Lemma lookup_end {A : Type} (l : list A) (x : A) :
  (l ++ [x]) !! length l = Some x.
Proof. now apply list_lookup_middle. Qed.

Lemma insert_end {A : Type} (l : list A) (x y : A) :
  <[length l := y]> (l ++ [x]) = l ++ [y].
Proof.
  replace (length l) with (length l + 0)%nat by lia.
  now rewrite insert_app_r.
Qed.

Lemma alter_end {A : Type} (f : A -> A) (l : list A) (x : A) :
  alter f (length l) (l ++ [x]) = l ++ [f x].
Proof.
  replace (length l) with (length l + 0)%nat by lia.
  now rewrite alter_app_r.
Qed.

Lemma lookup_before_end {A : Type} (l : list A) (x y : A) :
  ((l ++ [x]) ++ [y]) !! length l = Some x.
Proof.
  rewrite lookup_app_l by (rewrite length_app; simpl; lia).
  apply lookup_end.
Qed.

(** ** The session *)

Lemma settle_write_last
    (t : SourceRCON) (cs : list settled) (ws : list WritePromise)
    (st : settled) (k : option reaction) (ms : list (reaction * settled))
    (outcome : settled) :
  settle_write (length ws) outcome
    (mkState t cs (ws ++ [mkWritePromise st k]) ms)
  = match st with
    | Pending =>
        mkState t cs (ws ++ [mkWritePromise outcome k])
          (ms ++ match k with Some r => [(r, outcome)] | None => [] end)
    | _ => mkState t cs (ws ++ [mkWritePromise st k]) ms
    end.
Proof.
  unfold settle_write. cbn [writes]. rewrite lookup_end.
  destruct st; [|reflexivity|reflexivity].
  unfold set_writes, set_microtasks. cbn [self calls writes microtasks].
  rewrite insert_end. destruct k; [reflexivity|].
  now rewrite app_nil_r.
Qed.

Lemma settle_call_last
    (t : SourceRCON) (cs : list settled) (c : settled)
    (ws : list WritePromise) (ms : list (reaction * settled))
    (outcome : settled) :
  settle_call (length cs) outcome (mkState t (cs ++ [c]) ws ms)
  = mkState t (cs ++ [settle outcome c]) ws ms.
Proof.
  unfold settle_call, set_calls. cbn [self calls writes microtasks].
  now rewrite alter_end.
Qed.

Lemma settle_call_before_last
    (t : SourceRCON) (cs : list settled) (c c' : settled)
    (ws : list WritePromise) (ms : list (reaction * settled))
    (outcome : settled) :
  settle_call (length cs) outcome (mkState t ((cs ++ [c]) ++ [c']) ws ms)
  = mkState t ((cs ++ [settle outcome c]) ++ [c']) ws ms.
Proof.
  unfold settle_call, set_calls. cbn [self calls writes microtasks].
  rewrite alter_app_l by (rewrite length_app; simpl; lia).
  now rewrite alter_end.
Qed.

Lemma disconnect_spec
    (t : SourceRCON) (cs : list settled) (ws : list WritePromise)
    (ms : list (reaction * settled)) :
  disconnect (mkState t cs ws ms)
  = (length cs,
     mkState
       (set_connection
          (once_error (DisconnectOnError (length cs))
             (once_close (DisconnectOnClose (length cs))
                (destroy (connection t))))
          (set_authenticated false t))
       (cs ++ [Pending]) ws ms).
Proof. reflexivity. Qed.

(** Projections of records that are spelled out, and the small functions
    applied to constructors. *)
Ltac projs :=
  cbn [self calls writes microtasks
       host port maximumPacketSize encoding timeout connection authenticated q
       remote_host remote_port idle_timeout writable destroyed written
       data_listeners error_listeners close_listeners
       jobs running job_packetID job_command job_call
       od_write od_type od_response w_state w_reaction
       fst snd negb andb app fold_left settle default] in *.

(** The field updates, turned into records. *)
Ltac setters :=
  cbv [set_connection set_authenticated set_q with_self with_connection
       set_calls set_writes set_microtasks
       setTimeout socket_write destroy
       set_data_listeners set_error_listeners set_close_listeners
       on_data once_error once_close
       remove_data remove_error remove_close] in *.

Ltac pair_out :=
  repeat match goal with
         | |- context [let (_, _) := ?x in _] =>
             rewrite (surjective_pairing x); cbv beta iota
         end.

(** Promises are settled as soon as the state they act on is spelled
    out, before the updates around them are unfolded. *)
Ltac heap :=
  repeat first
    [ progress projs
    | rewrite settle_write_last
    | rewrite settle_call_last
    | rewrite settle_call_before_last
    | rewrite disconnect_spec
    | rewrite lookup_end
    | rewrite insert_end
    | rewrite alter_end
    | rewrite lookup_before_end
    | progress setters ].

Section SessionFacts.
Variable encode : Z -> Z -> string -> string -> list byte.
Variable decode : list byte -> string -> Packet.DecodedPacket.
Variable ID_AUTH : Z.

(** *** [write] *)

(** The whole effect of the executor of [write]: the promise is new, it
    is rejected when the packet is too long, and in either case the two
    listeners are added and the packet goes to the socket. *)
Lemma write_spec (type id : Z) (body : string) (s : State) :
  write encode type id body s =
    (length (writes s),
     {| self :=
          set_connection
            (socket_write (encode type id body (encoding (self s)))
               (once_error (WriteOnError (length (writes s)))
                  (on_data (mkDataListener (length (writes s)) type "")
                     (connection (self s)))))
            (self s);
        calls := calls s;
        writes :=
          writes s ++
            [mkWritePromise
               (if fits encode type id body (self s) then Pending
                else Rejected (Error "Packet too long")) None];
        microtasks := microtasks s |}).
Proof.
  unfold write, new_write, fits.
  destruct s as [t cs ws ms]. heap.
  destruct ((maximumPacketSize t >? 0)
            && (Z.of_nat (length (encode type id body (encoding t)))
                >? maximumPacketSize t)); heap.
  - now rewrite app_nil_r.
  - reflexivity.
Qed.

(** [write] followed by the [.then(...).catch(...)] of its caller. *)
Lemma write_then_spec (type id : Z) (body : string) (k : reaction) (s : State) :
  then_ (fst (write encode type id body s)) k (snd (write encode type id body s)) =
    {| self :=
         set_connection
           (socket_write (encode type id body (encoding (self s)))
              (once_error (WriteOnError (length (writes s)))
                 (on_data (mkDataListener (length (writes s)) type "")
                    (connection (self s)))))
           (self s);
       calls := calls s;
       writes :=
         writes s ++
           [if fits encode type id body (self s)
            then mkWritePromise Pending (Some k)
            else mkWritePromise (Rejected (Error "Packet too long")) None];
       microtasks :=
         microtasks s ++
           (if fits encode type id body (self s) then []
            else [(k, Rejected (Error "Packet too long"))]) |}.
Proof.
  rewrite write_spec. unfold then_. heap.
  destruct (fits encode type id body (self s)); heap.
  - now rewrite app_nil_r.
  - reflexivity.
Qed.

(** Whatever the size check says, the packet is written. *)
Lemma write_writes (type id : Z) (body : string) (s : State) :
  written (connection (self (snd (write encode type id body s))))
  = written (connection (self s)) ++ [encode type id body (encoding (self s))].
Proof.
  rewrite write_spec. reflexivity.
Qed.

Lemma write_too_long (type id : Z) (body : string) (s : State) :
  maximumPacketSize (self s) > 0 ->
  Z.of_nat (length (encode type id body (encoding (self s))))
    > maximumPacketSize (self s) ->
  write_state (fst (write encode type id body s))
    (snd (write encode type id body s))
  = Rejected (Error "Packet too long").
Proof.
  intros Hmax Hlen. rewrite write_spec. unfold write_state, fits. heap.
  replace (maximumPacketSize (self s) >? 0) with true by (symmetry; lia).
  replace (Z.of_nat (length (encode type id body (encoding (self s))))
           >? maximumPacketSize (self s)) with true by (symmetry; lia).
  reflexivity.
Qed.

Lemma run_microtasks_nil (s : State) :
  microtasks s = [] -> run_microtasks s = s.
Proof.
  destruct s as [t cs ws ms]. projs. intros ->. reflexivity.
Qed.

(** *** [authenticate] *)

(** The state in which [authenticate] leaves a session that was not
    authenticated, for a password whose packet passes the size check:
    the packet is out, the two listeners are in place and both promises
    are pending. *)
Lemma authenticate_pending (password : string) (s : State) :
  authenticated (self s) = false ->
  microtasks s = [] ->
  fits encode Protocol.SERVERDATA_AUTH ID_AUTH password (self s) = true ->
  call_authenticate encode ID_AUTH password s =
    (length (calls s),
     {| self :=
          set_connection
            (socket_write
               (encode Protocol.SERVERDATA_AUTH ID_AUTH password
                  (encoding (self s)))
               (once_error (WriteOnError (length (writes s)))
                  (on_data
                     (mkDataListener (length (writes s))
                        Protocol.SERVERDATA_AUTH "")
                     (connection (self s)))))
            (self s);
        calls := calls s ++ [Pending];
        writes :=
          writes s ++
            [mkWritePromise Pending (Some (AuthReaction (length (calls s))))];
        microtasks := [] |}).
Proof.
  destruct s as [t cs ws ms]. projs. intros Hauth -> Hfits.
  unfold call_authenticate, authenticate, new_call. heap. rewrite Hauth.
  pair_out. rewrite write_then_spec. projs. rewrite Hfits.
  unfold run_microtasks. heap. now rewrite Hauth.
Qed.

(** The same call on a session that is already authenticated: the
    promise is rejected, and the packet is written all the same. *)
Lemma authenticate_already (password : string) (s : State) :
  authenticated (self s) = true ->
  microtasks s = [] ->
  call_state (fst (call_authenticate encode ID_AUTH password s))
    (snd (call_authenticate encode ID_AUTH password s))
  = Rejected (Error "Already authenticated")
  /\ written (connection
                (self (snd (call_authenticate encode ID_AUTH password s))))
     = written (connection (self s))
         ++ [encode Protocol.SERVERDATA_AUTH ID_AUTH password
               (encoding (self s))].
Proof.
  destruct s as [t cs ws ms]. projs. intros Hauth ->.
  unfold call_authenticate, authenticate, new_call. heap. rewrite Hauth.
  heap. pair_out. rewrite write_then_spec. projs.
  unfold run_microtasks, call_state.
  destruct (fits encode Protocol.SERVERDATA_AUTH ID_AUTH password _); heap.
  - split; reflexivity.
  - cbn [run_reaction]. heap. split; reflexivity.
Qed.

(** C1: on a session that is not authenticated and has no listener left
    on its socket, [authenticate] writes the AUTH packet and waits; the
    first buffer that arrives then decides the call.  It succeeds exactly
    when the buffer decodes to an AUTH_RESPONSE frame whose id is not
    [-1]; a frame of another type fails it at once; a success sets
    [authenticated]; every failure leaves [authenticated] false and
    destroys the socket. *)
Theorem authenticate_first_delivery
    (password : string) (packet : list byte) (s : State) :
  authenticated (self s) = false ->
  data_listeners (connection (self s)) = [] ->
  microtasks s = [] ->
  fits encode Protocol.SERVERDATA_AUTH ID_AUTH password (self s) = true ->
  let p := fst (call_authenticate encode ID_AUTH password s) in
  let s1 := snd (call_authenticate encode ID_AUTH password s) in
  let s2 := deliver decode packet s1 in
  let d := decode packet (encoding (self s)) in
  written (connection (self s1))
    = written (connection (self s))
        ++ [encode Protocol.SERVERDATA_AUTH ID_AUTH password (encoding (self s))]
  /\ call_state p s1 = Pending
  /\ (call_state p s2 = Fulfilled undefined
      <-> Packet.type d = Protocol.SERVERDATA_AUTH_RESPONSE
          /\ Packet.id d <> -1)
  /\ (Packet.type d <> Protocol.SERVERDATA_AUTH_RESPONSE ->
      call_state p s2 = Rejected (Error "Unable to authenticate"))
  /\ (call_state p s2 = Fulfilled undefined ->
      authenticated (self s2) = true)
  /\ (call_state p s2 <> Fulfilled undefined ->
      call_state p s2 = Rejected (Error "Unable to authenticate")
      /\ authenticated (self s2) = false
      /\ destroyed (connection (self s2)) = true).
Proof.
  intros Hauth Hdata Hmicro Hfits p s1 s2 d. subst p s1 s2 d.
  rewrite authenticate_pending by assumption. clear Hfits.
  destruct s as [t cs ws ms]. projs. subst ms.
  unfold deliver, emit_data. heap. rewrite Hdata. heap.
  unfold onData. projs. rewrite Z.eqb_refl. projs.
  unfold call_state at 1. projs. rewrite lookup_end. projs.
  rewrite !settle_write_last. cbv iota. projs.
  split; [reflexivity|]. split; [reflexivity|].
  destruct (Z.eqb_spec (Packet.type (decode packet (encoding t)))
              Protocol.SERVERDATA_AUTH_RESPONSE) as [Htype|Htype]; projs.
  - destruct (Z.eqb_spec (Packet.id (decode packet (encoding t))) (-1))
      as [Hid|Hid]; heap; unfold run_microtasks; heap; cbn [run_reaction].
    + change (value_eqb (str "failed") (str "success")) with false.
      cbv iota. heap. unfold call_state. heap.
      repeat split; intros; try discriminate; try congruence; try tauto.
    + change (value_eqb (str "success") (str "success")) with true.
      cbv iota. unfold call_state. heap.
      repeat split; intros; try discriminate; try congruence; try tauto.
  - heap. unfold run_microtasks; heap; cbn [run_reaction].
    change (value_eqb (str "failed") (str "success")) with false.
    cbv iota. heap. unfold call_state. heap.
    repeat split; intros; try discriminate; try congruence; try tauto.
Qed.

(** *** [execute] *)

(** What a call of [execute] has done by the time it returns, on a
    session whose queue is idle: whatever the two checks say, the job is
    pushed and started, so the packet is written; the promise of the call
    carries the first failure, if any. *)
Lemma execute_idle (r : spec_float) (command : string) (s : State) :
  q (self s) = mkQueue [] false ->
  microtasks s = [] ->
  let p := fst (call_execute encode r command s) in
  let s' := snd (call_execute encode r command s) in
  written (connection (self s'))
    = written (connection (self s))
        ++ [encode Protocol.SERVERDATA_EXECCOMMAND (packetID r) command
              (encoding (self s))]
  /\ q (self s') = mkQueue [] true
  /\ call_state p s'
     = if negb (writable (connection (self s)))
       then Rejected (Error "Unable to write to socket")
       else if negb (authenticated (self s))
       then Rejected (Error "Unable to authenticate")
       else if fits encode Protocol.SERVERDATA_EXECCOMMAND (packetID r)
                 command (self s)
       then Pending
       else Rejected (Error "Packet too long").
Proof.
  destruct s as [t cs ws ms]. projs. intros Hq ->.
  unfold call_execute, execute, new_call. heap.
  destruct (writable (connection t)); projs; heap;
    destruct (authenticated t); projs; heap;
    unfold q_push, q_start; heap; rewrite Hq; heap;
    unfold run_job; pair_out; rewrite write_then_spec; projs;
    unfold fits; projs;
    destruct (negb _); unfold run_microtasks, call_state; heap;
    cbn [run_reaction]; heap; repeat split; reflexivity.
Qed.

(** *** [onData] *)

Lemma self_settle_write (p : nat) (outcome : settled) (s : State) :
  self (settle_write p outcome s) = self s.
Proof.
  unfold settle_write.
  destruct (writes s !! p) as [[[] [k|]]|]; reflexivity.
Qed.

Lemma listens_data_remove (p : nat) (c : Connection) :
  listens_data p (remove_data p c) = false.
Proof.
  unfold listens_data, remove_data, set_data_listeners.
  cbn [data_listeners].
  induction (data_listeners c) as [|l ls IH]; [reflexivity|].
  cbn [List.filter]. destruct (Nat.eqb (od_write l) p) eqn:E; cbn [negb].
  - exact IH.
  - cbn [existsb]. now rewrite E, IH.
Qed.

(** The branch of line 149: the promise is resolved and the handler
    returns; the socket keeps both listeners of the write. *)
Lemma onData_early_return (l : DataListener) (packet : list byte) (s : State) :
  od_type l = Protocol.SERVERDATA_AUTH ->
  Packet.type (decode packet (encoding (self s)))
    <> Protocol.SERVERDATA_AUTH_RESPONSE ->
  self (onData decode l packet s) = self s.
Proof.
  intros Htype Hresp. unfold onData. rewrite Htype, Z.eqb_refl.
  destruct (Z.eqb_spec (Packet.type (decode packet (encoding (self s))))
              Protocol.SERVERDATA_AUTH_RESPONSE) as [E|_]; [contradiction|].
  cbn [negb andb]. apply self_settle_write.
Qed.

(** The two other branches take the handler off the socket. *)
Lemma onData_removes (l : DataListener) (packet : list byte) (s : State) :
  ~ (od_type l = Protocol.SERVERDATA_AUTH
     /\ Packet.type (decode packet (encoding (self s)))
        <> Protocol.SERVERDATA_AUTH_RESPONSE) ->
  listens_data (od_write l) (connection (self (onData decode l packet s)))
  = false.
Proof.
  intros Hnot. unfold onData.
  destruct (Z.eqb_spec (od_type l) Protocol.SERVERDATA_AUTH) as [Ht|Ht];
    destruct (Z.eqb_spec (Packet.type (decode packet (encoding (self s))))
                Protocol.SERVERDATA_AUTH_RESPONSE) as [Hr|Hr];
    cbn [negb andb]; try tauto.
  - destruct (negb _); unfold with_connection, with_self;
      cbn [self connection]; rewrite self_settle_write;
      unfold remove_error, set_connection, set_error_listeners;
      cbn [connection data_listeners listens_data];
      apply listens_data_remove.
  - unfold with_connection, with_self; cbn [self connection];
      rewrite self_settle_write;
      unfold remove_error, set_connection, set_error_listeners;
      cbn [self connection data_listeners listens_data];
      apply listens_data_remove.
  - unfold with_connection, with_self; cbn [self connection];
      rewrite self_settle_write;
      unfold remove_error, set_connection, set_error_listeners;
      cbn [self connection data_listeners listens_data];
      apply listens_data_remove.
Qed.

(** The whole exchange for a command, on a session that is authenticated
    and idle: the caller of [execute] receives the decoded body of the
    first buffer that arrives, unchanged. *)
Lemma execute_response
    (r : spec_float) (command : string) (packet : list byte) (s : State) :
  authenticated (self s) = true ->
  writable (connection (self s)) = true ->
  q (self s) = mkQueue [] false ->
  data_listeners (connection (self s)) = [] ->
  microtasks s = [] ->
  fits encode Protocol.SERVERDATA_EXECCOMMAND (packetID r) command (self s)
    = true ->
  let p := fst (call_execute encode r command s) in
  let s1 := snd (call_execute encode r command s) in
  call_state p (deliver decode packet s1)
  = Fulfilled (str (Packet.body (decode packet (encoding (self s))))).
Proof.
  destruct s as [t cs ws ms]. projs.
  intros Hauth Hwr Hq Hdata -> Hfits.
  unfold call_execute, execute, new_call. heap. rewrite Hwr. projs.
  rewrite Hauth. projs.
  unfold q_push, q_start. heap. rewrite Hq. heap.
  unfold run_job. pair_out. rewrite write_then_spec. projs.
  change (fits encode Protocol.SERVERDATA_EXECCOMMAND (packetID r) command _)
    with (fits encode Protocol.SERVERDATA_EXECCOMMAND (packetID r) command t).
  rewrite Hfits. unfold run_microtasks. heap.
  unfold deliver, emit_data. heap. rewrite Hdata. heap.
  unfold onData. projs.
  change (Protocol.SERVERDATA_EXECCOMMAND =? Protocol.SERVERDATA_AUTH)
    with false.
  projs. rewrite replace_final_newline_same. cbn [String.append]. heap.
  unfold run_microtasks. heap. cbn [run_reaction]. heap.
  unfold call_state. heap. reflexivity.
Qed.

End SessionFacts.

(** ** The claims on concrete sessions *)

(** C1 at work: a new session, the password ["pw"], and a first buffer
    that is an AUTH_RESPONSE frame with id 7. *)
Lemma authenticate_first_delivery_witness :
  let s := new_SourceRCON no_options in
  let packet := byte_encode Protocol.SERVERDATA_AUTH_RESPONSE 7 "" "ascii" in
  let a := call_authenticate byte_encode 7 "pw" s in
  call_state (fst a) (deliver byte_decode packet (snd a)) = Fulfilled undefined
  /\ authenticated (self (deliver byte_decode packet (snd a))) = true.
Proof.
  cbv zeta.
  destruct (authenticate_first_delivery byte_encode byte_decode 7 "pw"
              (byte_encode Protocol.SERVERDATA_AUTH_RESPONSE 7 "" "ascii")
              (new_SourceRCON no_options) eq_refl eq_refl eq_refl eq_refl)
    as (_ & _ & Hiff & _ & Hok & _).
  assert (H : call_state
                (fst (call_authenticate byte_encode 7 "pw"
                        (new_SourceRCON no_options)))
                (deliver byte_decode
                   (byte_encode Protocol.SERVERDATA_AUTH_RESPONSE 7 "" "ascii")
                   (snd (call_authenticate byte_encode 7 "pw"
                           (new_SourceRCON no_options))))
              = Fulfilled undefined).
  { apply Hiff. split; [vm_compute; reflexivity | vm_compute; discriminate]. }
  split; [exact H | exact (Hok H)].
Defined.

(** C2 on the code: with [maximumPacketSize = 10], [write] of the 30-byte
    packet for ["averylongcommand"] rejects its promise with
    ['Packet too long'] and hands the packet to the socket all the same;
    [execute] of that command on the new session is rejected with
    ['Unable to authenticate'] and the packet is written as well. *)
Theorem write_too_long_still_writes (r : spec_float) :
  let s := new_SourceRCON (mkOptions None None (Some 10) None None) in
  let packet :=
    byte_encode Protocol.SERVERDATA_EXECCOMMAND 1 "averylongcommand" "ascii" in
  let w :=
    call_write byte_encode Protocol.SERVERDATA_EXECCOMMAND 1
      "averylongcommand" s in
  let x := call_execute byte_encode r "averylongcommand" s in
  maximumPacketSize (self s) = 10
  /\ length packet = 30%nat
  /\ write_state (fst w) (snd w) = Rejected (Error "Packet too long")
  /\ written (connection (self (snd w))) = [packet]
  /\ call_state (fst x) (snd x) = Rejected (Error "Unable to authenticate")
  /\ written (connection (self (snd x)))
     = [byte_encode Protocol.SERVERDATA_EXECCOMMAND (packetID r)
          "averylongcommand" "ascii"].
Proof.
  cbv zeta.
  split; [reflexivity|]. split; [vm_compute; reflexivity|].
  split; [vm_compute; reflexivity|]. split; [vm_compute; reflexivity|].
  destruct (execute_idle byte_encode r "averylongcommand"
              (new_SourceRCON (mkOptions None None (Some 10) None None))
              eq_refl eq_refl) as (Hw & _ & Hc).
  split; [exact Hc | exact Hw].
Qed.

(** C3 on the code: on a session that has just been constructed, so with
    [authenticated = false], [execute] rejects its promise with
    ['Unable to authenticate'], and still pushes the job, which the idle
    queue starts at once: the command packet is written. *)
Theorem execute_unauthenticated_still_writes
    (encode : Z -> Z -> string -> string -> list byte)
    (options : ClassOptions) (r : spec_float) (command : string) :
  let s := new_SourceRCON options in
  let x := call_execute encode r command s in
  authenticated (self s) = false
  /\ call_state (fst x) (snd x) = Rejected (Error "Unable to authenticate")
  /\ written (connection (self (snd x)))
     = [encode Protocol.SERVERDATA_EXECCOMMAND (packetID r) command
          (encoding (self s))]
  /\ q (self (snd x)) = mkQueue [] true.
Proof.
  cbv zeta.
  destruct (execute_idle encode r command (new_SourceRCON options)
              eq_refl eq_refl) as (Hw & Hq & Hc).
  split; [reflexivity|]. split; [exact Hc|]. split; [exact Hw | exact Hq].
Qed.

(** C4 on the code: [authenticate] on a new session, then a first buffer
    that is a RESPONSE_VALUE frame.  The handler fires, resolves the
    promise of the write with ['failed'] and returns at line 151: it is
    still registered for ['data'], and so is the error listener.  The next
    buffer reaches it again, and only then is it removed. *)
Theorem onData_early_return_keeps_listener (ID_AUTH : Z) :
  let s0 := new_SourceRCON no_options in
  let s1 := snd (call_authenticate byte_encode ID_AUTH "pw" s0) in
  let s2 :=
    deliver byte_decode
      (byte_encode Protocol.SERVERDATA_RESPONSE_VALUE 1 "" "ascii") s1 in
  let s3 :=
    deliver byte_decode
      (byte_encode Protocol.SERVERDATA_AUTH_RESPONSE 1 "" "ascii") s2 in
  write_state 0 s2 = Fulfilled (str "failed")
  /\ listens_data 0 (connection (self s2)) = true
  /\ data_listeners (connection (self s2))
     = [mkDataListener 0 Protocol.SERVERDATA_AUTH ""]
  /\ In (WriteOnError 0) (error_listeners (connection (self s2)))
  /\ data_listeners (connection (self s3)) = [].
Proof.
  vm_compute. repeat split. left. reflexivity.
Qed.

(** C6 on the code: after a successful handshake, [execute("status")] and
    a response whose decoded body is ["status\n"].  Line 160 replaces the
    final line feed by a line feed, so the caller receives ["status\n"],
    not ["status"]. *)
Theorem execute_keeps_final_newline (r : spec_float) :
  let nl := String newline EmptyString in
  let s0 := new_SourceRCON no_options in
  let s1 := snd (call_authenticate byte_encode 7 "pw" s0) in
  let s2 :=
    deliver byte_decode
      (byte_encode Protocol.SERVERDATA_AUTH_RESPONSE 7 "" "ascii") s1 in
  let x := call_execute byte_encode r "status" s2 in
  let response :=
    byte_encode Protocol.SERVERDATA_RESPONSE_VALUE (packetID r)
      ("status" ++ nl ++ nl) "ascii" in
  authenticated (self s2) = true
  /\ Packet.body (byte_decode response "ascii") = ("status" ++ nl)%string
  /\ call_state (fst x) (deliver byte_decode response (snd x))
     = Fulfilled (str ("status" ++ nl))
  /\ replace_final_newline ("status" ++ nl) "" = "status".
Proof.
  cbv zeta.
  assert (Hbody :
            Packet.body
              (byte_decode
                 (byte_encode Protocol.SERVERDATA_RESPONSE_VALUE (packetID r)
                    ("status" ++ String newline "" ++ String newline "")
                    "ascii") "ascii")
            = ("status" ++ String newline "")%string).
  { unfold byte_decode, Packet.decode. cbn [Packet.body].
    unfold byte_encode. rewrite encode_length. unfold Packet.encode.
    rewrite (app_assoc (Packet.writeInt32LE _)),
            (app_assoc (_ ++ _) (Packet.writeInt32LE _)).
    rewrite drop_app_length'
      by (unfold Packet.writeInt32LE;
          rewrite !length_app, !length_le_split; reflexivity).
    vm_compute. reflexivity. }
  split; [vm_compute; reflexivity|].
  split; [exact Hbody|].
  split; [|reflexivity].
  rewrite <- Hbody.
  apply (execute_response byte_encode byte_decode r "status");
    vm_compute; reflexivity.
Qed.

(** With the [decode] of the specification, which trims one line feed
    itself, a response frame whose body is ["status\n"] reaches the caller
    as ["status"]: the line feed is gone before line 160 runs. *)
Lemma execute_response_trimmed_by_decode (r : spec_float) :
  let nl := String newline EmptyString in
  let s0 := new_SourceRCON no_options in
  let s1 := snd (call_authenticate byte_encode 7 "pw" s0) in
  let s2 :=
    deliver byte_decode
      (byte_encode Protocol.SERVERDATA_AUTH_RESPONSE 7 "" "ascii") s1 in
  let x := call_execute byte_encode r "status" s2 in
  let response :=
    byte_encode Protocol.SERVERDATA_RESPONSE_VALUE 1 ("status" ++ nl) "ascii" in
  call_state (fst x) (deliver byte_decode response (snd x))
  = Fulfilled (str "status").
Proof.
  cbv zeta.
  rewrite (execute_response byte_encode byte_decode r "status")
    by (vm_compute; reflexivity).
  vm_compute. reflexivity.
Qed.

(** C7 on the code: a session authenticated by a first handshake; a
    second [authenticate] rejects its promise with
    ['Already authenticated'], and the AUTH packet goes to the socket a
    second time. *)
Theorem authenticate_twice_still_writes (ID_AUTH : Z) :
  let s0 := new_SourceRCON no_options in
  let s1 := snd (call_authenticate byte_encode ID_AUTH "pw" s0) in
  let s2 :=
    deliver byte_decode
      (byte_encode Protocol.SERVERDATA_AUTH_RESPONSE 1 "" "ascii") s1 in
  let a := call_authenticate byte_encode ID_AUTH "pw" s2 in
  authenticated (self s2) = true
  /\ call_state (fst a) (snd a) = Rejected (Error "Already authenticated")
  /\ written (connection (self s2))
     = [byte_encode Protocol.SERVERDATA_AUTH ID_AUTH "pw" "ascii"]
  /\ written (connection (self (snd a)))
     = [byte_encode Protocol.SERVERDATA_AUTH ID_AUTH "pw" "ascii";
        byte_encode Protocol.SERVERDATA_AUTH ID_AUTH "pw" "ascii"].
Proof.
  vm_compute. repeat split.
Qed.

(** C8 on the code: constructed with [maximumPacketSize: 0], the session
    holds 4096, and a [write] whose packet is 4097 bytes long is rejected
    with ['Packet too long']. *)
Theorem constructor_zero_keeps_size_check :
  let s := new_SourceRCON (mkOptions None None (Some 0) None None) in
  let body := repeat_char 4083 "a" in
  let w := call_write byte_encode Protocol.SERVERDATA_EXECCOMMAND 1 body s in
  maximumPacketSize (self s) = 4096
  /\ length (byte_encode Protocol.SERVERDATA_EXECCOMMAND 1 body "ascii")
     = 4097%nat
  /\ write_state (fst w) (snd w) = Rejected (Error "Packet too long").
Proof.
  vm_compute. repeat split.
Qed.

(** ** The request id of [execute]

    [packetID] is computed in binary64 arithmetic.  The lemmas below follow
    the rounding of [SpecFloat] (a right shift that keeps a round bit and a
    sticky bit, then rounding to nearest even) closely enough to bound the
    product and the sum of line 193. *)

Lemma digits2_pos_bounds (p : positive) :
  2 ^ (Zpos (digits2_pos p) - 1) <= Zpos p < 2 ^ Zpos (digits2_pos p).
Proof.
  induction p as [p IH|p IH|]; cbn [digits2_pos].
  - rewrite Pos2Z.inj_succ.
    replace (Z.succ (Zpos (digits2_pos p)) - 1)
      with (Z.succ (Zpos (digits2_pos p) - 1)) by lia.
    rewrite !Z.pow_succ_r by lia. lia.
  - rewrite Pos2Z.inj_succ.
    replace (Z.succ (Zpos (digits2_pos p)) - 1)
      with (Z.succ (Zpos (digits2_pos p) - 1)) by lia.
    rewrite !Z.pow_succ_r by lia. lia.
  - simpl. lia.
Qed.

Lemma shr_inv_init (N : Z) : shr_inv N 0 (Build_shr_record N false false).
Proof.
  unfold shr_inv. cbn [shr_m shr_r shr_s].
  rewrite Z.pow_0_r, Z.div_1_r, Z.mod_1_r. repeat split.
Qed.

Lemma shr_inv_step (N k : Z) (mrs : shr_record) :
  0 <= N -> 0 <= k -> shr_inv N k mrs -> shr_inv N (k + 1) (shr_1 mrs).
Proof.
  intros HN Hk (Hm & Hr & Hs).
  destruct mrs as [m r s]. cbn [shr_m shr_r shr_s] in *.
  assert (HP : 0 < 2 ^ k) by (apply Z.pow_pos_nonneg; lia).
  unfold shr_inv. rewrite Z.pow_add_r, Z.pow_1_r by lia.
  set (P := 2 ^ k) in *.
  pose proof (Z.div_mod N P ltac:(lia)) as HDM.
  pose proof (Z.mod_pos_bound N P HP) as HR.
  set (R := N mod P) in *. rewrite <- Hm in HDM.
  assert (Hm0 : 0 <= m).
  { rewrite Hm. apply Z.div_pos; lia. }
  assert (Hsr : orb r s = negb (R =? 0)).
  { rewrite Hr, Hs.
    destruct (Z.eqb_spec R 0), (Z.eqb_spec (2 * R) P), (Z.leb_spec P (2 * R));
      cbn; try reflexivity; lia. }
  pose proof (Z.div_mod m 2 ltac:(lia)) as HDM2.
  pose proof (Z.mod_pos_bound m 2 ltac:(lia)) as HR2.
  assert (Hq : N / (P * 2) = m / 2).
  { symmetry. apply (Z.div_unique N (P * 2) (m / 2) ((m mod 2) * P + R)); nia. }
  assert (Hrem : N mod (P * 2) = (m mod 2) * P + R).
  { symmetry. apply (Z.mod_unique N (P * 2) (m / 2) ((m mod 2) * P + R)); nia. }
  rewrite Hq, Hrem.
  assert (Hcases :
            (m mod 2 = 0
             /\ shr_1 (Build_shr_record m r s)
                = Build_shr_record (m / 2) false (orb r s))
            \/ (m mod 2 = 1
                /\ shr_1 (Build_shr_record m r s)
                   = Build_shr_record (m / 2) true (orb r s))).
  { destruct m as [|[p|p|]|p]; try lia.
    - left. split; reflexivity.
    - right. split.
      { rewrite Pos2Z.inj_xI. symmetry.
        apply (Z.mod_unique _ 2 (Zpos p)); lia. }
      cbn [shr_1]. f_equal.
      rewrite Pos2Z.inj_xI. apply (Z.div_unique _ 2 (Zpos p) 1); lia.
    - left. split.
      { rewrite Pos2Z.inj_xO. symmetry.
        apply (Z.mod_unique _ 2 (Zpos p)); lia. }
      cbn [shr_1]. f_equal.
      rewrite Pos2Z.inj_xO. apply (Z.div_unique _ 2 (Zpos p) 0); lia.
    - right. split; reflexivity. }
  destruct Hcases as [[Hmod ->]|[Hmod ->]]; cbn [shr_m shr_r shr_s]; rewrite Hmod, Hsr.
  - repeat split.
    + destruct (Z.leb_spec (P * 2) (2 * (0 * P + R))); [lia|reflexivity].
    + destruct (Z.eqb_spec R 0), (Z.eqb_spec (0 * P + R) 0),
        (Z.eqb_spec (2 * (0 * P + R)) (P * 2)); cbn; try reflexivity; lia.
  - repeat split.
    + destruct (Z.leb_spec (P * 2) (2 * (1 * P + R))); [reflexivity|lia].
    + destruct (Z.eqb_spec R 0), (Z.eqb_spec (1 * P + R) 0),
        (Z.eqb_spec (2 * (1 * P + R)) (P * 2)); cbn; try reflexivity; lia.
Qed.

Lemma iter_pos_inv {A : Type} (f : A -> A) (I : Z -> A -> Prop) :
  (forall k x, 0 <= k -> I k x -> I (k + 1) (f x)) ->
  forall (p : positive) (k : Z) (x : A),
    0 <= k -> I k x -> I (k + Zpos p) (SpecFloat.iter_pos f p x).
Proof.
  intros Hstep. induction p as [p IH|p IH|]; intros k x Hk Hx; cbn [SpecFloat.iter_pos].
  - replace (k + Zpos p~1) with (k + 1 + Zpos p + Zpos p) by lia.
    apply IH; [lia|]. apply IH; [lia|]. now apply Hstep.
  - replace (k + Zpos p~0) with (k + Zpos p + Zpos p) by lia.
    apply IH; [lia|]. now apply IH.
  - now apply Hstep.
Qed.

Lemma shr_inv_iter (N : Z) (p : positive) :
  0 <= N ->
  shr_inv N (Zpos p) (SpecFloat.iter_pos shr_1 p (Build_shr_record N false false)).
Proof.
  intros HN.
  apply (iter_pos_inv shr_1 (shr_inv N)
           (fun k x Hk => shr_inv_step N k x HN Hk) p 0 _ ltac:(lia)).
  apply shr_inv_init.
Qed.

Lemma shr_spec (N E n : Z) :
  0 <= N -> 0 <= n ->
  exists mrs, shr (Build_shr_record N false false) E n = (mrs, E + n)
              /\ shr_inv N n mrs.
Proof.
  intros HN Hn. destruct n as [|p|p]; [| |lia].
  - exists (Build_shr_record N false false). split.
    + cbn [shr]. f_equal. lia.
    + apply shr_inv_init.
  - exists (SpecFloat.iter_pos shr_1 p (Build_shr_record N false false)). split.
    + reflexivity.
    + now apply shr_inv_iter.
Qed.

Lemma rne_bounds (N n : Z) (mrs : shr_record) :
  0 <= N -> 0 <= n -> shr_inv N n mrs ->
  N / 2 ^ n <= round_nearest_even (shr_m mrs) (loc_of_shr_record mrs) <= N / 2 ^ n + 1
  /\ (2 * (N mod 2 ^ n) < 2 ^ n ->
      round_nearest_even (shr_m mrs) (loc_of_shr_record mrs) = N / 2 ^ n).
Proof.
  intros HN Hn (Hm & Hr & Hs). destruct mrs as [m r s].
  cbn [shr_m shr_r shr_s] in *. rewrite <- Hm.
  destruct r, s; cbn [loc_of_shr_record round_nearest_even].
  - split; [lia|]. intros H. symmetry in Hr.
    apply Z.leb_le in Hr. lia.
  - split; [destruct (Z.even m); lia|]. intros H. symmetry in Hr.
    apply Z.leb_le in Hr. lia.
  - split; [lia|reflexivity].
  - split; [lia|reflexivity].
Qed.

Lemma fexp_eq (x : Z) : fexp prec emax x = Z.max (x - 53) (-1074).
Proof. reflexivity. Qed.

Lemma Zdigits2_bounds (m : Z) :
  0 < m -> 2 ^ (Zdigits2 m - 1) <= m < 2 ^ Zdigits2 m.
Proof.
  destruct m as [|p|p]; try lia. intros _. apply digits2_pos_bounds.
Qed.

Lemma Zdigits2_pos (m : Z) : 0 < m -> 0 < Zdigits2 m.
Proof. destruct m as [|p|p]; try lia. intros _. reflexivity. Qed.

(** Rounding of the exact positive value [M * 2 ^ E]. *)
Lemma binary_round_aux_exact (M : positive) (E : Z) :
  let d := Zpos (digits2_pos M) in
  let e1 := fexp prec emax (d + E) in
  let n := e1 - E in
  0 <= n ->
  e1 + 1 <= emax - prec ->
  0 < Zpos M / 2 ^ n ->
  exists (m3 : positive) (e3 m2 : Z),
    binary_round_aux prec emax false (Zpos M) E loc_Exact = S754_finite false m3 e3
    /\ e1 <= e3 <= e1 + 1
    /\ Zpos m3 * 2 ^ (e3 - e1) = m2
    /\ m2 <= 2 ^ (d - n)
    /\ Zpos M / 2 ^ n <= m2 <= Zpos M / 2 ^ n + 1
    /\ (2 * (Zpos M mod 2 ^ n) < 2 ^ n -> m2 = Zpos M / 2 ^ n).
Proof.
  intros d e1 n Hn Hover Hpos.
  assert (He1 : e1 = Z.max (d + E - 53) (-1074)) by reflexivity.
  assert (Hnn : n = e1 - E) by reflexivity.
  assert (Hemax : emax - prec = 971) by reflexivity.
  unfold binary_round_aux, shr_fexp.
  change (Zdigits2 (Zpos M)) with d. fold e1. fold n.
  change (shr_record_of_loc (Zpos M) loc_Exact)
    with (Build_shr_record (Zpos M) false false).
  destruct (shr_spec (Zpos M) E n ltac:(lia) Hn) as (mrs & -> & Hinv).
  replace (E + n) with e1 by lia.
  destruct (rne_bounds (Zpos M) n mrs ltac:(lia) Hn Hinv) as (Hb & Hlow).
  set (m2 := round_nearest_even (shr_m mrs) (loc_of_shr_record mrs)) in *.
  set (m1 := Zpos M / 2 ^ n) in *.
  assert (Hm2 : 0 < m2) by lia.
  (* digits *)
  pose proof (digits2_pos_bounds M) as HdM. fold d in HdM.
  assert (Hpn : 0 < 2 ^ n) by (apply Z.pow_pos_nonneg; lia).
  assert (Hdn : n < d).
  { destruct (Z.lt_ge_cases n d) as [|Hge]; [assumption|].
    assert (2 ^ d <= 2 ^ n) by (apply Z.pow_le_mono_r; lia).
    assert (m1 = 0) by (apply Z.div_small; lia). lia. }
  set (w := d - n).
  assert (Hw : 1 <= w <= 53).
  { unfold w. lia. }
  assert (Hm1w : m1 < 2 ^ w).
  { unfold m1. apply Z.div_lt_upper_bound; [lia|].
    rewrite <- Z.pow_add_r by lia. replace (n + w) with d by (unfold w; lia). lia. }
  change (shr_record_of_loc m2 loc_Exact) with (Build_shr_record m2 false false).
  pose proof (Zdigits2_bounds m2 Hm2) as Hd2.
  pose proof (Zdigits2_pos m2 Hm2) as Hd2pos.
  set (d2 := Zdigits2 m2) in *.
  set (n2 := fexp prec emax (d2 + e1) - e1).
  assert (Hcase : (n2 <= 0) \/ (n2 = 1 /\ m2 = 2 ^ w)).
  { destruct (Z.eq_dec m2 (2 ^ w)) as [Heq|Hne].
    - assert (d2 = w + 1).
      { destruct Hd2 as [Hlo Hhi]. rewrite Heq in Hlo, Hhi.
        apply Z.pow_le_mono_r_iff in Hlo; [|lia|lia].
        apply Z.pow_lt_mono_r_iff in Hhi; [|lia|lia]. lia. }
      unfold n2. rewrite fexp_eq. unfold w in *. lia.
    - left. assert (m2 < 2 ^ w) by lia.
      assert (d2 <= w).
      { destruct Hd2 as [Hlo Hhi].
        assert (2 ^ (d2 - 1) < 2 ^ w) by lia.
        apply Z.pow_lt_mono_r_iff in H0; [|lia|lia]. lia. }
      unfold n2. rewrite fexp_eq. unfold w in *. lia. }
  destruct Hcase as [Hn2|[Hn2 Hm2w]].
  - (* no second shift *)
    assert (Hshr : shr (Build_shr_record m2 false false) e1 n2
                   = (Build_shr_record m2 false false, e1)).
    { destruct n2; try reflexivity. lia. }
    rewrite Hshr. cbn [shr_m].
    destruct m2 as [|p2|p2]; try lia.
    replace (e1 <=? emax - prec) with true by (symmetry; apply Z.leb_le; lia).
    exists p2, e1, (Zpos p2).
    repeat split; try lia; try exact Hlow;
      rewrite Z.sub_diag, Z.pow_0_r; lia.
  - (* the mantissa has become a power of two *)
    rewrite Hn2. cbn [shr SpecFloat.iter_pos].
    assert (Heven : m2 = 2 * 2 ^ (w - 1)).
    { rewrite Hm2w. replace w with (Z.succ (w - 1)) at 1 by lia.
      rewrite Z.pow_succ_r by lia. reflexivity. }
    assert (Hhalf : 0 < 2 ^ (w - 1)) by (apply Z.pow_pos_nonneg; lia).
    assert (Hs1 : shr_m (shr_1 (Build_shr_record m2 false false)) = 2 ^ (w - 1)).
    { rewrite Heven. destruct (2 ^ (w - 1)) as [|q|q]; try lia. reflexivity. }
    rewrite Hs1.
    destruct (2 ^ (w - 1)) as [|q|q] eqn:Eq; try lia.
    replace (e1 + 1 <=? emax - prec) with true by (symmetry; apply Z.leb_le; lia).
    exists q, (e1 + 1), m2.
    repeat split; try lia; try exact Hlow;
      replace (e1 + 1 - e1) with 1 by lia; rewrite Z.pow_1_r; lia.
Qed.

Lemma number_one : number_of_Z 1 = S754_finite false 4503599627370496 (-52).
Proof. vm_compute. reflexivity. Qed.

Lemma number_255 :
  number_sub (number_of_Z 256) (number_of_Z 1)
  = S754_finite false 8972014882652160 (-45).
Proof. vm_compute. reflexivity. Qed.

Lemma pow2_digits_le (p : positive) (k : Z) :
  0 <= k -> Zpos p < 2 ^ k -> Zpos (digits2_pos p) <= k.
Proof.
  intros Hk Hlt. pose proof (digits2_pos_bounds p) as [Hlo _].
  assert (H : 2 ^ (Zpos (digits2_pos p) - 1) < 2 ^ k) by lia.
  apply Z.pow_lt_mono_r_iff in H; lia.
Qed.

Lemma pow2_digits_ge (p : positive) (k : Z) :
  0 <= k -> 2 ^ k <= Zpos p -> k + 1 <= Zpos (digits2_pos p).
Proof.
  intros Hk Hle. pose proof (digits2_pos_bounds p) as [_ Hhi].
  assert (H : 2 ^ k < 2 ^ Zpos (digits2_pos p)) by lia.
  apply Z.pow_lt_mono_r_iff in H; lia.
Qed.

(** The draws: a zero, or a positive number below one. *)
Lemma random_draw_cases (r : spec_float) :
  random_draw r = true ->
  (exists s, r = S754_zero s)
  \/ (exists m e, r = S754_finite false m e
                  /\ - 1074 <= e <= - 53
                  /\ Zpos m < 2 ^ 53).
Proof.
  unfold random_draw. rewrite number_one. intros H.
  apply andb_prop in H as [H Hlt]. apply andb_prop in H as [Hvalid Hle].
  destruct r as [s|s| |s m e].
  - left. now exists s.
  - destruct s; discriminate.
  - discriminate.
  - right. destruct s; [discriminate|]. exists m, e. split; [reflexivity|].
    cbn [valid_binary] in Hvalid. unfold bounded, canonical_mantissa in Hvalid.
    apply andb_prop in Hvalid as [Hcanon _]. apply Z.eqb_eq in Hcanon.
    rewrite fexp_eq in Hcanon.
    pose proof (digits2_pos_bounds m) as [Hlo Hhi].
    set (d := Zpos (digits2_pos m)) in *.
    assert (Hd : d <= 53) by lia.
    assert (Hm : Zpos m < 2 ^ 53).
    { apply Z.lt_le_trans with (2 ^ d); [exact Hhi|].
      apply Z.pow_le_mono_r; lia. }
    split; [|exact Hm].
    unfold SFltb in Hlt. cbn [SFcompare] in Hlt.
    clearbody d.
    destruct (Z.compare_spec e (-52)) as [He|He|He]; try discriminate;
      [|clear - Hcanon He; lia].
    (* e = -52: the mantissa would be below 2^52 *)
    subst e. assert (Hd53 : d = 53) by (clear - Hcanon; lia). subst d.
    destruct (Pos.compare_cont Eq m 4503599627370496) eqn:Hc; try discriminate.
    pose proof (Pos2Z.pos_lt_pos _ _
                  (proj1 (Pos.compare_lt_iff m 4503599627370496) Hc)) as Hc'.
    change (2 ^ (53 - 1)) with 4503599627370496 in Hlo.
    clear - Hlo Hc'. lia.
Qed.

Lemma packetID_zero (s : bool) : packetID (S754_zero s) = 1.
Proof. destruct s; vm_compute; reflexivity. Qed.

Lemma pow2_split (a b : Z) : 0 <= a -> 0 <= b -> 2 ^ (a + b) = 2 ^ a * 2 ^ b.
Proof. intros. apply Z.pow_add_r; assumption. Qed.

Lemma pow2_pos (a : Z) : 0 <= a -> 0 < 2 ^ a.
Proof. intros. apply Z.pow_pos_nonneg; lia. Qed.

(** The product [r * 255] of a positive draw: a positive number, at most
    [255 - 2 ^ (-45)]. *)
Lemma product_bound (m : positive) (e : Z) :
  - 1074 <= e <= - 53 -> Zpos m < 2 ^ 53 ->
  exists (mp : positive) (ep : Z),
    number_mul (S754_finite false m e)
      (S754_finite false 8972014882652160 (-45))
    = S754_finite false mp ep
    /\ - 1074 <= ep <= - 44
    /\ Zpos mp * 2 ^ (ep + 1074) <= (255 * 2 ^ 45 - 1) * 2 ^ 1029.
Proof.
  intros He Hm.
  unfold number_mul, SFmul. cbn [xorb].
  set (M := (m * 8972014882652160)%positive).
  set (E := e + -45).
  assert (HM : Zpos M = Zpos m * 8972014882652160) by apply Pos2Z.inj_mul.
  assert (HE : E = e - 45) by (unfold E; lia).
  clearbody M E.
  pose proof (digits2_pos_bounds M) as HdM.
  pose proof (binary_round_aux_exact M E) as Hround. cbv zeta in Hround.
  change (2 ^ 53) with 9007199254740992 in Hm.
  assert (Hd53 : 53 <= Zpos (digits2_pos M)).
  { apply (pow2_digits_ge M 52); [lia|].
    change (2 ^ 52) with 4503599627370496. lia. }
  assert (Hd8 : Zpos (digits2_pos M) <= 8 - E).
  { apply pow2_digits_le; [lia|].
    replace (8 - E) with (53 + (- e)) by lia.
    rewrite pow2_split by lia.
    assert (2 ^ 53 <= 2 ^ (- e)) by (apply Z.pow_le_mono_r; lia).
    change (2 ^ 53) with 9007199254740992 in *. nia. }
  rewrite fexp_eq in Hround.
  set (d := Zpos (digits2_pos M)) in *.
  set (e1 := Z.max (d + E - 53) (-1074)) in *.
  assert (He1 : e1 = Z.max (d + E - 53) (-1074)) by reflexivity.
  clearbody e1. clearbody d.
  set (n := e1 - E) in *.
  assert (Hn : n = e1 - E) by reflexivity. clearbody n.
  assert (Hemax : emax - prec = 971) by reflexivity.
  assert (Hdiv : 0 < Zpos M / 2 ^ n).
  { apply Z.div_str_pos. split; [apply pow2_pos; lia|].
    apply Z.le_trans with (2 ^ (d - 1)); [|lia].
    apply Z.pow_le_mono_r; lia. }
  destruct (Hround ltac:(lia) ltac:(lia) Hdiv)
    as (m3 & e3 & m2 & Heq & He3 & Hval & Hm2w & Hb & Hlow).
  exists m3, e3. split; [exact Heq|]. split; [lia|].
  replace (e3 + 1074) with ((e3 - e1) + (e1 + 1074)) by lia.
  rewrite pow2_split by lia. rewrite Z.mul_assoc, Hval.
  destruct (Z.eq_dec e1 (-45)) as [Htop|Hlowb].
  - (* the product lies in [128, 256) *)
    replace (e1 + 1074) with 1029 by lia.
    apply Z.mul_le_mono_nonneg_r; [apply Z.lt_le_incl, pow2_pos; lia|].
    assert (Hee : e = -53).
    { assert (Hlt : 2 ^ (d - 1) < 2 ^ 106).
      { apply Z.le_lt_trans with (Zpos M); [lia|].
        rewrite HM. change (2 ^ 106) with (9007199254740992 * 9007199254740992).
        nia. }
      apply Z.pow_lt_mono_r_iff in Hlt; lia. }
    assert (Hn53 : n = 53) by lia.
    rewrite Hn53 in *. change (2 ^ 53) with 9007199254740992 in *.
    change (255 * 2 ^ 45 - 1) with 8972014882652159.
    destruct (Z.eq_dec (Zpos m) 9007199254740991) as [Hmax|Hnmax].
    + rewrite HM, Hmax in Hlow, Hb.
      rewrite Hlow by (vm_compute; reflexivity).
      vm_compute. discriminate.
    + assert (Zpos M / 9007199254740992 < 8972014882652159).
      { apply Z.div_lt_upper_bound; lia. }
      lia.
  - (* the product is below 128 *)
    assert (Hde : d + E <= 7) by lia.
    apply Z.le_trans with (2 ^ (d - n) * 2 ^ (e1 + 1074)).
    + apply Z.mul_le_mono_nonneg_r; [apply Z.lt_le_incl, pow2_pos; lia|lia].
    + rewrite <- pow2_split by lia.
      apply Z.le_trans with (2 ^ (52 + 1029)).
      * apply Z.pow_le_mono_r; lia.
      * rewrite pow2_split by lia.
        apply Z.mul_le_mono_nonneg_r; [apply Z.lt_le_incl, pow2_pos; lia|].
        vm_compute. discriminate.
Qed.

Lemma iter_xO_pow2 (m d : positive) :
  Zpos (Pos.iter xO m d) = Zpos m * 2 ^ Zpos d.
Proof.
  induction d as [|d IH] using Pos.peano_ind.
  - cbn [Pos.iter]. rewrite Pos2Z.inj_xO, Z.pow_1_r. lia.
  - rewrite Pos.iter_succ, Pos2Z.inj_xO, IH, Pos2Z.inj_succ.
    rewrite Z.pow_succ_r by lia. lia.
Qed.

Lemma shl_align_value (m : positive) (e e' : Z) :
  e' <= e -> Zpos (fst (shl_align m e e')) = Zpos m * 2 ^ (e - e').
Proof.
  intros Hle. unfold shl_align.
  destruct (e' - e) as [|p|p] eqn:Hd; cbn [fst].
  - replace (e - e') with 0 by lia. rewrite Z.pow_0_r. lia.
  - lia.
  - rewrite iter_xO_pow2. f_equal. f_equal. lia.
Qed.

Lemma shl_align_same (m : positive) (e e' : Z) :
  e <= e' -> shl_align m e e' = (m, e).
Proof.
  intros Hle. unfold shl_align.
  destruct (e' - e) as [|p|p] eqn:Hd; try reflexivity. lia.
Qed.

(** [x + 1] for a positive number [x <= 255 - 2 ^ (-45)]: its floor is
    between 1 and 255. *)
Lemma sum_floor_bound (mp : positive) (ep : Z) :
  - 1074 <= ep <= - 44 ->
  Zpos mp * 2 ^ (ep + 1074) <= (255 * 2 ^ 45 - 1) * 2 ^ 1029 ->
  1 <= Math_floor
         (number_add (S754_finite false mp ep)
            (S754_finite false 4503599627370496 (-52))) <= 255.
Proof.
  intros Hep Hval.
  unfold number_add, SFadd. cbn [cond_Zopp].
  set (ez := Z.min ep (-52)).
  assert (Hez : ez = Z.min ep (-52)) by reflexivity. clearbody ez.
  pose proof (shl_align_value mp ep ez ltac:(lia)) as Ha.
  pose proof (shl_align_value 4503599627370496 (-52) ez ltac:(lia)) as Hb.
  set (a := fst (shl_align mp ep ez)) in *.
  set (b := fst (shl_align 4503599627370496 (-52) ez)) in *.
  clearbody a b.
  change (Zpos a + Zpos b) with (Zpos (a + b)).
  cbn [binary_normalize]. unfold binary_round.
  set (M := (a + b)%positive).
  assert (HM : Zpos M = Zpos mp * 2 ^ (ep - ez) + 2 ^ (- ez)).
  { unfold M. rewrite Pos2Z.inj_add, Ha, Hb.
    replace (- ez) with (52 + (-52 - ez)) by lia.
    rewrite (pow2_split 52) by lia. reflexivity. }
  clearbody M. clear Ha Hb a b.
  pose proof (digits2_pos_bounds M) as HdM.
  assert (HB : 2 ^ 52 <= 2 ^ (- ez)) by (apply Z.pow_le_mono_r; lia).
  assert (HA : 0 <= Zpos mp * 2 ^ (ep - ez)).
  { apply Z.mul_nonneg_nonneg; [lia|]. apply Z.lt_le_incl, pow2_pos. lia. }
  assert (Hdlo : 1 - ez <= Zpos (digits2_pos M)).
  { pose proof (pow2_digits_ge M (- ez) ltac:(lia) ltac:(lia)). lia. }
  (* the exact sum, scaled by 2 ^ (ez + 1074) *)
  assert (Hscaled : Zpos M * 2 ^ (ez + 1074) <= (2 ^ 53 - 1) * 2 ^ 1029).
  { rewrite HM, Z.mul_add_distr_r, <- Z.mul_assoc, <- !pow2_split by lia.
    replace (ep - ez + (ez + 1074)) with (ep + 1074) by lia.
    replace (- ez + (ez + 1074)) with (45 + 1029) by lia.
    rewrite (pow2_split 45) by lia.
    pose proof (pow2_pos 1029 ltac:(lia)) as HT.
    set (T := 2 ^ 1029) in *. clearbody T.
    change (2 ^ 53) with 9007199254740992.
    change (2 ^ 45) with 35184372088832 in *. lia. }
  assert (Hdhi : Zpos (digits2_pos M) <= 8 - ez).
  { apply pow2_digits_le; [lia|].
    apply Z.mul_lt_mono_pos_r with (2 ^ (ez + 1074)); [apply pow2_pos; lia|].
    rewrite <- pow2_split by lia.
    replace (8 - ez + (ez + 1074)) with (53 + 1029) by lia.
    rewrite (pow2_split 53) by lia.
    pose proof (pow2_pos 1029 ltac:(lia)) as HT.
    set (T := 2 ^ 1029) in *. clearbody T.
    change (2 ^ 53) with 9007199254740992 in *. lia. }
  set (d := Zpos (digits2_pos M)) in *.
  rewrite fexp_eq.
  assert (He1v : Z.max (d + ez - 53) (-1074) = d + ez - 53) by lia.
  rewrite He1v.
  rewrite (shl_align_same M ez (d + ez - 53)) by lia.
  pose proof (binary_round_aux_exact M ez) as Hround. cbv zeta in Hround.
  fold d in Hround. rewrite fexp_eq, He1v in Hround.
  set (e1 := d + ez - 53) in *.
  assert (He1 : e1 = d + ez - 53) by reflexivity.
  clearbody e1. clearbody d.
  set (n := e1 - ez) in *.
  assert (Hn : n = e1 - ez) by reflexivity. clearbody n.
  assert (Hemax : emax - prec = 971) by reflexivity.
  assert (H2n : 0 < 2 ^ n) by (apply pow2_pos; lia).
  assert (Hdiv : 0 < Zpos M / 2 ^ n).
  { apply Z.div_str_pos. split; [assumption|].
    apply Z.le_trans with (2 ^ (d - 1)); [|lia].
    apply Z.pow_le_mono_r; lia. }
  destruct (Hround ltac:(lia) ltac:(lia) Hdiv)
    as (m3 & e3 & m2 & Heq & He3 & Hm3 & Hm2w & Hbnd & Hlow).
  rewrite Heq. cbn [Math_floor cond_Zopp].
  rewrite Z.shiftl_div_pow2 by lia.
  assert (H2e3 : 0 < 2 ^ (- e3)) by (apply pow2_pos; lia).
  assert (H2d : 0 < 2 ^ (e3 - e1)) by (apply pow2_pos; lia).
  assert (H2e1 : 2 ^ (- e1) = 2 ^ (e3 - e1) * 2 ^ (- e3)).
  { rewrite <- pow2_split by lia. f_equal. lia. }
  (* below *)
  assert (Hm1lo : 2 ^ (- e1) <= Zpos M / 2 ^ n).
  { apply Z.div_le_lower_bound; [assumption|].
    rewrite <- pow2_split by lia.
    replace (n + - e1) with (- ez) by lia. lia. }
  assert (Hm3lo : 2 ^ (- e3) <= Zpos m3).
  { apply Z.mul_le_mono_pos_l with (2 ^ (e3 - e1)); [assumption|].
    rewrite <- H2e1. lia. }
  (* above *)
  assert (Hm2hi : m2 < 2 ^ (8 - e1)).
  { destruct (Z.eq_dec e1 (-45)) as [Htop|Hlowb].
    - replace (8 - e1) with 53 by lia.
      replace (d - n) with 53 in Hm2w by lia.
      assert (HMle : Zpos M <= (2 ^ 53 - 1) * 2 ^ n).
      { apply Z.mul_le_mono_pos_r with (2 ^ (ez + 1074)); [apply pow2_pos; lia|].
        rewrite <- Z.mul_assoc, <- pow2_split by lia.
        replace (n + (ez + 1074)) with 1029 by lia. exact Hscaled. }
      pose proof (Z.div_mod (Zpos M) (2 ^ n) ltac:(lia)) as Hdm.
      pose proof (Z.mod_pos_bound (Zpos M) (2 ^ n) H2n) as Hmod.
      set (m1 := Zpos M / 2 ^ n) in *.
      set (rem := Zpos M mod 2 ^ n) in *.
      set (P := 2 ^ n) in *.
      change (2 ^ 53) with 9007199254740992 in *.
      clearbody m1 rem P.
      assert (m1 <= 9007199254740991) by nia.
      destruct (Z.eq_dec m1 9007199254740991) as [E1|E1].
      + assert (rem = 0) by nia. rewrite Hlow by lia. lia.
      + lia.
    - apply Z.le_lt_trans with (2 ^ (d - n)); [lia|].
      apply Z.pow_lt_mono_r; lia. }
  assert (Hm3hi : Zpos m3 < 2 ^ (- e3) * 256).
  { apply Z.mul_lt_mono_pos_l with (2 ^ (e3 - e1)); [assumption|].
    rewrite (Z.mul_comm (2 ^ (e3 - e1)) (Zpos m3)), Hm3, Z.mul_assoc, <- H2e1.
    replace (8 - e1) with (- e1 + 8) in Hm2hi by lia.
    rewrite pow2_split in Hm2hi by lia.
    change (2 ^ 8) with 256 in Hm2hi. lia. }
  split.
  - apply Z.div_le_lower_bound; lia.
  - assert (Zpos m3 / 2 ^ (- e3) < 256)
      by (apply Z.div_lt_upper_bound; lia).
    lia.
Qed.

(** C9: for every number that [Math.random()] may return, a binary64
    value [r] with [0 <= r < 1], the request id
    [Math.floor(r * (256 - 1) + 1)] is an integer between 1 and 255. *)
Theorem packetID_range (r : spec_float) :
  random_draw r = true -> 1 <= packetID r <= 255.
Proof.
  intros Hr. destruct (random_draw_cases r Hr) as [[s ->]|(m & e & -> & He & Hm)].
  - rewrite packetID_zero. lia.
  - unfold packetID. rewrite number_255, number_one.
    destruct (product_bound m e He Hm) as (mp & ep & -> & Hep & Hval).
    now apply sum_floor_bound.
Qed.

(** C9 at the largest draw, [1 - 2 ^ (-53)]. *)
Lemma packetID_range_witness :
  1 <= packetID (S754_finite false 9007199254740991 (-53)) <= 255.
Proof.
  apply packetID_range. vm_compute. reflexivity.
Defined.

(** ** What every operation is made of *)

Lemma ev_silent (a : State) (x : list (list byte)) (b c : State) :
  evolves a x b -> evolves b [] c -> evolves a x c.
Proof.
  intros H1 H2. rewrite <- (app_nil_r x). now apply ev_trans with b.
Qed.

Lemma ev_fold {A : Type} (f : State -> A -> State) (l : list A) :
  (forall s x, evolves s [] (f s x)) ->
  forall s, evolves s [] (fold_left f l s).
Proof.
  intros Hf. induction l as [|x l IH]; intros s; cbn [fold_left].
  - apply ev_refl.
  - apply (ev_trans s [] (f s x) []); [apply Hf | apply IH].
Qed.

(** One step from the outside of a state expression. *)
Ltac evo_step :=
  lazymatch goal with
  | |- evolves _ _ (if ?c then _ else _) => destruct c
  | |- evolves _ _ (match ?c with _ => _ end) => destruct c
  | |- evolves ?s [] ?s => apply ev_refl
  | |- evolves _ [] (with_connection (socket_write _) _) => fail
  | |- evolves _ [] (with_connection _ _) =>
      eapply ev_silent; [|constructor]
  | |- evolves _ [] (with_self _ _) => eapply ev_silent; [|constructor]
  | |- evolves _ [] (set_calls _ _) => eapply ev_silent; [|apply ev_new_call]
  | |- evolves _ [] (set_writes _ _) => eapply ev_silent; [|apply ev_new_write]
  | |- evolves _ [] (settle_call _ _ _) => eapply ev_silent; [|constructor]
  | |- evolves _ [] (settle_write _ _ _) => eapply ev_silent; [|constructor]
  | |- evolves _ [] (then_ _ _ _) => eapply ev_silent; [|constructor]
  | |- evolves _ [] (set_microtasks _ _) => eapply ev_silent; [|constructor]
  end.

Ltac evo := repeat evo_step.

Lemma evolves_disconnect (s : State) : evolves s [] (snd (disconnect s)).
Proof.
  unfold disconnect, new_call. cbv beta iota zeta. cbn [snd]. evo.
Qed.

Lemma evolves_disconnect_onClose (p : nat) (s : State) :
  evolves s [] (disconnect_onClose p s).
Proof. unfold disconnect_onClose. cbv zeta. evo. Qed.

Lemma evolves_disconnect_onError (p : nat) (e : error) (s : State) :
  evolves s [] (disconnect_onError p e s).
Proof. unfold disconnect_onError. cbv zeta. evo. Qed.

Lemma evolves_emit_close (s : State) : evolves s [] (emit_close s).
Proof.
  unfold emit_close. apply ev_fold. intros s' [p]. cbv zeta.
  eapply ev_silent; [|apply evolves_disconnect_onClose]. evo.
Qed.

Section Evolution.
Variable encode : Z -> Z -> string -> string -> list byte.
Variable decode : list byte -> string -> Packet.DecodedPacket.
Variable ID_AUTH : Z.

Lemma evolves_onData (l : DataListener) (packet : list byte) (s : State) :
  evolves s [] (onData decode l packet s).
Proof. unfold onData. cbv zeta. evo. Qed.

Lemma evolves_onError (p : nat) (e : error) (s : State) :
  evolves s [] (onError p e s).
Proof. unfold onError. cbv zeta. evo. Qed.

Lemma evolves_write (type id : Z) (body : string) (s : State) :
  evolves s [encode type id body (encoding (self s))]
    (snd (write encode type id body s)).
Proof.
  unfold write, new_write. cbv beta iota zeta. cbn [snd].
  eapply (ev_trans s [] _ [_]); [|apply ev_socket_write]. evo.
Qed.

Lemma evolves_write_then (type id : Z) (body : string) (k : reaction) (s : State) :
  evolves s [encode type id body (encoding (self s))]
    (then_ (fst (write encode type id body s)) k
       (snd (write encode type id body s))).
Proof.
  eapply ev_silent; [apply evolves_write | constructor].
Qed.

Lemma evolves_authenticate (password : string) (s : State) :
  evolves s
    [encode Protocol.SERVERDATA_AUTH ID_AUTH password (encoding (self s))]
    (snd (authenticate encode ID_AUTH password s)).
Proof.
  unfold authenticate, new_call. cbv beta iota zeta.
  destruct (authenticated _); pair_out; cbn [snd];
    match goal with
    | |- evolves _ _ (then_ _ ?k (snd (write _ ?ty ?i ?b ?x))) =>
        apply (ev_trans s [] x [encode ty i b (encoding (self x))]);
          [|apply (evolves_write_then ty i b k x)]
    end; evo.
Qed.

Lemma evolves_run_job (j : Job) (s : State) :
  evolves s
    [encode Protocol.SERVERDATA_EXECCOMMAND (job_packetID j) (job_command j)
       (encoding (self s))]
    (run_job encode j s).
Proof.
  unfold run_job. pair_out. apply evolves_write_then.
Qed.

Lemma evolves_run_reaction (k : reaction) (outcome : settled) (s : State) :
  evolves s [] (run_reaction k outcome s).
Proof.
  unfold run_reaction. destruct k, outcome; cbv zeta; try apply ev_refl.
  - destruct (value_eqb _ _).
    + evo.
    + eapply ev_silent; [apply evolves_disconnect | constructor].
  - evo.
  - evo.
  - evo.
Qed.

Lemma evolves_run_microtasks (s : State) : evolves s [] (run_microtasks s).
Proof.
  unfold run_microtasks.
  apply (ev_trans s [] (set_microtasks [] s) []); [constructor|].
  apply ev_fold. intros s' m. apply evolves_run_reaction.
Qed.

Lemma evolves_emit_data (packet : list byte) (s : State) :
  evolves s [] (emit_data decode packet s).
Proof.
  unfold emit_data. apply ev_fold. intros s' l. apply evolves_onData.
Qed.

Lemma evolves_emit_error (e : error) (s : State) : evolves s [] (emit_error e s).
Proof.
  unfold emit_error. apply ev_fold. intros s' l. cbv zeta.
  destruct l as [p|p].
  - eapply ev_silent; [|apply evolves_onError]. evo.
  - eapply ev_silent; [|apply evolves_disconnect_onError]. evo.
Qed.

Lemma evolves_q_start (s : State) :
  exists out, evolves s out (q_start encode s).
Proof.
  unfold q_start. destruct (running (q (self s))).
  - exists []. apply ev_refl.
  - destruct (jobs (q (self s))) as [|j rest].
    + exists []. apply ev_refl.
    + eexists. eapply (ev_trans s []); [|apply evolves_run_job]. evo.
Qed.

Lemma evolves_q_push (j : Job) (s : State) :
  exists out, evolves s out (q_push encode j s).
Proof.
  unfold q_push. cbv zeta.
  match goal with
  | |- exists out, evolves _ out (q_start _ ?x) =>
      destruct (evolves_q_start x) as [out H]; exists ([] ++ out);
        apply ev_trans with x; [|exact H]
  end.
  evo.
Qed.

Lemma evolves_execute (r : spec_float) (command : string) (s : State) :
  exists out, evolves s out (snd (execute encode r command s)).
Proof.
  unfold execute, new_call. cbv beta iota zeta. cbn [snd].
  match goal with
  | |- exists out, evolves _ out (q_push _ ?j ?x) =>
      destruct (evolves_q_push j x) as [out H]; exists ([] ++ out);
        apply ev_trans with x; [|exact H]
  end.
  evo.
Qed.

Lemma evolves_call_authenticate (password : string) (s : State) :
  evolves s
    [encode Protocol.SERVERDATA_AUTH ID_AUTH password (encoding (self s))]
    (snd (call_authenticate encode ID_AUTH password s)).
Proof.
  unfold call_authenticate. pair_out. cbn [snd].
  eapply ev_silent; [apply evolves_authenticate | apply evolves_run_microtasks].
Qed.

Lemma evolves_call_write (type id : Z) (body : string) (s : State) :
  evolves s [encode type id body (encoding (self s))]
    (snd (call_write encode type id body s)).
Proof.
  unfold call_write. pair_out. cbn [snd].
  eapply ev_silent; [apply evolves_write | apply evolves_run_microtasks].
Qed.

Lemma evolves_call_execute (r : spec_float) (command : string) (s : State) :
  exists out, evolves s out (snd (call_execute encode r command s)).
Proof.
  unfold call_execute. pair_out. cbn [snd].
  destruct (evolves_execute r command s) as [out H]. exists out.
  eapply ev_silent; [exact H | apply evolves_run_microtasks].
Qed.

Lemma evolves_call_disconnect (s : State) :
  evolves s [] (snd (call_disconnect s)).
Proof.
  unfold call_disconnect. pair_out. cbn [snd].
  eapply ev_silent; [apply evolves_disconnect | apply evolves_run_microtasks].
Qed.

Lemma evolves_deliver (packet : list byte) (s : State) :
  evolves s [] (deliver decode packet s).
Proof.
  unfold deliver.
  eapply ev_silent; [apply evolves_emit_data | apply evolves_run_microtasks].
Qed.

Lemma evolves_socket_error (e : error) (s : State) :
  evolves s [] (socket_error e s).
Proof.
  unfold socket_error.
  eapply ev_silent; [apply evolves_emit_error | apply evolves_run_microtasks].
Qed.

Lemma evolves_socket_close (s : State) : evolves s [] (socket_close s).
Proof.
  unfold socket_close.
  eapply ev_silent; [apply evolves_emit_close | apply evolves_run_microtasks].
Qed.

Lemma evolves_job_over (s : State) :
  exists out, evolves s out (job_over encode s).
Proof.
  unfold job_over. cbv zeta.
  match goal with
  | |- exists out, evolves _ out (run_microtasks (q_start _ ?x)) =>
      destruct (evolves_q_start x) as [out H]; exists ([] ++ out);
        apply ev_trans with x;
        [|eapply ev_silent; [exact H | apply evolves_run_microtasks]]
  end.
  evo.
Qed.

Lemma evolves_turn (ev : Event) (s : State) :
  exists out, evolves s out (turn encode decode ID_AUTH ev s).
Proof.
  destruct ev; cbn [turn].
  - eexists. apply evolves_call_authenticate.
  - apply evolves_call_execute.
  - eexists. apply evolves_call_write.
  - eexists. apply evolves_call_disconnect.
  - eexists. apply evolves_deliver.
  - eexists. apply evolves_socket_error.
  - eexists. apply evolves_socket_close.
  - apply evolves_job_over.
Qed.

Lemma evolves_history (evs : list Event) (s : State) :
  exists out, evolves s out (history encode decode ID_AUTH evs s).
Proof.
  revert s. induction evs as [|ev evs IH]; intros s.
  - exists []. apply ev_refl.
  - cbn [history fold_left].
    destruct (evolves_turn ev s) as [o1 H1].
    destruct (IH (turn encode decode ID_AUTH ev s)) as [o2 H2].
    exists (o1 ++ o2). eapply ev_trans; [exact H1 | exact H2].
Qed.

End Evolution.

(** ** What no operation changes *)

Lemma self_then (p : nat) (k : reaction) (s : State) :
  self (then_ p k s) = self s.
Proof.
  unfold then_. destruct (writes s !! p) as [[[] r]|]; reflexivity.
Qed.

Lemma calls_settle_write (p : nat) (outcome : settled) (s : State) :
  calls (settle_write p outcome s) = calls s.
Proof.
  unfold settle_write.
  destruct (writes s !! p) as [[[] [k|]]|]; reflexivity.
Qed.

Lemma calls_then (p : nat) (k : reaction) (s : State) :
  calls (then_ p k s) = calls s.
Proof.
  unfold then_. destruct (writes s !! p) as [[[] r]|]; reflexivity.
Qed.

(** The buffers handed to the socket are the ones of the steps, in
    order. *)
Lemma evolves_written (s s' : State) (out : list (list byte)) :
  evolves s out s' ->
  written (connection (self s')) = written (connection (self s)) ++ out.
Proof.
  induction 1;
    rewrite ?self_settle_write, ?self_then, ?app_nil_r; try reflexivity.
  rewrite IHevolves2, IHevolves1. now rewrite app_assoc.
Qed.

(** The options and the end point of the socket stay as they are. *)
Lemma evolves_options (s s' : State) (out : list (list byte)) :
  evolves s out s' ->
  host (self s') = host (self s)
  /\ port (self s') = port (self s)
  /\ maximumPacketSize (self s') = maximumPacketSize (self s)
  /\ encoding (self s') = encoding (self s)
  /\ timeout (self s') = timeout (self s)
  /\ remote_host (connection (self s')) = remote_host (connection (self s))
  /\ remote_port (connection (self s')) = remote_port (connection (self s))
  /\ idle_timeout (connection (self s')) = idle_timeout (connection (self s)).
Proof.
  induction 1;
    rewrite ?self_settle_write, ?self_then; try (repeat split; reflexivity).
  destruct IHevolves1 as (?&?&?&?&?&?&?&?), IHevolves2 as (?&?&?&?&?&?&?&?).
  repeat split; congruence.
Qed.

(** A destroyed socket stays destroyed. *)
Lemma evolves_destroyed (s s' : State) (out : list (list byte)) :
  evolves s out s' ->
  destroyed (connection (self s)) = true ->
  destroyed (connection (self s')) = true.
Proof.
  induction 1; rewrite ?self_settle_write, ?self_then; auto.
Qed.

(** A promise of a call that is settled keeps its outcome. *)
Lemma evolves_call_state (s s' : State) (out : list (list byte)) (p : nat) :
  evolves s out s' ->
  call_state p s <> Pending ->
  call_state p s' = call_state p s.
Proof.
  induction 1; intros Hp;
    unfold call_state in *;
    rewrite ?calls_settle_write, ?calls_then; try reflexivity.
  - rewrite IHevolves2; rewrite IHevolves1; auto.
  - cbn [calls set_calls].
    destruct (calls s !! p) as [v|] eqn:E; [|now elim Hp].
    now rewrite (lookup_app_l_Some _ _ _ _ E).
  - unfold settle_call. cbn [calls set_calls].
    destruct (decide (p = p0)) as [->|Hne].
    + rewrite list_lookup_alter.
      destruct (calls s !! p0) as [[]|]; cbn in *;
        destruct (decide (p0 = p0)); try reflexivity; now elim Hp.
    + now rewrite list_lookup_alter_ne by congruence.
Qed.

Lemma writes_settle_write_ne (p p' : nat) (outcome : settled) (s : State) :
  p <> p' -> writes (settle_write p outcome s) !! p' = writes s !! p'.
Proof.
  intros Hne. unfold settle_write.
  destruct (writes s !! p) as [[[] [k|]]|]; try reflexivity;
    cbn [writes set_writes set_microtasks];
    now rewrite list_lookup_insert_ne.
Qed.

Lemma writes_settle_write_pending
    (p : nat) (k : option reaction) (outcome : settled) (s : State) :
  writes s !! p = Some (mkWritePromise Pending k) ->
  writes (settle_write p outcome s) !! p = Some (mkWritePromise outcome k).
Proof.
  intros H. unfold settle_write. rewrite H.
  assert (Hlt : (p < length (writes s))%nat)
    by (apply lookup_lt_is_Some; eauto).
  destruct k; cbn [writes set_writes set_microtasks];
    now rewrite list_lookup_insert_eq.
Qed.

Lemma writes_settle_write_settled
    (p p' : nat) (outcome : settled) (s : State) :
  write_state p' s <> Pending ->
  writes (settle_write p outcome s) !! p' = writes s !! p'.
Proof.
  intros H. destruct (decide (p = p')) as [->|Hne].
  - unfold settle_write, write_state in *.
    destruct (writes s !! p') as [[[] k]|] eqn:E;
      try (now elim H); exact E.
  - now apply writes_settle_write_ne.
Qed.

Lemma writes_then_settled (p p' : nat) (k : reaction) (s : State) :
  write_state p' s <> Pending ->
  writes (then_ p k s) !! p' = writes s !! p'.
Proof.
  intros H. unfold then_, write_state in *.
  destruct (writes s !! p) as [[[] r]|] eqn:E; try reflexivity.
  cbn [writes set_writes].
  destruct (decide (p = p')) as [->|Hne].
  - rewrite E in H. now elim H.
  - now rewrite list_lookup_insert_ne.
Qed.

(** A promise of a [write] that is settled keeps its outcome. *)
Lemma evolves_write_state (s s' : State) (out : list (list byte)) (p : nat) :
  evolves s out s' ->
  write_state p s <> Pending ->
  write_state p s' = write_state p s.
Proof.
  induction 1; intros Hp; try reflexivity.
  - rewrite IHevolves2; rewrite IHevolves1; auto.
  - unfold write_state in *. cbn [writes set_writes].
    destruct (writes s !! p) as [v|] eqn:E; [|now elim Hp].
    now rewrite (lookup_app_l_Some _ _ _ _ E).
  - unfold write_state. now rewrite writes_settle_write_settled.
  - unfold write_state. now rewrite writes_then_settled.
Qed.


(** ** Properties of every state and of every history *)

Section General.
Variable encode : Z -> Z -> string -> string -> list byte.
Variable decode : list byte -> string -> Packet.DecodedPacket.
Variable ID_AUTH : Z.

(** X1: nothing is sent to the server in reaction to an event of the
    socket.  Whatever the state, a buffer that arrives, an error and the
    end of the connection leave the list of written buffers as it is:
    no handler and no continuation of [authenticate] or [execute]
    writes. *)
Theorem socket_events_write_nothing
    (packet : list byte) (e : error) (s : State) :
  written (connection (self (deliver decode packet s)))
  = written (connection (self s))
  /\ written (connection (self (socket_error e s)))
     = written (connection (self s))
  /\ written (connection (self (socket_close s)))
     = written (connection (self s)).
Proof.
  split; [|split].
  - rewrite (evolves_written _ _ _ (evolves_deliver decode packet s)).
    apply app_nil_r.
  - rewrite (evolves_written _ _ _ (evolves_socket_error e s)).
    apply app_nil_r.
  - rewrite (evolves_written _ _ _ (evolves_socket_close s)).
    apply app_nil_r.
Qed.

(** X2: in every state, [authenticate] and [write] hand exactly one
    buffer to the socket, the encoded packet of the call, by the time
    they return, and [disconnect] hands it none. *)
Theorem calls_write_their_packet
    (password : string) (type id : Z) (body : string) (s : State) :
  written (connection (self (snd (call_authenticate encode ID_AUTH password s))))
  = written (connection (self s))
      ++ [encode Protocol.SERVERDATA_AUTH ID_AUTH password (encoding (self s))]
  /\ written (connection (self (snd (call_write encode type id body s))))
     = written (connection (self s))
         ++ [encode type id body (encoding (self s))]
  /\ written (connection (self (snd (call_disconnect s))))
     = written (connection (self s)).
Proof.
  split; [|split].
  - apply (evolves_written _ _ _ (evolves_call_authenticate encode ID_AUTH password s)).
  - apply (evolves_written _ _ _ (evolves_call_write encode type id body s)).
  - rewrite (evolves_written _ _ _ (evolves_call_disconnect s)).
    apply app_nil_r.
Qed.

(** X3: the options of the object and the end point of its socket are
    fixed by the constructor: no call and no event changes the host, the
    port, the packet size limit, the encoding or the timeout, nor the
    host, the port and the idle timeout of the socket. *)
Theorem history_keeps_options (evs : list Event) (s : State) :
  let s' := history encode decode ID_AUTH evs s in
  host (self s') = host (self s)
  /\ port (self s') = port (self s)
  /\ maximumPacketSize (self s') = maximumPacketSize (self s)
  /\ encoding (self s') = encoding (self s)
  /\ timeout (self s') = timeout (self s)
  /\ remote_host (connection (self s')) = remote_host (connection (self s))
  /\ remote_port (connection (self s')) = remote_port (connection (self s))
  /\ idle_timeout (connection (self s')) = idle_timeout (connection (self s)).
Proof.
  cbv zeta.
  destruct (evolves_history encode decode ID_AUTH evs s) as [out H].
  exact (evolves_options _ _ _ H).
Qed.

(** X4: [disconnect] is for good.  After a call of [disconnect], the
    socket is destroyed and stays destroyed whatever is called and
    whatever happens afterwards: the object never opens a connection
    again. *)
Theorem disconnect_is_for_good (evs : list Event) (s : State) :
  destroyed
    (connection
       (self (history encode decode ID_AUTH evs (snd (call_disconnect s)))))
  = true.
Proof.
  destruct (evolves_history encode decode ID_AUTH evs (snd (call_disconnect s)))
    as [out H].
  apply (evolves_destroyed _ _ _ H).
  unfold call_disconnect. pair_out. cbn [snd].
  apply (evolves_destroyed _ _ _ (evolves_run_microtasks (snd (disconnect s)))).
  reflexivity.
Qed.

Lemma execute_tail (p : nat) (j : Job) (x : State) :
  call_state p x <> Pending ->
  call_state p (run_microtasks (q_push encode j x)) = call_state p x.
Proof.
  destruct (evolves_q_push encode j x) as [out H].
  exact (evolves_call_state _ _ _ p
           (ev_silent _ _ _ _ H (evolves_run_microtasks _))).
Qed.

(** X6: the guards of [execute] decide its outcome at once.  In every
    state, a call on a socket that is not writable is rejected with
    ['Unable to write to socket'], and a call on a writable socket of a
    session that is not authenticated with ['Unable to authenticate'];
    the first failure is the one reported. *)
Theorem execute_guards_reject_first
    (r : spec_float) (command : string) (s : State) :
  let p := fst (call_execute encode r command s) in
  let s' := snd (call_execute encode r command s) in
  (writable (connection (self s)) = false ->
   call_state p s' = Rejected (Error "Unable to write to socket"))
  /\ (writable (connection (self s)) = true ->
      authenticated (self s) = false ->
      call_state p s' = Rejected (Error "Unable to authenticate")).
Proof.
  cbv zeta. destruct s as [t cs ws ms].
  unfold call_execute, execute, new_call. heap. pair_out. cbn [fst snd].
  split.
  - intros Hw. rewrite Hw. heap.
    destruct (authenticated t); heap;
      rewrite execute_tail; unfold call_state; heap;
      solve [reflexivity | discriminate].
  - intros Hw Ha. rewrite Hw. heap. rewrite Ha. heap.
    rewrite execute_tail; unfold call_state; heap;
      solve [reflexivity | discriminate].
Qed.

End General.

Lemma existsb_filter_negb {A : Type} (f : A -> bool) (l : list A) :
  existsb f (List.filter (fun x => negb (f x)) l) = false.
Proof.
  induction l as [|x l IH]; [reflexivity|].
  cbn [List.filter]. destruct (f x) eqn:E; cbn [negb]; [exact IH|].
  cbn [existsb]. now rewrite E, IH.
Qed.


(** ** Exchanges on a quiet session *)

Lemma eqb_length_snoc {A : Type} (l : list A) (x : A) :
  Nat.eqb (length (l ++ [x])) (length l) = false.
Proof. apply Nat.eqb_neq. rewrite length_app. simpl. lia. Qed.

Lemma eqb_length_snoc' {A : Type} (l : list A) (x : A) :
  Nat.eqb (length l) (length (l ++ [x])) = false.
Proof. apply Nat.eqb_neq. rewrite length_app. simpl. lia. Qed.

(** The tests on the listeners' numbers. *)
Ltac ids :=
  cbn [List.filter ErrorListener_eqb CloseListener_eqb od_write existsb];
  rewrite ?Nat.eqb_refl, ?eqb_length_snoc, ?eqb_length_snoc';
  cbn [negb orb List.filter existsb].

Section Exchanges.
Variable encode : Z -> Z -> string -> string -> list byte.
Variable decode : list byte -> string -> Packet.DecodedPacket.
Variable ID_AUTH : Z.

Lemma call_execute_ready (r : spec_float) (command : string) (s : State) :
  authenticated (self s) = true ->
  writable (connection (self s)) = true ->
  q (self s) = mkQueue [] false ->
  microtasks s = [] ->
  fits encode Protocol.SERVERDATA_EXECCOMMAND (packetID r) command (self s)
    = true ->
  call_execute encode r command s =
    (length (calls s),
     {| self :=
          set_q (mkQueue [] true)
            (set_connection
               (socket_write
                  (encode Protocol.SERVERDATA_EXECCOMMAND (packetID r) command
                     (encoding (self s)))
                  (once_error (WriteOnError (length (writes s)))
                     (on_data
                        (mkDataListener (length (writes s))
                           Protocol.SERVERDATA_EXECCOMMAND "")
                        (connection (self s)))))
               (self s));
        calls := calls s ++ [Pending];
        writes :=
          writes s ++
            [mkWritePromise Pending (Some (ExecReaction (length (calls s))))];
        microtasks := [] |}).
Proof.
  destruct s as [t cs ws ms]. projs.
  intros Hauth Hwr Hq -> Hfits.
  unfold call_execute, execute, new_call. heap. rewrite Hwr. projs.
  rewrite Hauth. projs.
  unfold q_push, q_start. heap. rewrite Hq. heap.
  unfold run_job. pair_out. rewrite write_then_spec. projs.
  change (fits encode Protocol.SERVERDATA_EXECCOMMAND (packetID r) command _)
    with (fits encode Protocol.SERVERDATA_EXECCOMMAND (packetID r) command t).
  rewrite Hfits. unfold run_microtasks. heap.
  now rewrite Hwr, Hauth.
Qed.

(** X7: an error of the socket while a command waits for its answer
    rejects the promise that [execute] returned with that error.  The
    session is authenticated, its socket writable, its queue idle, no
    error listener is registered and no continuation is pending; the
    packet of the command passes the size check of [write], so the
    promise is pending when [execute] returns.  After the error no error
    listener is left. *)
Theorem execute_socket_error
    (r : spec_float) (command : string) (e : error) (s : State) :
  authenticated (self s) = true ->
  writable (connection (self s)) = true ->
  q (self s) = mkQueue [] false ->
  error_listeners (connection (self s)) = [] ->
  microtasks s = [] ->
  fits encode Protocol.SERVERDATA_EXECCOMMAND (packetID r) command (self s)
    = true ->
  let x := call_execute encode r command s in
  let s' := socket_error e (snd x) in
  call_state (fst x) (snd x) = Pending
  /\ call_state (fst x) s' = Rejected e
  /\ error_listeners (connection (self s')) = [].
Proof.
  intros Hauth Hwr Hq Herr Hm Hfits x s'. subst x s'.
  rewrite call_execute_ready by assumption.
  destruct s as [t cs ws ms]. projs. subst ms.
  split; [unfold call_state; heap; reflexivity|].
  unfold socket_error, emit_error. heap. rewrite Herr. heap.
  cbn [List.filter ErrorListener_eqb]. rewrite Nat.eqb_refl. cbn [negb].
  unfold onError. heap. unfold run_microtasks. heap.
  cbn [run_reaction]. heap. unfold call_state. heap.
  split; reflexivity.
Qed.

(** X8: an error of the socket while [authenticate] waits for the
    answer rejects its promise with that error.  The session stays
    unauthenticated, and [disconnect] is not called on this path: the
    socket is destroyed only if it was before. *)
Theorem authenticate_socket_error (password : string) (e : error) (s : State) :
  authenticated (self s) = false ->
  error_listeners (connection (self s)) = [] ->
  microtasks s = [] ->
  fits encode Protocol.SERVERDATA_AUTH ID_AUTH password (self s) = true ->
  let a := call_authenticate encode ID_AUTH password s in
  let s' := socket_error e (snd a) in
  call_state (fst a) s' = Rejected e
  /\ authenticated (self s') = false
  /\ destroyed (connection (self s')) = destroyed (connection (self s))
  /\ close_listeners (connection (self s')) = close_listeners (connection (self s))
  /\ error_listeners (connection (self s')) = [].
Proof.
  intros Hauth Herr Hm Hfits a s'. subst a s'.
  rewrite authenticate_pending by assumption.
  destruct s as [t cs ws ms]. projs. subst ms.
  unfold socket_error, emit_error. heap. rewrite Herr. heap.
  cbn [List.filter ErrorListener_eqb]. rewrite Nat.eqb_refl. cbn [negb].
  unfold onError. heap. unfold run_microtasks. heap.
  cbn [run_reaction]. heap. unfold call_state. heap.
  repeat split; try reflexivity. exact Hauth.
Qed.

Lemma deliver_unheard (packet : list byte) (s : State) :
  data_listeners (connection (self s)) = [] ->
  microtasks s = [] ->
  deliver decode packet s = s.
Proof.
  intros Hd Hm. unfold deliver, emit_data. rewrite Hd. cbn [fold_left].
  now apply run_microtasks_nil.
Qed.

(** The handshake on a quiet session, when the server accepts. *)
Lemma authenticate_accepted (password : string) (packet : list byte) (s : State) :
  authenticated (self s) = false ->
  data_listeners (connection (self s)) = [] ->
  error_listeners (connection (self s)) = [] ->
  microtasks s = [] ->
  fits encode Protocol.SERVERDATA_AUTH ID_AUTH password (self s) = true ->
  Packet.type (decode packet (encoding (self s)))
  = Protocol.SERVERDATA_AUTH_RESPONSE ->
  Packet.id (decode packet (encoding (self s))) <> -1 ->
  deliver decode packet (snd (call_authenticate encode ID_AUTH password s))
  = {| self :=
         set_authenticated true
           (set_connection
              (socket_write
                 (encode Protocol.SERVERDATA_AUTH ID_AUTH password
                    (encoding (self s)))
                 (connection (self s)))
              (self s));
       calls := calls s ++ [Fulfilled undefined];
       writes :=
         writes s ++
           [mkWritePromise (Fulfilled (str "success"))
              (Some (AuthReaction (length (calls s))))];
       microtasks := [] |}.
Proof.
  intros Hauth Hdata Herr Hm Hfits Htype Hid.
  rewrite authenticate_pending by assumption.
  destruct s as [t cs ws ms]. projs. subst ms.
  unfold deliver, emit_data. heap. rewrite Hdata. heap.
  unfold onData. projs. rewrite Z.eqb_refl, Htype, Z.eqb_refl. projs.
  apply Z.eqb_neq in Hid. rewrite Hid. projs.
  heap. ids. rewrite ?Herr. ids.
  unfold run_microtasks. heap. cbn [run_reaction].
  change (value_eqb (str "success") (str "success")) with true.
  cbv iota. heap. rewrite ?Hdata, ?Herr. ids. reflexivity.
Qed.

(** A command on a quiet session, and its answer. *)
Lemma execute_answered
    (r : spec_float) (command : string) (packet : list byte) (s : State) :
  authenticated (self s) = true ->
  writable (connection (self s)) = true ->
  q (self s) = mkQueue [] false ->
  data_listeners (connection (self s)) = [] ->
  error_listeners (connection (self s)) = [] ->
  microtasks s = [] ->
  fits encode Protocol.SERVERDATA_EXECCOMMAND (packetID r) command (self s)
    = true ->
  deliver decode packet (snd (call_execute encode r command s))
  = {| self :=
         set_q (mkQueue [] true)
           (set_connection
              (socket_write
                 (encode Protocol.SERVERDATA_EXECCOMMAND (packetID r) command
                    (encoding (self s)))
                 (connection (self s)))
              (self s));
       calls :=
         calls s
           ++ [Fulfilled (str (Packet.body (decode packet (encoding (self s)))))];
       writes :=
         writes s ++
           [mkWritePromise
              (Fulfilled (str (Packet.body (decode packet (encoding (self s))))))
              (Some (ExecReaction (length (calls s))))];
       microtasks := [] |}.
Proof.
  intros Hauth Hwr Hq Hdata Herr Hm Hfits.
  rewrite call_execute_ready by assumption.
  destruct s as [t cs ws ms]. projs. subst ms.
  unfold deliver, emit_data. heap. rewrite Hdata. heap.
  unfold onData. projs.
  change (Protocol.SERVERDATA_EXECCOMMAND =? Protocol.SERVERDATA_AUTH)
    with false.
  projs. rewrite replace_final_newline_same. cbn [String.append].
  heap. ids. rewrite ?Herr. ids.
  unfold run_microtasks. heap. cbn [run_reaction]. heap.
  rewrite ?Hdata, ?Herr. ids. reflexivity.
Qed.

(** X9: a whole session.  On an object that has just been constructed,
    whatever its options: [authenticate], an AUTH_RESPONSE buffer with
    an id other than [-1], [execute], and a buffer in answer.  The two
    packets are the only buffers written; the promise of
    [authenticate] is fulfilled and the session is authenticated; the
    promise of [execute] is fulfilled with the body of the answer; no
    handler is left on the socket, and a further buffer changes
    nothing.  The queue still holds the job as running: only its
    timeout releases it. *)
Theorem handshake_then_command
    (options : ClassOptions) (password : string) (r : spec_float)
    (command : string) (granted answer further : list byte) :
  let t := constructor options in
  fits encode Protocol.SERVERDATA_AUTH ID_AUTH password t = true ->
  fits encode Protocol.SERVERDATA_EXECCOMMAND (packetID r) command t = true ->
  Packet.type (decode granted (encoding t))
  = Protocol.SERVERDATA_AUTH_RESPONSE ->
  Packet.id (decode granted (encoding t)) <> -1 ->
  let a := call_authenticate encode ID_AUTH password (new_SourceRCON options) in
  let s1 := deliver decode granted (snd a) in
  let x := call_execute encode r command s1 in
  let s2 := deliver decode answer (snd x) in
  call_state (fst a) s1 = Fulfilled undefined
  /\ authenticated (self s1) = true
  /\ call_state (fst x) s2
     = Fulfilled (str (Packet.body (decode answer (encoding t))))
  /\ written (connection (self s2))
     = [encode Protocol.SERVERDATA_AUTH ID_AUTH password (encoding t);
        encode Protocol.SERVERDATA_EXECCOMMAND (packetID r) command
          (encoding t)]
  /\ data_listeners (connection (self s2)) = []
  /\ error_listeners (connection (self s2)) = []
  /\ q (self s2) = mkQueue [] true
  /\ deliver decode further s2 = s2.
Proof.
  intros t Hf1 Hf2 Htype Hid a s1 x s2. subst a s1 x s2.
  rewrite authenticate_accepted by (try reflexivity; assumption).
  match goal with
  | |- context [call_execute encode r command ?s] => set (s1 := s)
  end.
  rewrite (execute_answered r command answer s1)
    by (try reflexivity; exact Hf2).
  split; [reflexivity|]. split; [reflexivity|].
  split; [reflexivity|]. split; [reflexivity|].
  split; [reflexivity|]. split; [reflexivity|].
  split; [reflexivity|].
  apply deliver_unheard; reflexivity.
Qed.

End Exchanges.

(** ** What a buffer does *)

Lemma fold_left_preserves {A S : Type} (f : S -> A -> S) (P : S -> Prop) :
  (forall s x, P s -> P (f s x)) ->
  forall l s, P s -> P (fold_left f l s).
Proof.
  intros Hf. induction l as [|x l IH]; intros s Hs; cbn [fold_left].
  - exact Hs.
  - apply IH, Hf, Hs.
Qed.

(** A continuation touches neither the promises of the [write]s, nor the
    handlers for ['data'], nor the micro-tasks, nor the job queue. *)
Lemma run_reaction_frame (k : reaction) (outcome : settled) (s : State) :
  writes (run_reaction k outcome s) = writes s
  /\ microtasks (run_reaction k outcome s) = microtasks s
  /\ data_listeners (connection (self (run_reaction k outcome s)))
     = data_listeners (connection (self s))
  /\ q (self (run_reaction k outcome s)) = q (self s).
Proof.
  destruct k, outcome; cbn [run_reaction];
    try destruct (value_eqb _ _); repeat split; reflexivity.
Qed.

Lemma run_microtasks_frame (s : State) :
  writes (run_microtasks s) = writes s
  /\ microtasks (run_microtasks s) = []
  /\ data_listeners (connection (self (run_microtasks s)))
     = data_listeners (connection (self s))
  /\ q (self (run_microtasks s)) = q (self s).
Proof.
  unfold run_microtasks.
  apply (fold_left_preserves
           (fun s m => run_reaction (fst m) (snd m) s)
           (fun s' =>
              writes s' = writes s
              /\ microtasks s' = []
              /\ data_listeners (connection (self s'))
                 = data_listeners (connection (self s))
              /\ q (self s') = q (self s))).
  - intros s' m (Hw & Hm & Hd & Hq).
    destruct (run_reaction_frame (fst m) (snd m) s') as (Hw' & Hm' & Hd' & Hq').
    repeat split; congruence.
  - repeat split; reflexivity.
Qed.

Section Delivery.
Variable decode : list byte -> string -> Packet.DecodedPacket.

(** The three branches of [onData]. *)
Lemma onData_cases (l : DataListener) (packet : list byte) (s : State) :
  let d := decode packet (encoding (self s)) in
  let p := od_write l in
  (od_type l = Protocol.SERVERDATA_AUTH
   /\ Packet.type d <> Protocol.SERVERDATA_AUTH_RESPONSE
   /\ onData decode l packet s = settle_write p (Fulfilled (str "failed")) s)
  \/ (od_type l = Protocol.SERVERDATA_AUTH
      /\ Packet.type d = Protocol.SERVERDATA_AUTH_RESPONSE
      /\ onData decode l packet s
         = with_connection (remove_error (WriteOnError p))
             (with_connection (remove_data p)
                (settle_write p
                   (Fulfilled
                      (str (if negb (Packet.id d =? -1)
                            then "success" else "failed")))
                   s)))
  \/ (od_type l <> Protocol.SERVERDATA_AUTH
      /\ onData decode l packet s
         = with_connection (remove_error (WriteOnError p))
             (settle_write p
                (Fulfilled (str (od_response l ++ Packet.body d)))
                (with_connection (remove_data p) s))).
Proof.
  cbv zeta. unfold onData.
  destruct (Z.eqb_spec (od_type l) Protocol.SERVERDATA_AUTH) as [Ht|Ht];
    destruct (Z.eqb_spec (Packet.type (decode packet (encoding (self s))))
                Protocol.SERVERDATA_AUTH_RESPONSE) as [Hr|Hr];
    cbn [negb andb].
  - right. left. split; [exact Ht|]. split; [exact Hr|].
    now destruct (negb _).
  - left. auto.
  - right. right. split; [exact Ht|].
    now rewrite replace_final_newline_same.
  - right. right. split; [exact Ht|].
    now rewrite replace_final_newline_same.
Qed.

Lemma onData_encoding (l : DataListener) (packet : list byte) (s : State) :
  encoding (self (onData decode l packet s)) = encoding (self s).
Proof.
  apply (evolves_options _ _ _ (evolves_onData decode l packet s)).
Qed.

Lemma onData_writes_ne (l : DataListener) (packet : list byte) (s : State) (p : nat) :
  od_write l <> p ->
  writes (onData decode l packet s) !! p = writes s !! p.
Proof.
  intros Hne.
  destruct (onData_cases l packet s) as [(_ & _ & ->)|[(_ & _ & ->)|(_ & ->)]];
    cbn [writes with_connection with_self];
    now rewrite writes_settle_write_ne.
Qed.

Lemma onData_command
    (l : DataListener) (packet : list byte) (k : option reaction) (s : State) :
  od_type l <> Protocol.SERVERDATA_AUTH ->
  writes s !! od_write l = Some (mkWritePromise Pending k) ->
  write_state (od_write l) (onData decode l packet s)
  = Fulfilled
      (str (od_response l ++ Packet.body (decode packet (encoding (self s))))).
Proof.
  intros Ht Hw.
  destruct (onData_cases l packet s) as [(E & _)|[(E & _)|(_ & ->)]];
    try contradiction.
  unfold write_state. cbn [writes with_connection with_self].
  now rewrite (writes_settle_write_pending _ k).
Qed.

(** The handlers for ['data'] are taken off the socket, never added. *)
Lemma onData_listeners_incl
    (l l' : DataListener) (packet : list byte) (s : State) :
  In l' (data_listeners (connection (self (onData decode l packet s)))) ->
  In l' (data_listeners (connection (self s))).
Proof.
  destruct (onData_cases l packet s) as [(_ & _ & ->)|[(_ & _ & ->)|(_ & ->)]];
    cbn [self with_connection with_self connection set_connection
         remove_error remove_data set_error_listeners set_data_listeners
         data_listeners];
    rewrite ?self_settle_write;
    cbn [self with_connection with_self connection set_connection
         remove_error remove_data set_error_listeners set_data_listeners
         data_listeners]; try tauto;
    intros H; apply filter_In in H; tauto.
Qed.

(** A handler that is still on the socket after it has run has taken the
    branch of line 149. *)
Lemma onData_keeps_itself (l : DataListener) (packet : list byte) (s : State) :
  In l (data_listeners (connection (self (onData decode l packet s)))) ->
  od_type l = Protocol.SERVERDATA_AUTH
  /\ Packet.type (decode packet (encoding (self s)))
     <> Protocol.SERVERDATA_AUTH_RESPONSE.
Proof.
  destruct (onData_cases l packet s)
    as [(Ht & Hr & _)|[(_ & _ & ->)|(_ & ->)]]; [tauto| |];
    cbn [self with_connection with_self connection set_connection
         remove_error remove_data set_error_listeners set_data_listeners
         data_listeners];
    rewrite ?self_settle_write;
    cbn [self with_connection with_self connection set_connection
         remove_error remove_data set_error_listeners set_data_listeners
         data_listeners];
    intros H; apply filter_In in H; destruct H as [_ H];
    rewrite Nat.eqb_refl in H; discriminate H.
Qed.

Lemma emit_data_resolves
    (packet : list byte) (l : DataListener) (k : option reaction)
    (L : list DataListener) :
  forall s,
  In l L ->
  (forall l', In l' L -> od_write l' = od_write l -> l' = l) ->
  od_type l <> Protocol.SERVERDATA_AUTH ->
  writes s !! od_write l = Some (mkWritePromise Pending k) ->
  write_state (od_write l) (fold_left (fun s l => onData decode l packet s) L s)
  = Fulfilled
      (str (od_response l ++ Packet.body (decode packet (encoding (self s))))).
Proof.
  induction L as [|a L IH]; intros s Hin Huniq Ht Hw; [destruct Hin|].
  cbn [fold_left].
  destruct (decide (od_write a = od_write l)) as [Heq|Hne].
  - assert (a = l) by (apply Huniq; [now left | exact Heq]). subst a.
    pose proof (onData_command l packet k s Ht Hw) as Hdone.
    rewrite <- Hdone.
    apply (evolves_write_state _ _ []).
    + apply ev_fold. intros s' l'. apply evolves_onData.
    + rewrite Hdone. discriminate.
  - destruct Hin as [->|Hin]; [now elim Hne|].
    rewrite <- (onData_encoding a packet s).
    apply IH; try assumption.
    + intros l' Hl'. apply Huniq. now right.
    + now rewrite onData_writes_ne.
Qed.

(** X10: a buffer that arrives resolves every pending [write] of a command
    whose handler listens, with the body of that buffer.  The handler
    compares neither the id nor the type of the packet with those of its
    request: several pending writes all receive the same answer. *)
Theorem data_resolves_pending_commands
    (packet : list byte) (l : DataListener) (k : option reaction) (s : State) :
  In l (data_listeners (connection (self s))) ->
  (forall l', In l' (data_listeners (connection (self s))) ->
              od_write l' = od_write l -> l' = l) ->
  od_type l <> Protocol.SERVERDATA_AUTH ->
  writes s !! od_write l = Some (mkWritePromise Pending k) ->
  write_state (od_write l) (deliver decode packet s)
  = Fulfilled
      (str (od_response l ++ Packet.body (decode packet (encoding (self s))))).
Proof.
  intros Hin Huniq Ht Hw. unfold deliver, write_state.
  destruct (run_microtasks_frame (emit_data decode packet s)) as (-> & _).
  now apply (emit_data_resolves packet l k).
Qed.

Lemma emit_data_listeners
    (packet : list byte) (l : DataListener) (L : list DataListener) :
  forall s,
  In l (data_listeners
          (connection
             (self (fold_left (fun s l => onData decode l packet s) L s)))) ->
  In l (data_listeners (connection (self s)))
  /\ (In l L ->
      od_type l = Protocol.SERVERDATA_AUTH
      /\ Packet.type (decode packet (encoding (self s)))
         <> Protocol.SERVERDATA_AUTH_RESPONSE).
Proof.
  induction L as [|a L IH]; intros s H; cbn [fold_left] in H.
  - split; [exact H | intros []].
  - destruct (IH _ H) as [Hin Hearly].
    split; [now apply onData_listeners_incl in Hin|].
    intros [->|HL].
    + now apply onData_keeps_itself.
    + rewrite <- (onData_encoding a packet s). now apply Hearly.
Qed.

(** X11: every handler for ['data'] serves once, but for the branch of
    line 149.  A handler that is still registered after a buffer has
    been handled was registered before, belongs to an authentication,
    and has met a packet that is not an AUTH_RESPONSE; no handler of a
    command survives a buffer, whatever the buffer is. *)
Theorem data_leaves_only_stalled_authentications
    (packet : list byte) (l : DataListener) (s : State) :
  In l (data_listeners (connection (self (deliver decode packet s)))) ->
  In l (data_listeners (connection (self s)))
  /\ od_type l = Protocol.SERVERDATA_AUTH
  /\ Packet.type (decode packet (encoding (self s)))
     <> Protocol.SERVERDATA_AUTH_RESPONSE.
Proof.
  unfold deliver.
  destruct (run_microtasks_frame (emit_data decode packet s)) as (_ & _ & -> & _).
  intros H. destruct (emit_data_listeners packet l _ s H) as [Hin Hearly].
  split; [exact Hin | exact (Hearly Hin)].
Qed.

End Delivery.

(** ** What the end of the connection does *)

Lemma CloseListener_eqb_eq (a b : CloseListener) :
  CloseListener_eqb a b = true <-> a = b.
Proof.
  destruct a as [x], b as [y]. cbn [CloseListener_eqb].
  rewrite Nat.eqb_eq. split; [now intros -> | now intros [= ->]].
Qed.

Lemma ErrorListener_eqb_refl (a : ErrorListener) : ErrorListener_eqb a a = true.
Proof. destruct a; apply Nat.eqb_refl. Qed.

Lemma close_step_frame (s : State) (l : CloseListener) :
  writes (close_step s l) = writes s
  /\ microtasks (close_step s l) = microtasks s
  /\ authenticated (self (close_step s l)) = authenticated (self s)
  /\ destroyed (connection (self (close_step s l)))
     = destroyed (connection (self s))
  /\ data_listeners (connection (self (close_step s l)))
     = data_listeners (connection (self s)).
Proof. destruct l. repeat split; reflexivity. Qed.

Lemma close_step_listeners (s : State) (l : CloseListener) :
  close_listeners (connection (self (close_step s l)))
  = List.filter (fun l' => negb (CloseListener_eqb l' l))
      (close_listeners (connection (self s))).
Proof. destruct l. reflexivity. Qed.

Lemma close_step_calls (s : State) (p : nat) :
  calls (close_step s (DisconnectOnClose p))
  = alter (settle (Fulfilled undefined)) p (calls s).
Proof. reflexivity. Qed.

Lemma close_step_error_listeners (s : State) (p : nat) :
  error_listeners (connection (self (close_step s (DisconnectOnClose p))))
  = List.filter (fun l' => negb (ErrorListener_eqb l' (DisconnectOnError p)))
      (error_listeners (connection (self s))).
Proof. reflexivity. Qed.

Lemma emit_close_fold (s : State) :
  emit_close s = fold_left close_step (close_listeners (connection (self s))) s.
Proof. reflexivity. Qed.

Lemma close_fold_frame (L : list CloseListener) (s : State) :
  writes (fold_left close_step L s) = writes s
  /\ microtasks (fold_left close_step L s) = microtasks s
  /\ authenticated (self (fold_left close_step L s)) = authenticated (self s)
  /\ destroyed (connection (self (fold_left close_step L s)))
     = destroyed (connection (self s))
  /\ data_listeners (connection (self (fold_left close_step L s)))
     = data_listeners (connection (self s)).
Proof.
  apply (fold_left_preserves close_step
           (fun s' =>
              writes s' = writes s
              /\ microtasks s' = microtasks s
              /\ authenticated (self s') = authenticated (self s)
              /\ destroyed (connection (self s'))
                 = destroyed (connection (self s))
              /\ data_listeners (connection (self s'))
                 = data_listeners (connection (self s))));
    [|repeat split; reflexivity].
  intros s' l (H1 & H2 & H3 & H4 & H5).
  destruct (close_step_frame s' l) as (G1 & G2 & G3 & G4 & G5).
  repeat split; congruence.
Qed.

(** The listeners that were called are the ones that are gone. *)
Lemma close_fold_listeners (x : CloseListener) (L : list CloseListener) :
  forall s,
  In x (close_listeners (connection (self (fold_left close_step L s)))) ->
  In x (close_listeners (connection (self s))) /\ ~ In x L.
Proof.
  induction L as [|l L IH]; intros s H; cbn [fold_left] in H.
  - split; [exact H | intros []].
  - destruct (IH _ H) as [Hin Hnot].
    rewrite close_step_listeners in Hin. apply filter_In in Hin.
    destruct Hin as [Hin Hne]. split; [exact Hin|].
    intros [->|HL]; [|contradiction].
    apply negb_true_iff in Hne.
    assert (CloseListener_eqb x x = true) by now apply CloseListener_eqb_eq.
    congruence.
Qed.

(** A ['close'] settles a promise of a call with [undefined] or not at
    all. *)
Lemma close_fold_calls (p : nat) (L : list CloseListener) :
  forall s,
  calls (fold_left close_step L s) !! p = calls s !! p
  \/ (calls s !! p = Some Pending
      /\ calls (fold_left close_step L s) !! p = Some (Fulfilled undefined)).
Proof.
  induction L as [|[p'] L IH]; intros s; cbn [fold_left]; [now left|].
  destruct (IH (close_step s (DisconnectOnClose p'))) as [H|[H1 H2]];
    rewrite close_step_calls in *.
  - rewrite H. destruct (decide (p' = p)) as [->|Hne].
    + rewrite list_lookup_alter_eq.
      destruct (calls s !! p) as [[]|]; cbn; auto.
    + rewrite list_lookup_alter_ne by exact Hne. now left.
  - destruct (decide (p' = p)) as [->|Hne].
    + rewrite list_lookup_alter_eq in H1.
      destruct (calls s !! p) as [[]|]; cbn in H1; discriminate.
    + rewrite list_lookup_alter_ne in H1 by exact Hne. right. auto.
Qed.

Lemma socket_close_emit (s : State) :
  microtasks s = [] -> socket_close s = emit_close s.
Proof.
  intros Hm. unfold socket_close. apply run_microtasks_nil.
  rewrite emit_close_fold.
  destruct (close_fold_frame (close_listeners (connection (self s))) s)
    as (_ & -> & _). exact Hm.
Qed.

Lemma call_disconnect_quiet (s : State) :
  microtasks s = [] -> call_disconnect s = disconnect s.
Proof.
  intros Hm. unfold call_disconnect.
  destruct s as [t cs ws ms]. cbn [microtasks] in Hm. subst ms.
  rewrite disconnect_spec. reflexivity.
Qed.

(** X12: [disconnect] followed by the end of the connection.  On any
    state with no continuation pending, [disconnect] marks the session
    unauthenticated, destroys the socket and returns a pending promise;
    the ['close'] event then fulfils it with [undefined], and leaves no
    ['close'] listener on the socket, nor the ['error'] listener of the
    call. *)
Theorem disconnect_then_close (s : State) :
  microtasks s = [] ->
  let d := call_disconnect s in
  let s' := socket_close (snd d) in
  call_state (fst d) (snd d) = Pending
  /\ call_state (fst d) s' = Fulfilled undefined
  /\ authenticated (self s') = false
  /\ destroyed (connection (self s')) = true
  /\ close_listeners (connection (self s')) = []
  /\ ~ In (DisconnectOnError (fst d)) (error_listeners (connection (self s'))).
Proof.
  intros Hm. cbv zeta. rewrite call_disconnect_quiet by exact Hm.
  destruct s as [t cs ws ms]. cbn [microtasks] in Hm. subst ms.
  rewrite disconnect_spec. cbn [fst snd].
  match goal with
  | |- context [socket_close ?x] => set (s1 := x)
  end.
  rewrite (socket_close_emit s1) by reflexivity.
  rewrite emit_close_fold.
  change (close_listeners (connection (self s1)))
    with (close_listeners (connection t) ++ [DisconnectOnClose (length cs)]).
  rewrite fold_left_app. cbn [fold_left].
  set (s2 := fold_left close_step (close_listeners (connection t)) s1).
  split; [unfold call_state, s1; cbn [calls]; now rewrite lookup_end|].
  split.
  { unfold call_state. rewrite close_step_calls, list_lookup_alter_eq.
    destruct (close_fold_calls (length cs) (close_listeners (connection t)) s1)
      as [H|[_ H]]; fold s2 in H; rewrite H; [|reflexivity].
    unfold s1. cbn [calls]. now rewrite lookup_end. }
  destruct (close_step_frame s2 (DisconnectOnClose (length cs)))
    as (_ & _ & -> & -> & _).
  destruct (close_fold_frame (close_listeners (connection t)) s1)
    as (_ & _ & Ha & Hd & _).
  fold s2 in Ha, Hd. rewrite Ha, Hd.
  split; [reflexivity|]. split; [reflexivity|].
  split.
  - destruct (close_listeners
                (connection (self (close_step s2 (DisconnectOnClose (length cs))))))
      as [|x rest] eqn:E; [reflexivity|].
    assert (Hx : In x (close_listeners
                         (connection
                            (self (close_step s2 (DisconnectOnClose (length cs)))))))
      by (rewrite E; now left).
    rewrite close_step_listeners in Hx. apply filter_In in Hx.
    destruct Hx as [Hx Hne]. apply negb_true_iff in Hne.
    apply close_fold_listeners in Hx. destruct Hx as [Hx Hnot].
    unfold s1 in Hx. cbn [self connection set_connection once_error once_close
                          set_error_listeners set_close_listeners
                          close_listeners] in Hx.
    apply in_app_or in Hx. destruct Hx as [Hx|[<-|[]]]; [contradiction|].
    assert (CloseListener_eqb (DisconnectOnClose (length cs))
              (DisconnectOnClose (length cs)) = true)
      by now apply CloseListener_eqb_eq.
    congruence.
  - rewrite close_step_error_listeners. intros H. apply filter_In in H.
    destruct H as [_ H]. rewrite ErrorListener_eqb_refl in H. discriminate H.
Qed.

(** ** What an error of the socket does *)

Lemma microtasks_settle_write (p : nat) (outcome : settled) (s : State) :
  microtasks (settle_write p outcome s)
  = microtasks s
      ++ match writes s !! p with
         | Some (mkWritePromise Pending (Some k)) => [(k, outcome)]
         | _ => []
         end.
Proof.
  unfold settle_write.
  destruct (writes s !! p) as [[[] [k|]]|]; cbn [microtasks set_microtasks set_writes];
    now rewrite ?app_nil_r.
Qed.

Lemma rejecting_refl (e : error) (s : State) :
  microtasks s = [] -> rejecting e s s.
Proof.
  intros Hm. repeat split; auto.
  - rewrite Hm. intros m [].
  - intros w r H1 H2. rewrite H1 in H2. discriminate H2.
Qed.

Lemma rejecting_settle_call (e : error) (p : nat) (s s' : State) :
  rejecting e s s' -> rejecting e s (settle_call p (Rejected e) s').
Proof.
  intros (Hc & Hw & Hm & Hq). repeat split; auto.
  intros p'. unfold settle_call. cbn [calls set_calls].
  destruct (decide (p = p')) as [->|Hne].
  - rewrite list_lookup_alter_eq.
    destruct (Hc p') as [H|[H1 H2]].
    + rewrite H. destruct (calls s !! p') as [[]|]; cbn; auto.
    + rewrite H2. cbn. auto.
  - rewrite list_lookup_alter_ne by exact Hne. apply Hc.
Qed.

Lemma rejecting_settle_write (e : error) (p : nat) (s s' : State) :
  rejecting e s s' -> rejecting e s (settle_write p (Rejected e) s').
Proof.
  intros (Hc & Hw & Hm & Hq).
  split; [now rewrite calls_settle_write|].
  split; [|split].
  - intros w. destruct (decide (p = w)) as [->|Hne].
    + destruct (writes s' !! w) as [[[] k]|] eqn:E.
      * rewrite (writes_settle_write_pending w k) by exact E.
        destruct (Hw w) as [H|(k' & H1 & H2)]; [|congruence].
        right. exists k. split; [congruence | reflexivity].
      * rewrite writes_settle_write_settled
          by (unfold write_state; rewrite E; discriminate).
        rewrite E. destruct (Hw w) as [H|H]; [left; congruence|].
        right. destruct H as (k' & H1 & H2). exists k'. split; congruence.
      * rewrite writes_settle_write_settled
          by (unfold write_state; rewrite E; discriminate).
        rewrite E. destruct (Hw w) as [H|H]; [left; congruence|].
        right. destruct H as (k' & H1 & H2). exists k'. split; congruence.
      * unfold settle_write. rewrite E, E. destruct (Hw w) as [H|H].
        -- left. congruence.
        -- destruct H as (k' & H1 & H2). congruence.
    + rewrite writes_settle_write_ne by exact Hne. apply Hw.
  - intros m. rewrite microtasks_settle_write. intros H.
    apply in_app_or in H. destruct H as [H|H]; [now apply Hm|].
    destruct (writes s' !! p) as [[[] [k|]]|]; try destruct H as [<-|[]];
      try reflexivity; destruct H.
  - intros w r H1 H2. rewrite microtasks_settle_write. apply in_or_app.
    destruct (decide (p = w)) as [->|Hne].
    + destruct (writes s' !! w) as [[[] k]|] eqn:E.
      * rewrite (writes_settle_write_pending w k) in H2 by exact E.
        injection H2 as ->. right. now left.
      * rewrite writes_settle_write_settled in H2
          by (unfold write_state; rewrite E; discriminate).
        left. apply (Hq w r H1 H2).
      * rewrite writes_settle_write_settled in H2
          by (unfold write_state; rewrite E; discriminate).
        left. apply (Hq w r H1 H2).
      * unfold settle_write in H2. rewrite E in H2. congruence.
    + rewrite writes_settle_write_ne in H2 by exact Hne.
      left. apply (Hq w r H1 H2).
Qed.

Lemma rejecting_with_connection
    (e : error) (f : Connection -> Connection) (s s' : State) :
  rejecting e s s' -> rejecting e s (with_connection f s').
Proof. intros H. exact H. Qed.

Lemma rejecting_error_step (e : error) (l : ErrorListener) (s s' : State) :
  rejecting e s s' -> rejecting e s (error_step e s' l).
Proof.
  intros H. destruct l as [p|p]; unfold error_step; cbv zeta.
  - unfold onError. cbv zeta.
    now apply rejecting_settle_write, rejecting_with_connection,
      rejecting_with_connection.
  - unfold disconnect_onError. cbv zeta.
    now apply rejecting_settle_call, rejecting_with_connection,
      rejecting_with_connection.
Qed.

Lemma emit_error_fold (e : error) (s : State) :
  emit_error e s
  = fold_left (error_step e) (error_listeners (connection (self s))) s.
Proof. reflexivity. Qed.

Lemma rejecting_fold (e : error) (L : list ErrorListener) (s s' : State) :
  rejecting e s s' -> rejecting e s (fold_left (error_step e) L s').
Proof.
  intros H.
  apply (fold_left_preserves (error_step e) (rejecting e s)); [|exact H].
  intros s'' l. apply rejecting_error_step.
Qed.

(** The continuations of rejected promises reject the promises of their
    calls. *)
Lemma run_reaction_rejected (k : reaction) (e : error) (s : State) :
  run_reaction k (Rejected e) s = settle_call (call_of k) (Rejected e) s.
Proof. destruct k; reflexivity. Qed.

Lemma reactions_calls
    (e : error) (p : nat) (L : list (reaction * settled)) :
  forall s,
  (forall m, In m L -> snd m = Rejected e) ->
  calls (fold_left (fun s m => run_reaction (fst m) (snd m) s) L s) !! p
  = calls s !! p
  \/ (calls s !! p = Some Pending
      /\ calls (fold_left (fun s m => run_reaction (fst m) (snd m) s) L s) !! p
         = Some (Rejected e)).
Proof.
  induction L as [|[k o] L IH]; intros s HL; cbn [fold_left]; [now left|].
  cbn [fst snd].
  assert (o = Rejected e) as -> by (apply (HL (k, o)); now left).
  rewrite run_reaction_rejected.
  destruct (IH (settle_call (call_of k) (Rejected e) s)) as [H|[H1 H2]];
    [intros m Hm; apply HL; now right| |];
    unfold settle_call in *; cbn [calls set_calls] in *.
  - rewrite H. destruct (decide (call_of k = p)) as [<-|Hne].
    + rewrite list_lookup_alter_eq.
      destruct (calls s !! call_of k) as [[]|]; cbn; auto.
    + rewrite list_lookup_alter_ne by exact Hne. now left.
  - destruct (decide (call_of k = p)) as [<-|Hne].
    + rewrite list_lookup_alter_eq in H1.
      destruct (calls s !! call_of k) as [[]|]; cbn in H1; discriminate.
    + rewrite list_lookup_alter_ne in H1 by exact Hne. right. auto.
Qed.

Lemma reactions_reject
    (e : error) (r : reaction) (L : list (reaction * settled)) :
  forall s,
  (forall m, In m L -> snd m = Rejected e) ->
  In (r, Rejected e) L ->
  calls s !! call_of r = Some Pending
  \/ calls s !! call_of r = Some (Rejected e) ->
  calls (fold_left (fun s m => run_reaction (fst m) (snd m) s) L s) !! call_of r
  = Some (Rejected e).
Proof.
  induction L as [|[k o] L IH]; intros s HL Hin Hc; [destruct Hin|].
  cbn [fold_left fst snd].
  assert (o = Rejected e) as -> by (apply (HL (k, o)); now left).
  rewrite run_reaction_rejected.
  assert (HL' : forall m, In m L -> snd m = Rejected e)
    by (intros m Hm; apply HL; now right).
  destruct Hin as [Heq|Hin].
  - injection Heq as ->.
    destruct (reactions_calls e (call_of r) L
                (settle_call (call_of r) (Rejected e) s) HL') as [H|[H _]];
      unfold settle_call in *; cbn [calls set_calls] in *;
      rewrite list_lookup_alter_eq in H.
    + rewrite H. destruct Hc as [-> | ->]; reflexivity.
    + destruct Hc as [Hc|Hc]; rewrite Hc in H; discriminate H.
  - apply IH; [exact HL' | exact Hin |].
    unfold settle_call. cbn [calls set_calls].
    destruct (decide (call_of k = call_of r)) as [Heq|Hne].
    + rewrite Heq, list_lookup_alter_eq.
      destruct Hc as [-> | ->]; cbn; auto.
    + now rewrite list_lookup_alter_ne.
Qed.

Lemma socket_error_rejecting (e : error) (s : State) :
  microtasks s = [] -> rejecting e s (emit_error e s).
Proof.
  intros Hm. rewrite emit_error_fold.
  apply rejecting_fold, rejecting_refl, Hm.
Qed.

Lemma evolves_error_step (e : error) (s : State) (l : ErrorListener) :
  evolves s [] (error_step e s l).
Proof.
  unfold error_step. cbv zeta. destruct l as [p|p].
  - eapply ev_silent; [|apply evolves_onError]. constructor.
  - eapply ev_silent; [|apply evolves_disconnect_onError]. constructor.
Qed.

Lemma error_step_self (e : error) (s : State) (l : ErrorListener) :
  authenticated (self (error_step e s l)) = authenticated (self s)
  /\ destroyed (connection (self (error_step e s l)))
     = destroyed (connection (self s))
  /\ error_listeners (connection (self (error_step e s l)))
     = List.filter (fun l' => negb (ErrorListener_eqb l' l))
         (error_listeners (connection (self s))).
Proof.
  destruct l as [p|p]; unfold error_step, onError, disconnect_onError;
    cbv zeta; rewrite ?self_settle_write; repeat split; reflexivity.
Qed.

Lemma error_step_data_listeners (e : error) (s : State) (l : ErrorListener) :
  data_listeners (connection (self (error_step e s l)))
  = match l with
    | WriteOnError p =>
        List.filter (fun l' => negb (Nat.eqb (od_write l') p))
          (data_listeners (connection (self s)))
    | DisconnectOnError _ => data_listeners (connection (self s))
    end.
Proof.
  destruct l as [p|p]; unfold error_step, onError, disconnect_onError;
    cbv zeta; rewrite ?self_settle_write; reflexivity.
Qed.

Lemma error_step_writes_ne (e : error) (s : State) (l : ErrorListener) (w : nat) :
  l <> WriteOnError w ->
  writes (error_step e s l) !! w = writes s !! w.
Proof.
  intros Hne. destruct l as [p|p]; unfold error_step, onError;
    cbv zeta; [|reflexivity].
  rewrite writes_settle_write_ne by congruence. reflexivity.
Qed.

Lemma error_step_rejects
    (e : error) (s : State) (w : nat) (k : option reaction) :
  writes s !! w = Some (mkWritePromise Pending k)
  \/ writes s !! w = Some (mkWritePromise (Rejected e) k) ->
  writes (error_step e s (WriteOnError w)) !! w
  = Some (mkWritePromise (Rejected e) k).
Proof.
  unfold error_step, onError. cbv zeta. intros [H|H].
  - now apply writes_settle_write_pending.
  - rewrite writes_settle_write_settled; [exact H|].
    unfold write_state. cbn [writes with_connection with_self].
    rewrite H. discriminate.
Qed.

Lemma existsb_filter_false {A : Type} (f g : A -> bool) (l : list A) :
  existsb f l = false -> existsb f (List.filter g l) = false.
Proof.
  induction l as [|x l IH]; [reflexivity|]. cbn [existsb List.filter].
  intros H. apply orb_false_iff in H. destruct H as [Hx Hl].
  destruct (g x); cbn [existsb]; rewrite ?Hx; auto.
Qed.

Lemma error_step_listens (e : error) (s : State) (l : ErrorListener) (w : nat) :
  listens_data w (connection (self s)) = false ->
  listens_data w (connection (self (error_step e s l))) = false.
Proof.
  unfold listens_data. rewrite error_step_data_listeners.
  destruct l; [apply existsb_filter_false | trivial].
Qed.

Lemma error_fold_write
    (e : error) (w : nat) (k : option reaction) (L : list ErrorListener) :
  forall s,
  In (WriteOnError w) L ->
  writes s !! w = Some (mkWritePromise Pending k)
  \/ writes s !! w = Some (mkWritePromise (Rejected e) k) ->
  write_state w (fold_left (error_step e) L s) = Rejected e
  /\ listens_data w (connection (self (fold_left (error_step e) L s))) = false.
Proof.
  induction L as [|l L IH]; intros s Hin Hw; [destruct Hin|].
  cbn [fold_left].
  destruct (decide (l = WriteOnError w)) as [->|Hne].
  - pose proof (error_step_rejects e s w k Hw) as Hdone. split.
    + transitivity (write_state w (error_step e s (WriteOnError w))).
      * apply (evolves_write_state _ _ []).
        -- apply ev_fold. intros s' l'. apply evolves_error_step.
        -- unfold write_state. rewrite Hdone. discriminate.
      * unfold write_state. now rewrite Hdone.
    + apply (fold_left_preserves (error_step e)
               (fun s' => listens_data w (connection (self s')) = false)).
      * intros s' l' H. now apply error_step_listens.
      * unfold listens_data. rewrite error_step_data_listeners.
        apply (existsb_filter_negb (fun l' => Nat.eqb (od_write l') w)).
  - destruct Hin as [Heq|Hin]; [congruence|].
    apply IH; [exact Hin|].
    now rewrite error_step_writes_ne.
Qed.

Lemma error_fold_self (e : error) (L : list ErrorListener) (s : State) :
  authenticated (self (fold_left (error_step e) L s)) = authenticated (self s)
  /\ destroyed (connection (self (fold_left (error_step e) L s)))
     = destroyed (connection (self s)).
Proof.
  apply (fold_left_preserves (error_step e)
           (fun s' =>
              authenticated (self s') = authenticated (self s)
              /\ destroyed (connection (self s'))
                 = destroyed (connection (self s)))); [|split; reflexivity].
  intros s' l [H1 H2]. destruct (error_step_self e s' l) as (G1 & G2 & _).
  split; congruence.
Qed.

Lemma error_fold_listeners (e : error) (x : ErrorListener) (L : list ErrorListener) :
  forall s,
  In x (error_listeners (connection (self (fold_left (error_step e) L s)))) ->
  In x (error_listeners (connection (self s))) /\ ~ In x L.
Proof.
  induction L as [|l L IH]; intros s H; cbn [fold_left] in H.
  - split; [exact H | intros []].
  - destruct (IH _ H) as [Hin Hnot].
    destruct (error_step_self e s l) as (_ & _ & E). rewrite E in Hin.
    apply filter_In in Hin. destruct Hin as [Hin Hne].
    split; [exact Hin|]. intros [->|HL]; [|contradiction].
    rewrite ErrorListener_eqb_refl in Hne. discriminate Hne.
Qed.

(** Continuations that all carry an error leave the object alone. *)
Lemma reactions_self (e : error) (L : list (reaction * settled)) :
  forall s,
  (forall m, In m L -> snd m = Rejected e) ->
  self (fold_left (fun s m => run_reaction (fst m) (snd m) s) L s) = self s.
Proof.
  induction L as [|[k o] L IH]; intros s HL; cbn [fold_left]; [reflexivity|].
  cbn [fst snd].
  assert (o = Rejected e) as -> by (apply (HL (k, o)); now left).
  rewrite IH by (intros m Hm; apply HL; now right).
  now rewrite run_reaction_rejected.
Qed.

Lemma socket_error_self (e : error) (s : State) :
  microtasks s = [] -> self (socket_error e s) = self (emit_error e s).
Proof.
  intros Hm. destruct (socket_error_rejecting e s Hm) as (_ & _ & HM & _).
  unfold socket_error, run_microtasks.
  now rewrite (reactions_self e) by exact HM.
Qed.

(** X13: an error of the socket rejects, and nothing else.  On any
    state with no continuation pending, after the ['error'] event every
    promise of a call and of a [write] is as it was before, or rejected
    with the error that the socket reported: no promise is fulfilled on
    this path and none gets another error.  The session is neither
    marked unauthenticated nor disconnected, and no listener for
    ['error'] is left. *)
Theorem socket_error_only_rejects (e : error) (p : nat) (s : State) :
  microtasks s = [] ->
  (call_state p (socket_error e s) = call_state p s
   \/ call_state p (socket_error e s) = Rejected e)
  /\ (write_state p (socket_error e s) = write_state p s
      \/ write_state p (socket_error e s) = Rejected e)
  /\ authenticated (self (socket_error e s)) = authenticated (self s)
  /\ destroyed (connection (self (socket_error e s)))
     = destroyed (connection (self s))
  /\ error_listeners (connection (self (socket_error e s))) = [].
Proof.
  intros Hm. destruct (socket_error_rejecting e s Hm) as (Hc & Hw & HM & _).
  rewrite (socket_error_self e s Hm), emit_error_fold.
  destruct (error_fold_self e (error_listeners (connection (self s))) s)
    as [-> ->].
  split; [|split; [|split; [reflexivity|split; [reflexivity|]]]].
  - unfold socket_error, call_state, run_microtasks.
    destruct (reactions_calls e p (microtasks (emit_error e s))
                (set_microtasks [] (emit_error e s)) HM) as [->|[H ->]];
      [|now right].
    cbn [calls set_microtasks].
    destruct (Hc p) as [->|[_ ->]]; auto.
  - unfold socket_error, write_state.
    destruct (run_microtasks_frame (emit_error e s)) as (-> & _).
    destruct (Hw p) as [->|(k & _ & ->)]; auto.
  - destruct (error_listeners
                (connection
                   (self (fold_left (error_step e)
                            (error_listeners (connection (self s))) s))))
      as [|x rest] eqn:E; [reflexivity|].
    assert (Hx : In x (x :: rest)) by now left.
    rewrite <- E in Hx. apply error_fold_listeners in Hx. tauto.
Qed.

(** X14: an error of the socket while a [write] waits for its answer.
    On any state with no continuation pending, the ['error'] event
    rejects every pending promise of a [write] whose error listener is
    registered, with the error of the socket, and takes the handler for
    ['data'] of that [write] off the socket; the promise that
    [authenticate] or [execute] returned for it, when it is still
    pending, is rejected with the same error. *)
Theorem socket_error_rejects_pending_write
    (e : error) (w : nat) (k : option reaction) (s : State) :
  microtasks s = [] ->
  In (WriteOnError w) (error_listeners (connection (self s))) ->
  writes s !! w = Some (mkWritePromise Pending k) ->
  write_state w (socket_error e s) = Rejected e
  /\ listens_data w (connection (self (socket_error e s))) = false
  /\ (forall r,
        k = Some r ->
        calls s !! call_of r = Some Pending ->
        call_state (call_of r) (socket_error e s) = Rejected e).
Proof.
  intros Hm Hin Hw.
  destruct (socket_error_rejecting e s Hm) as (Hc & HW & HM & HQ).
  destruct (error_fold_write e w k (error_listeners (connection (self s))) s
              Hin (or_introl Hw)) as [Hdone Hgone].
  rewrite <- emit_error_fold in Hdone, Hgone.
  assert (Hw1 : writes (emit_error e s) !! w
                = Some (mkWritePromise (Rejected e) k)).
  { destruct (HW w) as [E|(k' & E1 & E2)].
    - unfold write_state in Hdone. rewrite E, Hw in Hdone. discriminate Hdone.
    - congruence. }
  split; [|split].
  - unfold socket_error, write_state.
    destruct (run_microtasks_frame (emit_error e s)) as (-> & _).
    now rewrite Hw1.
  - now rewrite (socket_error_self e s Hm).
  - intros r -> Hcall. unfold socket_error, run_microtasks, call_state.
    rewrite (reactions_reject e r); [reflexivity | exact HM | |].
    + apply (HQ w r Hw Hw1).
    + cbn [calls set_microtasks].
      destruct (Hc (call_of r)) as [E|[_ E]]; rewrite E; auto.
Qed.

(** X15: [disconnect] followed by an error of the socket.  On any state
    with no continuation pending, the ['error'] event rejects the
    promise that [disconnect] returned with the error of the socket,
    and takes the ['close'] listener of the call off the socket; the
    session stays unauthenticated and the socket destroyed. *)
Theorem disconnect_then_error (e : error) (s : State) :
  microtasks s = [] ->
  let d := call_disconnect s in
  let s' := socket_error e (snd d) in
  call_state (fst d) s' = Rejected e
  /\ ~ In (DisconnectOnClose (fst d)) (close_listeners (connection (self s')))
  /\ authenticated (self s') = false
  /\ destroyed (connection (self s')) = true.
Proof.
  intros Hm. cbv zeta. rewrite call_disconnect_quiet by exact Hm.
  destruct s as [t cs ws ms]. cbn [microtasks] in Hm. subst ms.
  rewrite disconnect_spec. cbn [fst snd].
  match goal with
  | |- context [socket_error e ?x] => set (s1 := x)
  end.
  assert (Hm1 : microtasks s1 = []) by reflexivity.
  pose proof (socket_error_rejecting e s1 Hm1) as Hrej.
  rewrite (socket_error_self e s1 Hm1).
  unfold socket_error, call_state, run_microtasks.
  destruct Hrej as (Hc & _ & HM & _).
  rewrite emit_error_fold in *.
  change (error_listeners (connection (self s1)))
    with (error_listeners (connection t) ++ [DisconnectOnError (length cs)])
    in *.
  rewrite fold_left_app in *. cbn [fold_left] in *.
  set (s2 := fold_left (error_step e) (error_listeners (connection t)) s1) in *.
  assert (H2 : calls s2 !! length cs = Some Pending
               \/ calls s2 !! length cs = Some (Rejected e)).
  { pose proof (rejecting_fold e (error_listeners (connection t)) s1 s1
                  (rejecting_refl e s1 Hm1)) as (Hc2 & _).
    fold s2 in Hc2. destruct (Hc2 (length cs)) as [E|[_ E]]; [left|now right].
    rewrite E. unfold s1. cbn [calls]. apply lookup_end. }
  assert (H3 : calls (error_step e s2 (DisconnectOnError (length cs)))
               !! length cs = Some (Rejected e)).
  { unfold error_step, disconnect_onError, settle_call. cbv zeta.
    cbn [calls set_calls with_connection with_self].
    rewrite list_lookup_alter_eq. destruct H2 as [-> | ->]; reflexivity. }
  split; [|split; [|split]].
  - destruct (reactions_calls e (length cs)
                (microtasks (error_step e s2 (DisconnectOnError (length cs))))
                (set_microtasks []
                   (error_step e s2 (DisconnectOnError (length cs)))) HM)
      as [->|[_ ->]]; [|reflexivity].
    cbn [calls set_microtasks]. now rewrite H3.
  - unfold error_step, disconnect_onError. cbv zeta.
    cbn [self settle_call set_calls with_connection with_self connection
         set_connection remove_close remove_error set_close_listeners
         set_error_listeners close_listeners].
    intros H. apply filter_In in H. destruct H as [_ H].
    cbn [CloseListener_eqb] in H. rewrite Nat.eqb_refl in H. discriminate H.
  - destruct (error_step_self e s2 (DisconnectOnError (length cs)))
      as (-> & _).
    destruct (error_fold_self e (error_listeners (connection t)) s1)
      as [Ha _]. fold s2 in Ha. now rewrite Ha.
  - destruct (error_step_self e s2 (DisconnectOnError (length cs)))
      as (_ & -> & _).
    destruct (error_fold_self e (error_listeners (connection t)) s1)
      as [_ Hd]. fold s2 in Hd. now rewrite Hd.
Qed.

(** ** The job queue *)

Section Queueing.
Variable encode : Z -> Z -> string -> string -> list byte.
Variable decode : list byte -> string -> Packet.DecodedPacket.
Variable ID_AUTH : Z.

Lemma run_job_frame (j : Job) (s : State) :
  q (self (run_job encode j s)) = q (self s).
Proof.
  unfold run_job. pair_out. rewrite self_then, write_spec. reflexivity.
Qed.

(** X16: the commands wait for each other.  While a job of the queue is
    running, [execute] hands nothing to the socket and registers no
    handler: its job is put behind the jobs that wait already.  This
    holds in every such state, also when the call is rejected by one of
    its guards. *)
Theorem execute_waits_for_running_job
    (r : spec_float) (command : string) (s : State) :
  running (q (self s)) = true ->
  let x := call_execute encode r command s in
  written (connection (self (snd x))) = written (connection (self s))
  /\ data_listeners (connection (self (snd x)))
     = data_listeners (connection (self s))
  /\ q (self (snd x))
     = mkQueue (jobs (q (self s)) ++ [mkJob (packetID r) command (fst x)]) true.
Proof.
  intros Hrun. cbv zeta. unfold call_execute. pair_out. cbn [fst snd].
  destruct (run_microtasks_frame (snd (execute encode r command s)))
    as (_ & _ & -> & ->).
  rewrite (evolves_written _ _ _
             (evolves_run_microtasks (snd (execute encode r command s)))).
  rewrite app_nil_r.
  unfold execute, new_call. cbv beta iota zeta. cbn [fst snd].
  unfold q_push, q_start. cbv zeta.
  cbn [self with_self q set_q running].
  destruct (negb (writable _)), (negb (authenticated _));
    cbn [self settle_call set_calls q set_q running with_self];
    rewrite Hrun; repeat split; reflexivity.
Qed.

(** X17: when the running job is over for the queue, the oldest job that
    waits is started: its command packet goes to the socket, with the
    id drawn when [execute] was called, and the other jobs keep their
    order.  With no job waiting the queue becomes idle and nothing is
    written. *)
Theorem job_over_starts_oldest_job (s : State) :
  let s' := job_over encode s in
  match jobs (q (self s)) with
  | [] =>
      written (connection (self s')) = written (connection (self s))
      /\ q (self s') = mkQueue [] false
  | j :: rest =>
      written (connection (self s'))
      = written (connection (self s))
          ++ [encode Protocol.SERVERDATA_EXECCOMMAND (job_packetID j)
                (job_command j) (encoding (self s))]
      /\ q (self s') = mkQueue rest true
  end.
Proof.
  cbv zeta. unfold job_over. cbv zeta.
  match goal with
  | |- context [run_microtasks ?x] =>
      destruct (run_microtasks_frame x) as (_ & _ & _ & Hq);
        pose proof (evolves_written _ _ _ (evolves_run_microtasks x)) as Hw
  end.
  rewrite Hq, Hw, app_nil_r. clear Hq Hw.
  unfold q_start. cbn [self with_self q set_q running jobs].
  destruct (jobs (q (self s))) as [|j rest].
  - split; reflexivity.
  - rewrite run_job_frame.
    match goal with
    | |- context [run_job encode j ?x] =>
        rewrite (evolves_written _ _ _ (evolves_run_job encode j x))
    end.
    split; reflexivity.
Qed.

End Queueing.

(** ** Construction, again *)

(** X18: the object never holds a falsy setting.  Whatever the options,
    the host and the encoding are not empty and the port, the size
    limit and the timeout are not [0]; the socket is opened to the host
    and the port that the object holds and is given its timeout; the
    session starts unauthenticated, with nothing written. *)
Theorem constructor_never_falsy (options : ClassOptions) :
  let t := constructor options in
  host t <> ""
  /\ port t <> 0
  /\ maximumPacketSize t <> 0
  /\ encoding t <> ""
  /\ timeout t <> 0
  /\ remote_host (connection t) = host t
  /\ remote_port (connection t) = port t
  /\ idle_timeout (connection t) = Some (timeout t)
  /\ authenticated t = false
  /\ written (connection t) = [].
Proof.
  destruct options as [[[|c h]|] [[|p|p]|] [[|m|m]|] [[|c' e]|] [[|t|t]|]];
    cbv zeta; repeat split; discriminate.
Qed.

Section SizeLimit.
Variable encode : Z -> Z -> string -> string -> list byte.

(** X19: a negative size limit switches the size check off.  An object
    constructed with a negative [maximumPacketSize] keeps it, and on
    such an object no [write] is rejected with ['Packet too long'],
    however long the packet is. *)
Theorem negative_size_limit_disables_check
    (options : ClassOptions) (m type id : Z) (body : string) :
  opt_maximumPacketSize options = Some m ->
  m < 0 ->
  let s := new_SourceRCON options in
  let w := call_write encode type id body s in
  maximumPacketSize (self s) = m
  /\ write_state (fst w) (snd w) = Pending.
Proof.
  intros Hopt Hm. cbv zeta.
  assert (Hmax : maximumPacketSize (self (new_SourceRCON options)) = m).
  { destruct options as [h p mm e t]. cbn in Hopt. subst mm.
    cbn. destruct m; [lia | lia | reflexivity]. }
  split; [exact Hmax|].
  unfold call_write. rewrite write_spec. cbn [fst snd].
  unfold fits. rewrite Hmax.
  replace (m >? 0) with false by (destruct m; [lia | lia | reflexivity]).
  cbn [andb negb]. unfold run_microtasks, write_state.
  reflexivity.
Qed.

End SizeLimit.

(** ** How a session becomes authenticated *)

Lemma same_writes_refl (s : State) : same_writes s s.
Proof. repeat split; auto. Qed.

Lemma same_writes_trans (a b c : State) :
  same_writes a b -> same_writes b c -> same_writes a c.
Proof.
  intros (H1 & H2 & H3) (G1 & G2 & G3). repeat split.
  - auto.
  - congruence.
  - intros p. now rewrite G3.
Qed.

Lemma same_writes_sound (s s' : State) :
  same_writes s s' -> listeners_sound s -> listeners_sound s'.
Proof.
  intros (H1 & H2 & H3) Hs l Hl. destruct (Hs l (H1 l Hl)) as [Hlt Ht].
  rewrite H2, H3. auto.
Qed.

Lemma same_writes_settle_write (p : nat) (outcome : settled) (s : State) :
  same_writes s (settle_write p outcome s).
Proof.
  repeat split.
  - now rewrite self_settle_write.
  - unfold settle_write.
    destruct (writes s !! p) as [[[] [k|]]|]; try reflexivity;
      cbn [writes set_writes set_microtasks]; apply length_insert.
  - intros p'. unfold auth_write.
    destruct (decide (p = p')) as [<-|Hne].
    + destruct (writes s !! p) as [[[] k]|] eqn:E.
      * now rewrite (writes_settle_write_pending p k).
      * rewrite writes_settle_write_settled
          by (unfold write_state; rewrite E; discriminate).
        now rewrite E.
      * rewrite writes_settle_write_settled
          by (unfold write_state; rewrite E; discriminate).
        now rewrite E.
      * unfold settle_write. now rewrite E, E.
    + now rewrite writes_settle_write_ne.
Qed.

Lemma same_writes_fold {A : Type} (f : State -> A -> State) (L : list A) (s : State) :
  (forall s' x, same_writes s' (f s' x)) ->
  same_writes s (fold_left f L s).
Proof.
  intros Hf.
  apply (fold_left_preserves f (same_writes s)); [|apply same_writes_refl].
  intros s' x H. eapply same_writes_trans; [exact H | apply Hf].
Qed.

Lemma same_writes_run_microtasks (s : State) : same_writes s (run_microtasks s).
Proof.
  destruct (run_microtasks_frame s) as (Hw & _ & Hd & _).
  repeat split.
  - now rewrite Hd.
  - now rewrite Hw.
  - intros p. unfold auth_write. now rewrite Hw.
Qed.

Lemma same_writes_emit_close (s : State) : same_writes s (emit_close s).
Proof.
  rewrite emit_close_fold.
  destruct (close_fold_frame (close_listeners (connection (self s))) s)
    as (Hw & _ & _ & _ & Hd).
  repeat split.
  - now rewrite Hd.
  - now rewrite Hw.
  - intros p. unfold auth_write. now rewrite Hw.
Qed.

Lemma same_writes_error_step (e : error) (s : State) (l : ErrorListener) :
  same_writes s (error_step e s l).
Proof.
  destruct l as [p|p]; unfold error_step, onError, disconnect_onError; cbv zeta.
  - eapply same_writes_trans; [|apply same_writes_settle_write].
    repeat split; auto.
    cbn [self with_connection with_self connection set_connection
         remove_error remove_data set_error_listeners set_data_listeners
         data_listeners].
    intros l H. apply filter_In in H. tauto.
  - repeat split; auto.
Qed.

Lemma same_writes_emit_error (e : error) (s : State) :
  same_writes s (emit_error e s).
Proof.
  rewrite emit_error_fold. apply same_writes_fold.
  intros s' l. apply same_writes_error_step.
Qed.

Lemma same_writes_disconnect (s : State) : same_writes s (snd (disconnect s)).
Proof. repeat split; auto. Qed.

Section AuthenticationData.
Variable decode : list byte -> string -> Packet.DecodedPacket.

Lemma same_writes_onData (l : DataListener) (packet : list byte) (s : State) :
  same_writes s (onData decode l packet s).
Proof.
  split; [intros l'; apply onData_listeners_incl|].
  destruct (onData_cases decode l packet s)
    as [(_ & _ & ->)|[(_ & _ & ->)|(_ & ->)]].
  - apply same_writes_settle_write.
  - apply (same_writes_settle_write (od_write l) _ s).
  - apply (same_writes_settle_write (od_write l) _
             (with_connection (remove_data (od_write l)) s)).
Qed.

Lemma same_writes_emit_data (packet : list byte) (s : State) :
  same_writes s (emit_data decode packet s).
Proof.
  unfold emit_data. apply same_writes_fold.
  intros s' l. apply same_writes_onData.
Qed.

(** *** The continuations *)

Lemma run_reaction_authenticated (k : reaction) (outcome : settled) (s : State) :
  no_success [(k, outcome)] ->
  authenticated (self (run_reaction k outcome s)) = true ->
  authenticated (self s) = true.
Proof.
  intros Hno. destruct k as [p|p], outcome as [|v|e]; cbn [run_reaction]; auto.
  rewrite (Hno p v) by now left. cbv zeta. intros H. discriminate H.
Qed.

Lemma run_microtasks_authenticated (s : State) :
  no_success (microtasks s) ->
  authenticated (self (run_microtasks s)) = true ->
  authenticated (self s) = true.
Proof.
  unfold run_microtasks.
  change (authenticated (self s))
    with (authenticated (self (set_microtasks [] s))).
  generalize (set_microtasks [] s). generalize (microtasks s).
  intros L. induction L as [|[k o] L IH]; intros s' Hno; cbn [fold_left]; auto.
  intros H. apply IH in H.
  - cbn [fst snd] in H. apply run_reaction_authenticated in H; [exact H|].
    intros p v [Heq|[]]. apply (Hno p v). now left.
  - intros p v Hin. apply (Hno p v). now right.
Qed.

Lemma no_success_nil : no_success [].
Proof. intros p v []. Qed.

Lemma no_success_app (a b : list (reaction * settled)) :
  no_success a -> no_success b -> no_success (a ++ b).
Proof.
  intros Ha Hb p v H. apply in_app_or in H. destruct H; eauto.
Qed.

Lemma no_success_rejected (e : error) (ms : list (reaction * settled)) :
  (forall m, In m ms -> snd m = Rejected e) -> no_success ms.
Proof.
  intros H p v Hin. apply H in Hin. discriminate Hin.
Qed.

(** *** A buffer that is not an accepted authentication *)

Lemma onData_no_success (l : DataListener) (packet : list byte) (s : State) :
  ~ accepted decode packet (encoding (self s)) ->
  (auth_write (od_write l) s = true -> od_type l = Protocol.SERVERDATA_AUTH) ->
  no_success (microtasks s) ->
  no_success (microtasks (onData decode l packet s)).
Proof.
  intros Hnot Hl Hno.
  assert (Hfailed : forall X,
             microtasks X = microtasks s -> writes X = writes s ->
             no_success
               (microtasks
                  (settle_write (od_write l) (Fulfilled (str "failed")) X))).
  { intros X HX HW. rewrite microtasks_settle_write, HX.
    apply no_success_app; [exact Hno|].
    destruct (writes X !! od_write l) as [[[] [k|]]|]; try apply no_success_nil.
    intros p v [H|[]]. injection H as _ <-. reflexivity. }
  destruct (onData_cases decode l packet s)
    as [(_ & _ & ->)|[(_ & Hr & ->)|(Ht & ->)]].
  - now apply Hfailed.
  - cbn [microtasks with_connection with_self].
    destruct (Z.eqb_spec (Packet.id (decode packet (encoding (self s)))) (-1))
      as [Hid|Hid]; cbn [negb].
    + now apply Hfailed.
    + elim Hnot. split; assumption.
  - cbn [microtasks with_connection with_self].
    rewrite microtasks_settle_write.
    apply no_success_app; [exact Hno|].
    cbn [writes with_connection with_self].
    unfold auth_write in Hl.
    destruct (writes s !! od_write l) as [[[] [[p|p]|]]|];
      try apply no_success_nil.
    + elim Ht. now apply Hl.
    + intros p' v [H|[]]. discriminate H.
Qed.

Lemma onData_authenticated (l : DataListener) (packet : list byte) (s : State) :
  authenticated (self (onData decode l packet s)) = authenticated (self s).
Proof.
  destruct (onData_cases decode l packet s)
    as [(_ & _ & ->)|[(_ & _ & ->)|(_ & ->)]];
    cbn [self with_connection with_self authenticated set_connection];
    now rewrite self_settle_write.
Qed.

Lemma emit_data_no_success (packet : list byte) (s : State) :
  ~ accepted decode packet (encoding (self s)) ->
  listeners_sound s ->
  microtasks s = [] ->
  no_success (microtasks (emit_data decode packet s))
  /\ authenticated (self (emit_data decode packet s)) = authenticated (self s).
Proof.
  intros Hnot Hs Hm. unfold emit_data.
  assert (HL : forall l,
             In l (data_listeners (connection (self s))) ->
             auth_write (od_write l) s = true ->
             od_type l = Protocol.SERVERDATA_AUTH)
    by (intros l Hl; apply (Hs l Hl)).
  assert (H0 : no_success (microtasks s)) by (rewrite Hm; apply no_success_nil).
  clear Hs Hm.
  assert (G : forall L s',
             (forall l, In l L ->
                        auth_write (od_write l) s' = true ->
                        od_type l = Protocol.SERVERDATA_AUTH) ->
             ~ accepted decode packet (encoding (self s')) ->
             no_success (microtasks s') ->
             no_success
               (microtasks (fold_left (fun s l => onData decode l packet s) L s'))
             /\ authenticated
                  (self (fold_left (fun s l => onData decode l packet s) L s'))
                = authenticated (self s')).
  { induction L as [|l L IH]; intros s' HL' Hn' Hno'; cbn [fold_left];
      [split; [exact Hno' | reflexivity]|].
    destruct (same_writes_onData l packet s') as (_ & _ & Haw).
    destruct (IH (onData decode l packet s')) as [G1 G2].
    - intros l' Hl'. rewrite Haw. apply HL'. now right.
    - now rewrite onData_encoding.
    - apply onData_no_success; auto. apply HL'. now left.
    - split; [exact G1|]. now rewrite G2, onData_authenticated. }
  now apply G.
Qed.

End AuthenticationData.

Section Authentication.
Variable encode : Z -> Z -> string -> string -> list byte.
Variable decode : list byte -> string -> Packet.DecodedPacket.
Variable ID_AUTH : Z.

(** *** The calls, before their continuations run *)

(** A state that differs from [s] by one more handler and one more
    promise of a [write]. *)
Lemma sound_extend
    (s : State) (t' : SourceRCON) (l0 : DataListener) (wp : WritePromise)
    (cs : list settled) (ms : list (reaction * settled)) :
  listeners_sound s ->
  data_listeners (connection t')
  = data_listeners (connection (self s)) ++ [l0] ->
  od_write l0 = length (writes s) ->
  (forall st p, wp = mkWritePromise st (Some (AuthReaction p)) ->
                od_type l0 = Protocol.SERVERDATA_AUTH) ->
  listeners_sound (mkState t' cs (writes s ++ [wp]) ms).
Proof.
  intros Hs Hd Hw Hwp l Hl. cbn [self writes] in *. rewrite Hd in Hl.
  rewrite length_app. cbn [length]. unfold auth_write. cbn [writes].
  apply in_app_or in Hl. destruct Hl as [Hl|[<-|[]]].
  - destruct (Hs l Hl) as [Hlt Ht]. split; [lia|].
    rewrite lookup_app_l by exact Hlt. exact Ht.
  - split; [lia|]. rewrite Hw, lookup_end.
    destruct wp as [st [[p|p]|]]; try discriminate. intros _. eauto.
Qed.

Lemma write_facts (type id : Z) (body : string) (s : State) :
  let s' := snd (write encode type id body s) in
  authenticated (self s') = authenticated (self s)
  /\ microtasks s' = microtasks s
  /\ (listeners_sound s -> listeners_sound s').
Proof.
  cbv zeta. rewrite write_spec. cbn [snd self microtasks].
  split; [reflexivity|]. split; [reflexivity|].
  intros Hs.
  apply (sound_extend s _ (mkDataListener (length (writes s)) type ""));
    try reflexivity; [exact Hs|].
  intros st p H. destruct (fits _ _ _ _ _); discriminate H.
Qed.

Lemma write_then_facts
    (type id : Z) (body : string) (k : reaction) (s : State) :
  let s' :=
    then_ (fst (write encode type id body s)) k
      (snd (write encode type id body s)) in
  authenticated (self s') = authenticated (self s)
  /\ (no_success (microtasks s) -> no_success (microtasks s'))
  /\ (listeners_sound s ->
      (forall p, k = AuthReaction p -> type = Protocol.SERVERDATA_AUTH) ->
      listeners_sound s').
Proof.
  cbv zeta. rewrite write_then_spec. cbn [self microtasks].
  split; [reflexivity|]. split.
  - intros Hno. apply no_success_app; [exact Hno|].
    destruct (fits _ _ _ _ _); [apply no_success_nil|].
    intros p v [H|[]]. discriminate H.
  - intros Hs Hk.
    apply (sound_extend s _ (mkDataListener (length (writes s)) type ""));
      try reflexivity; [exact Hs|].
    intros st p H. destruct (fits _ _ _ _ _); [|discriminate H].
    injection H as _ ->. cbn [od_type]. eauto.
Qed.

Lemma authenticate_facts (password : string) (s : State) :
  let s' := snd (authenticate encode ID_AUTH password s) in
  authenticated (self s') = authenticated (self s)
  /\ (no_success (microtasks s) -> no_success (microtasks s'))
  /\ (listeners_sound s -> listeners_sound s').
Proof.
  cbv zeta. unfold authenticate, new_call. cbv beta iota zeta.
  set (s0 := set_calls (calls s ++ [Pending]) s).
  match goal with
  | |- context [write encode _ _ _ ?x] => set (X := x)
  end.
  assert (HX : authenticated (self X) = authenticated (self s)
               /\ microtasks X = microtasks s
               /\ (listeners_sound s -> listeners_sound X))
    by (subst X; destruct (authenticated (self s0));
        (split; [reflexivity|split; [reflexivity|intros Hsound; exact Hsound]])).
  destruct HX as (X1 & X2 & X3).
  pair_out. cbn [snd].
  destruct (write_then_facts Protocol.SERVERDATA_AUTH ID_AUTH password
              (AuthReaction (length (calls s))) X) as (H1 & H2 & H3).
  split; [congruence|]. split.
  - rewrite <- X2. exact H2.
  - intros Hs. apply H3; [now apply X3 | reflexivity].
Qed.

Lemma q_start_facts (s : State) :
  let s' := q_start encode s in
  authenticated (self s') = authenticated (self s)
  /\ (no_success (microtasks s) -> no_success (microtasks s'))
  /\ (listeners_sound s -> listeners_sound s').
Proof.
  cbv zeta. unfold q_start.
  destruct (running (q (self s))); [auto|].
  destruct (jobs (q (self s))) as [|j rest]; [auto|].
  unfold run_job. pair_out.
  match goal with
  | |- context [write encode ?ty ?i ?b ?X] =>
      destruct (write_then_facts ty i b (ExecReaction (job_call j)) X)
        as (H1 & H2 & H3)
  end.
  split; [rewrite H1; reflexivity|]. split; [exact H2|].
  intros Hs. apply H3; [exact Hs|]. intros p H. discriminate H.
Qed.

Lemma execute_facts (r : spec_float) (command : string) (s : State) :
  let s' := snd (execute encode r command s) in
  authenticated (self s') = authenticated (self s)
  /\ (no_success (microtasks s) -> no_success (microtasks s'))
  /\ (listeners_sound s -> listeners_sound s').
Proof.
  cbv zeta. unfold execute, new_call, q_push. cbv beta iota zeta. cbn [snd].
  match goal with
  | |- context [q_start encode ?x] => set (X := x)
  end.
  assert (HX : authenticated (self X) = authenticated (self s)
               /\ microtasks X = microtasks s
               /\ (listeners_sound s -> listeners_sound X))
    by (subst X;
        destruct (negb (writable _)), (negb (authenticated _));
        (split; [reflexivity|split; [reflexivity|intros Hsound; exact Hsound]])).
  destruct HX as (X1 & X2 & X3).
  destruct (q_start_facts X) as (H1 & H2 & H3).
  split; [congruence|]. split.
  - rewrite <- X2. exact H2.
  - intros Hs. apply H3. now apply X3.
Qed.

Lemma job_over_facts (s : State) :
  let s' :=
    q_start encode (with_self (set_q (mkQueue (jobs (q (self s))) false)) s) in
  authenticated (self s') = authenticated (self s)
  /\ (no_success (microtasks s) -> no_success (microtasks s'))
  /\ (listeners_sound s -> listeners_sound s').
Proof.
  cbv zeta.
  match goal with
  | |- context [q_start encode ?X] =>
      destruct (q_start_facts X) as (H1 & H2 & H3)
  end.
  split; [rewrite H1; reflexivity|]. split; [exact H2|].
  intros Hs. apply H3. exact Hs.
Qed.

(** *** One turn *)

Lemma turn_sound (ev : Event) (s : State) :
  listeners_sound s ->
  microtasks s = [] ->
  listeners_sound (turn encode decode ID_AUTH ev s)
  /\ microtasks (turn encode decode ID_AUTH ev s) = [].
Proof.
  intros Hs Hm.
  assert (Hrun : forall b,
             listeners_sound b ->
             listeners_sound (run_microtasks b)
             /\ microtasks (run_microtasks b) = []).
  { intros b Hb. split.
    - exact (same_writes_sound _ _ (same_writes_run_microtasks b) Hb).
    - apply run_microtasks_frame. }
  destruct ev; cbn [turn].
  - unfold call_authenticate. pair_out. cbn [snd]. apply Hrun.
    now apply authenticate_facts.
  - unfold call_execute. pair_out. cbn [snd]. apply Hrun.
    now apply execute_facts.
  - unfold call_write. pair_out. cbn [snd]. apply Hrun.
    now apply write_facts.
  - unfold call_disconnect. pair_out. cbn [snd]. apply Hrun.
    exact (same_writes_sound _ _ (same_writes_disconnect s) Hs).
  - unfold deliver. apply Hrun.
    exact (same_writes_sound _ _ (same_writes_emit_data decode packet s) Hs).
  - unfold socket_error. apply Hrun.
    exact (same_writes_sound _ _ (same_writes_emit_error e s) Hs).
  - unfold socket_close. apply Hrun.
    exact (same_writes_sound _ _ (same_writes_emit_close s) Hs).
  - unfold job_over. cbv zeta. apply Hrun.
    now apply job_over_facts.
Qed.

Lemma history_sound (evs : list Event) (s : State) :
  listeners_sound s ->
  microtasks s = [] ->
  listeners_sound (history encode decode ID_AUTH evs s)
  /\ microtasks (history encode decode ID_AUTH evs s) = [].
Proof.
  revert s. induction evs as [|ev evs IH]; intros s Hs Hm; [auto|].
  cbn [history fold_left]. destruct (turn_sound ev s Hs Hm) as [Hs' Hm'].
  now apply IH.
Qed.

Lemma turn_authenticated (ev : Event) (s : State) :
  listeners_sound s ->
  microtasks s = [] ->
  authenticated (self (turn encode decode ID_AUTH ev s)) = true ->
  authenticated (self s) = true
  \/ (exists packet,
        ev = Data packet /\ accepted decode packet (encoding (self s))).
Proof.
  intros Hs Hm.
  assert (H0 : no_success (microtasks s)) by (rewrite Hm; apply no_success_nil).
  destruct ev; cbn [turn].
  - unfold call_authenticate. pair_out. cbn [snd]. intros H. left.
    destruct (authenticate_facts password s) as (H1 & H2 & _).
    apply run_microtasks_authenticated in H; [congruence | auto].
  - unfold call_execute. pair_out. cbn [snd]. intros H. left.
    destruct (execute_facts r command s) as (H1 & H2 & _).
    apply run_microtasks_authenticated in H; [congruence | auto].
  - unfold call_write. pair_out. cbn [snd]. intros H. left.
    destruct (write_facts type id body s) as (H1 & H2 & _).
    apply run_microtasks_authenticated in H; [congruence|].
    now rewrite H2.
  - unfold call_disconnect. pair_out. cbn [snd]. intros H. exfalso.
    apply run_microtasks_authenticated in H.
    + discriminate H.
    + change (microtasks (snd (disconnect s))) with (microtasks s). exact H0.
  - unfold deliver. intros H.
    destruct (Z.eqb_spec (Packet.type (decode packet (encoding (self s))))
                Protocol.SERVERDATA_AUTH_RESPONSE) as [Ht|Ht];
      [destruct (Z.eqb_spec (Packet.id (decode packet (encoding (self s))))
                  (-1)) as [Hi|Hi]|].
    + left.
      destruct (emit_data_no_success decode packet s) as [G1 G2];
        [intros [_ Hx]; contradiction | exact Hs | exact Hm |].
      apply run_microtasks_authenticated in H; [congruence | exact G1].
    + right. exists packet. split; [reflexivity | split; assumption].
    + left.
      destruct (emit_data_no_success decode packet s) as [G1 G2];
        [intros [Hx _]; contradiction | exact Hs | exact Hm |].
      apply run_microtasks_authenticated in H; [congruence | exact G1].
  - unfold socket_error. intros H. left.
    destruct (socket_error_rejecting e s Hm) as (_ & _ & HM & _).
    apply run_microtasks_authenticated in H;
      [|exact (no_success_rejected e _ HM)].
    rewrite emit_error_fold in H.
    destruct (error_fold_self e (error_listeners (connection (self s))) s)
      as [G _]. congruence.
  - unfold socket_close. intros H. left.
    rewrite emit_close_fold in H.
    destruct (close_fold_frame (close_listeners (connection (self s))) s)
      as (_ & G2 & G3 & _).
    apply run_microtasks_authenticated in H; [congruence|].
    rewrite G2. exact H0.
  - unfold job_over. cbv zeta. intros H. left.
    destruct (job_over_facts s) as (H1 & H2 & _).
    apply run_microtasks_authenticated in H; [congruence | auto].
Qed.

Lemma new_session_sound (options : ClassOptions) :
  listeners_sound (new_SourceRCON options)
  /\ microtasks (new_SourceRCON options) = [].
Proof. split; [intros l []|reflexivity]. Qed.

(** X20: only the server authenticates a session.  In every history of
    an object, whatever is called and whatever the socket delivers, the
    turn in which [authenticated] becomes true is the arrival of a
    buffer that decodes to an AUTH_RESPONSE packet with an id other
    than [-1].  No call, no error, no end of the connection, no timeout
    of the queue and no other buffer sets it. *)
Theorem authenticated_only_by_auth_response
    (options : ClassOptions) (evs : list Event) (ev : Event) :
  let s := history encode decode ID_AUTH evs (new_SourceRCON options) in
  authenticated (self s) = false ->
  authenticated (self (turn encode decode ID_AUTH ev s)) = true ->
  exists packet,
    ev = Data packet
    /\ Packet.type (decode packet (encoding (self s)))
       = Protocol.SERVERDATA_AUTH_RESPONSE
    /\ Packet.id (decode packet (encoding (self s))) <> -1.
Proof.
  cbv zeta. intros Hbefore Hafter.
  destruct (new_session_sound options) as [Hs0 Hm0].
  destruct (history_sound evs _ Hs0 Hm0) as [Hs Hm].
  destruct (turn_authenticated ev _ Hs Hm Hafter) as [H|(packet & -> & Ht & Hi)].
  - congruence.
  - exists packet. auto.
Qed.

End Authentication.

(** ** What can settle a call *)

Lemma untouched_fresh (p : nat) (s : State) :
  untouched p s -> length (calls s) <> p.
Proof.
  intros (Ha & _). apply lookup_lt_Some in Ha. lia.
Qed.

Lemma untouched_new_call (p : nat) (s : State) :
  untouched p s -> untouched p (set_calls (calls s ++ [Pending]) s).
Proof.
  intros (Ha & Hd & He & Hf). repeat split; auto.
  cbn [calls set_calls]. now apply lookup_app_l_Some.
Qed.

Lemma untouched_settle_call (p p' : nat) (outcome : settled) (s : State) :
  p' <> p -> untouched p s -> untouched p (settle_call p' outcome s).
Proof.
  intros Hne (Ha & Hd & He & Hf). repeat split; auto.
  unfold settle_call. cbn [calls set_calls].
  now rewrite list_lookup_alter_ne.
Qed.

Lemma untouched_set_q (p : nat) (x : Queue) (s : State) :
  (forall j, In j (jobs x) -> job_call j <> p) ->
  untouched p s -> untouched p (with_self (set_q x) s).
Proof.
  intros Hx (Ha & Hd & He & Hf). repeat split; auto.
Qed.

Lemma untouched_disconnect (p : nat) (s : State) :
  untouched p s -> untouched p (snd (disconnect s)).
Proof.
  intros H. pose proof (untouched_fresh p s H) as Hfresh.
  destruct H as (Ha & Hd & He & Hf).
  unfold disconnect, new_call. cbv beta iota zeta. cbn [snd].
  repeat split; auto.
  - cbn [calls with_connection with_self set_calls].
    now apply lookup_app_l_Some.
  - cbn [self with_connection with_self connection set_connection
         once_error once_close set_error_listeners set_close_listeners
         close_listeners destroy set_authenticated calls set_calls].
    intros H. apply in_app_or in H. destruct H as [H|[H|[]]]; [auto|].
    injection H as H. auto.
Qed.

Lemma untouched_run_reaction
    (p : nat) (k : reaction) (outcome : settled) (s : State) :
  call_of k <> p -> untouched p s -> untouched p (run_reaction k outcome s).
Proof.
  intros Hk H. destruct k as [p'|p'], outcome as [|v|e]; cbn [run_reaction];
    cbn [call_of] in Hk; auto using untouched_settle_call.
  destruct (value_eqb v (str "success")); cbv zeta.
  - apply untouched_settle_call; [exact Hk|].
    destruct H as (Ha & Hd & He & Hf). repeat split; auto.
  - apply untouched_settle_call; [exact Hk|]. now apply untouched_disconnect.
Qed.

Lemma untouched_reactions (p : nat) (L : list (reaction * settled)) :
  forall s,
  (forall m, In m L -> call_of (fst m) <> p) ->
  untouched p s ->
  untouched p (fold_left (fun s m => run_reaction (fst m) (snd m) s) L s).
Proof.
  induction L as [|m L IH]; intros s HL H; cbn [fold_left]; [exact H|].
  apply IH; [intros m' Hm'; apply HL; now right|].
  apply untouched_run_reaction; [apply HL; now left | exact H].
Qed.

Lemma untouched_run_microtasks (p : nat) (s : State) :
  untouched p s ->
  untouched p (run_microtasks s) /\ microtasks (run_microtasks s) = [].
Proof.
  intros H. split; [|apply run_microtasks_frame].
  unfold run_microtasks. destruct H as (Ha & Hd & He & Hf).
  apply untouched_reactions; [exact He|].
  repeat split; auto.
Qed.

Lemma untouched_close_step (p : nat) (s : State) (l : CloseListener) :
  l <> DisconnectOnClose p -> untouched p s -> untouched p (close_step s l).
Proof.
  intros Hl (Ha & Hd & He & Hf). destruct l as [p'].
  assert (p' <> p) by congruence.
  unfold close_step, disconnect_onClose. cbv zeta.
  apply untouched_settle_call; [assumption|].
  repeat split; auto.
  cbn [self with_connection with_self connection set_connection
       remove_error remove_close set_error_listeners set_close_listeners
       close_listeners].
  intros Hin. apply filter_In in Hin. tauto.
Qed.

Lemma untouched_close_fold (p : nat) (L : list CloseListener) :
  forall s,
  ~ In (DisconnectOnClose p) L ->
  untouched p s ->
  untouched p (fold_left close_step L s).
Proof.
  induction L as [|l L IH]; intros s HL H; cbn [fold_left]; [exact H|].
  apply IH; [intros Hin; apply HL; now right|].
  apply untouched_close_step; [|exact H].
  intros ->. apply HL. now left.
Qed.

Lemma untouched_emit_close (p : nat) (s : State) :
  untouched p s -> untouched p (emit_close s).
Proof.
  intros H. rewrite emit_close_fold.
  apply untouched_close_fold; [apply H | exact H].
Qed.

Section Untouched.
Variable encode : Z -> Z -> string -> string -> list byte.
Variable decode : list byte -> string -> Packet.DecodedPacket.
Variable ID_AUTH : Z.

Lemma untouched_write (p : nat) (type id : Z) (body : string) (s : State) :
  untouched p s -> untouched p (snd (write encode type id body s)).
Proof.
  intros (Ha & Hd & He & Hf). rewrite write_spec. cbn [snd].
  repeat split; auto.
Qed.

Lemma untouched_write_then
    (p : nat) (type id : Z) (body : string) (k : reaction) (s : State) :
  call_of k <> p ->
  untouched p s ->
  untouched p
    (then_ (fst (write encode type id body s)) k
       (snd (write encode type id body s))).
Proof.
  intros Hk (Ha & Hd & He & Hf). rewrite write_then_spec.
  repeat split; auto.
  cbn [microtasks]. intros m Hm. apply in_app_or in Hm.
  destruct Hm as [Hm|Hm]; [auto|].
  destruct (fits _ _ _ _ _); [destruct Hm|].
  destruct Hm as [<-|[]]. exact Hk.
Qed.

Lemma untouched_authenticate (p : nat) (password : string) (s : State) :
  untouched p s -> untouched p (snd (authenticate encode ID_AUTH password s)).
Proof.
  intros H. pose proof (untouched_fresh p s H) as Hfresh.
  unfold authenticate, new_call. cbv beta iota zeta.
  match goal with
  | |- context [write encode _ _ _ ?x] => set (X := x)
  end.
  assert (HX : untouched p X).
  { subst X. destruct (authenticated _).
    - apply untouched_settle_call; [exact Hfresh|].
      now apply untouched_new_call.
    - now apply untouched_new_call. }
  pair_out. cbn [snd]. now apply untouched_write_then.
Qed.

Lemma untouched_q_start (p : nat) (s : State) :
  untouched p s -> untouched p (q_start encode s).
Proof.
  intros H. unfold q_start.
  destruct (running (q (self s))); [exact H|].
  destruct (jobs (q (self s))) as [|j rest] eqn:E; [exact H|].
  assert (Hj : job_call j <> p).
  { destruct H as (_ & _ & _ & Hf). apply Hf. rewrite E. now left. }
  unfold run_job. pair_out. apply untouched_write_then; [exact Hj|].
  apply untouched_set_q; [|exact H].
  cbn [jobs]. intros j' Hj'. destruct H as (_ & _ & _ & Hf).
  apply Hf. rewrite E. now right.
Qed.

Lemma untouched_q_push (p : nat) (j : Job) (s : State) :
  job_call j <> p -> untouched p s -> untouched p (q_push encode j s).
Proof.
  intros Hj H. unfold q_push. cbv zeta.
  apply untouched_q_start, untouched_set_q; [|exact H].
  cbn [jobs]. intros j' Hj'. apply in_app_or in Hj'.
  destruct Hj' as [Hj'|[<-|[]]]; [|exact Hj].
  destruct H as (_ & _ & _ & Hf). now apply Hf.
Qed.

Lemma untouched_execute
    (p : nat) (r : spec_float) (command : string) (s : State) :
  untouched p s -> untouched p (snd (execute encode r command s)).
Proof.
  intros H. pose proof (untouched_fresh p s H) as Hfresh.
  unfold execute, new_call. cbv beta iota zeta. cbn [snd].
  apply untouched_q_push; [exact Hfresh|].
  destruct (negb (writable _)), (negb (authenticated _));
    repeat (apply untouched_settle_call; [exact Hfresh|]);
    now apply untouched_new_call.
Qed.

Lemma untouched_turn (p : nat) (ev : Event) (s : State) :
  silent ev = true ->
  untouched p s ->
  untouched p (turn encode decode ID_AUTH ev s).
Proof.
  intros Hev H. destruct ev; try discriminate Hev; cbn [turn].
  - unfold call_authenticate. pair_out. cbn [snd].
    now apply untouched_run_microtasks, untouched_authenticate.
  - unfold call_execute. pair_out. cbn [snd].
    now apply untouched_run_microtasks, untouched_execute.
  - unfold call_write. pair_out. cbn [snd].
    now apply untouched_run_microtasks, untouched_write.
  - unfold call_disconnect. pair_out. cbn [snd].
    now apply untouched_run_microtasks, untouched_disconnect.
  - unfold socket_close.
    now apply untouched_run_microtasks, untouched_emit_close.
  - unfold job_over. cbv zeta.
    apply untouched_run_microtasks, untouched_q_start, untouched_set_q;
      [|exact H].
    cbn [jobs]. destruct H as (_ & _ & _ & Hf). exact Hf.
Qed.

Lemma untouched_history (p : nat) (evs : list Event) (s : State) :
  forallb silent evs = true ->
  untouched p s ->
  untouched p (history encode decode ID_AUTH evs s).
Proof.
  revert s. induction evs as [|ev evs IH]; intros s Hevs H; [exact H|].
  cbn [forallb] in Hevs. apply andb_true_iff in Hevs.
  destruct Hevs as [Hev Hevs]. cbn [history fold_left].
  apply IH; [exact Hevs|]. now apply untouched_turn.
Qed.

(** X21: a command has no timeout.  The session is authenticated, its
    socket writable, its queue idle, no ['close'] listener is registered
    (no [disconnect] is under way) and no continuation is pending; the
    packet of the command passes the size check of [write].  After
    [execute] the promise of the call then stays pending through every
    history that brings neither a buffer nor an error from the socket:
    further calls, [disconnect], the end of the connection and the
    timeout of the queue do not settle it. *)
Theorem command_has_no_timeout
    (r : spec_float) (command : string) (evs : list Event) (s : State) :
  authenticated (self s) = true ->
  writable (connection (self s)) = true ->
  q (self s) = mkQueue [] false ->
  close_listeners (connection (self s)) = [] ->
  microtasks s = [] ->
  fits encode Protocol.SERVERDATA_EXECCOMMAND (packetID r) command (self s)
    = true ->
  forallb silent evs = true ->
  let x := call_execute encode r command s in
  call_state (fst x) (history encode decode ID_AUTH evs (snd x)) = Pending.
Proof.
  intros Hauth Hwr Hq Hcl Hm Hfits Hevs. cbv zeta.
  rewrite call_execute_ready by assumption. cbn [fst snd].
  match goal with
  | |- call_state _ (history _ _ _ _ ?x) = _ =>
      assert (H : untouched (length (calls s)) x)
  end.
  { repeat split.
    - cbn [calls]. apply lookup_end.
    - cbn [self connection set_q set_connection socket_write once_error
           on_data set_error_listeners set_data_listeners close_listeners].
      rewrite Hcl. intros [].
    - intros m [].
    - intros j []. }
  apply (untouched_history _ evs) in H; [|exact Hevs].
  unfold call_state. destruct H as (-> & _). reflexivity.
Qed.

(** X22: an authentication has no timeout either.  The session is not
    authenticated, no job waits in its queue, no ['close'] listener is
    registered (no [disconnect] is under way) and no continuation is
    pending; the packet of the password passes the size check of
    [write].  After [authenticate] the promise of the call then stays
    pending through every history that brings neither a buffer nor an
    error from the socket. *)
Theorem authentication_has_no_timeout
    (password : string) (evs : list Event) (s : State) :
  authenticated (self s) = false ->
  jobs (q (self s)) = [] ->
  close_listeners (connection (self s)) = [] ->
  microtasks s = [] ->
  fits encode Protocol.SERVERDATA_AUTH ID_AUTH password (self s) = true ->
  forallb silent evs = true ->
  let a := call_authenticate encode ID_AUTH password s in
  call_state (fst a) (history encode decode ID_AUTH evs (snd a)) = Pending.
Proof.
  intros Hauth Hq Hcl Hm Hfits Hevs. cbv zeta.
  rewrite authenticate_pending by assumption. cbn [fst snd].
  match goal with
  | |- call_state _ (history _ _ _ _ ?x) = _ =>
      assert (H : untouched (length (calls s)) x)
  end.
  { repeat split.
    - cbn [calls]. apply lookup_end.
    - cbn [self connection set_connection socket_write once_error
           on_data set_error_listeners set_data_listeners close_listeners].
      rewrite Hcl. intros [].
    - intros m [].
    - cbn [self q set_connection]. rewrite Hq. intros j []. }
  apply (untouched_history _ evs) in H; [|exact Hevs].
  unfold call_state. destruct H as (-> & _). reflexivity.
Qed.

End Untouched.

(** ** The answer to a command *)

Lemma answering_settle_other
    (p w w' : nat) (v : value) (outcome : settled) (s : State) :
  w' <> w ->
  answering p w v s ->
  answering p w v (settle_write w' outcome s).
Proof.
  intros Hne [Hw Ho].
  assert (Hnew : forall m,
             In m (microtasks (settle_write w' outcome s)) ->
             In m (microtasks s) \/ call_of (fst m) <> p).
  { intros m. rewrite microtasks_settle_write. intros H.
    apply in_app_or in H. destruct H as [H|H]; [now left|].
    destruct (writes s !! w') as [[[] [k|]]|] eqn:E; try destruct H.
    - subst m. right. cbn [fst]. now apply (Ho w' k).
    - destruct H. }
  split.
  - destruct Hw as [[Hw Hm]|(Hw & Hin & Hm)]; [left|right].
    + split; [now rewrite writes_settle_write_ne|].
      intros m H. destruct (Hnew m H); auto.
    + split; [|split].
      * unfold write_state in *. now rewrite writes_settle_write_ne.
      * rewrite microtasks_settle_write. apply in_or_app. now left.
      * intros m H Hp. destruct (Hnew m H); [auto | contradiction].
  - intros w'' r Hne' H. destruct (decide (w' = w'')) as [<-|Hd].
    + destruct (writes s !! w') as [[[] k]|] eqn:E.
      * rewrite (writes_settle_write_pending w' k) in H by exact E.
        injection H as -> ->. now apply (Ho w' r).
      * rewrite writes_settle_write_settled in H
          by (unfold write_state; rewrite E; discriminate).
        congruence.
      * rewrite writes_settle_write_settled in H
          by (unfold write_state; rewrite E; discriminate).
        congruence.
      * unfold settle_write in H. rewrite E in H. congruence.
    + rewrite writes_settle_write_ne in H by exact Hd. now apply (Ho w'' r).
Qed.

Lemma answering_settle_own
    (p w : nat) (v : value) (s : State) :
  answering p w v s ->
  answering p w v (settle_write w (Fulfilled v) s).
Proof.
  intros [Hw Ho]. split.
  - right. destruct Hw as [[Hw Hm]|(Hw & Hin & Hm)].
    + split; [|split].
      * unfold write_state.
        rewrite (writes_settle_write_pending w _ _ _ Hw). discriminate.
      * rewrite microtasks_settle_write, Hw. apply in_or_app. right. now left.
      * intros m. rewrite microtasks_settle_write, Hw. intros H Hp.
        apply in_app_or in H. destruct H as [H|[<-|[]]]; [|reflexivity].
        now elim (Hm m H).
    + assert (E : settle_write w (Fulfilled v) s = s).
      { unfold settle_write, write_state in *.
        destruct (writes s !! w) as [[[] k]|]; try reflexivity. now elim Hw. }
      rewrite E. auto.
  - intros w' r Hne H. rewrite writes_settle_write_ne in H by congruence.
    now apply (Ho w' r).
Qed.

Lemma answering_with_connection
    (p w : nat) (v : value) (f : Connection -> Connection) (s : State) :
  answering p w v s -> answering p w v (with_connection f s).
Proof. intros H. exact H. Qed.

(** A continuation for another call leaves [p] as it is. *)
Lemma run_reaction_other
    (p : nat) (k : reaction) (outcome : settled) (s : State) :
  call_of k <> p ->
  (p < length (calls s))%nat ->
  calls (run_reaction k outcome s) !! p = calls s !! p
  /\ (p < length (calls (run_reaction k outcome s)))%nat.
Proof.
  intros Hk Hp.
  assert (Hsettle : forall o x,
             calls x !! p = calls s !! p ->
             (p < length (calls x))%nat ->
             calls (settle_call (call_of k) o x) !! p = calls s !! p
             /\ (p < length (calls (settle_call (call_of k) o x)))%nat).
  { intros o x Hx Hlt. unfold settle_call. cbn [calls set_calls].
    rewrite list_lookup_alter_ne by exact Hk.
    rewrite length_alter. auto. }
  destruct k as [p'|p'], outcome as [|v|e]; cbn [run_reaction call_of] in *;
    auto.
  destruct (value_eqb v (str "success")); cbv zeta.
  - apply (Hsettle _ (with_self (set_authenticated true) s)); auto.
  - apply (Hsettle _ (snd (disconnect s))).
    + unfold disconnect, new_call. cbv beta iota zeta. cbn [snd].
      cbn [calls with_connection with_self set_calls].
      now apply lookup_app_l.
    + unfold disconnect, new_call. cbv beta iota zeta. cbn [snd].
      cbn [calls with_connection with_self set_calls].
      rewrite length_app. lia.
Qed.

Lemma reactions_answer
    (p : nat) (v : value) (L : list (reaction * settled)) :
  forall s,
  (forall m, In m L -> call_of (fst m) = p -> m = (ExecReaction p, Fulfilled v)) ->
  calls s !! p = Some Pending \/ calls s !! p = Some (Fulfilled v) ->
  (calls (fold_left (fun s m => run_reaction (fst m) (snd m) s) L s) !! p
   = calls s !! p
   \/ calls (fold_left (fun s m => run_reaction (fst m) (snd m) s) L s) !! p
      = Some (Fulfilled v))
  /\ (In (ExecReaction p, Fulfilled v) L ->
      calls (fold_left (fun s m => run_reaction (fst m) (snd m) s) L s) !! p
      = Some (Fulfilled v)).
Proof.
  induction L as [|m L IH]; intros s HL Hc; cbn [fold_left].
  - split; [now left | intros []].
  - assert (Hlt : (p < length (calls s))%nat)
      by (destruct Hc as [Hc|Hc]; now apply lookup_lt_Some in Hc).
    assert (HL' : forall m', In m' L -> call_of (fst m') = p ->
                             m' = (ExecReaction p, Fulfilled v))
      by (intros m' Hm'; apply HL; now right).
    destruct (decide (call_of (fst m) = p)) as [Hp|Hp].
    + rewrite (HL m (or_introl eq_refl) Hp). cbn [fst snd run_reaction].
      assert (Hdone : calls (settle_call p (Fulfilled v) s) !! p
                      = Some (Fulfilled v)).
      { unfold settle_call. cbn [calls set_calls].
        rewrite list_lookup_alter_eq. destruct Hc as [-> | ->]; reflexivity. }
      destruct (IH (settle_call p (Fulfilled v) s) HL') as [G1 G2];
        [now right|].
      rewrite Hdone in G1.
      split; [right|intros _]; destruct G1 as [G1|G1]; exact G1.
    + destruct (run_reaction_other p (fst m) (snd m) s Hp Hlt) as [E _].
      destruct (IH (run_reaction (fst m) (snd m) s) HL') as [G1 G2];
        [now rewrite E|].
      rewrite E in G1. split; [exact G1|].
      intros [->|Hin]; [|now apply G2].
      now elim Hp.
Qed.

Section Answer.
Variable decode : list byte -> string -> Packet.DecodedPacket.

Lemma answering_onData
    (p : nat) (l a : DataListener) (packet : list byte) (s : State) :
  od_write a <> od_write l ->
  answering p (od_write l)
    (str (od_response l ++ Packet.body (decode packet (encoding (self s))))) s ->
  answering p (od_write l)
    (str (od_response l ++ Packet.body (decode packet (encoding (self s)))))
    (onData decode a packet s).
Proof.
  intros Hne H.
  destruct (onData_cases decode a packet s)
    as [(_ & _ & ->)|[(_ & _ & ->)|(_ & ->)]].
  - now apply answering_settle_other.
  - now apply answering_with_connection, answering_with_connection,
      answering_settle_other.
  - apply answering_with_connection.
    apply (answering_settle_other _ _ _ _ _
             (with_connection (remove_data (od_write a)) s)); auto.
Qed.

Lemma answering_onData_own
    (p : nat) (l : DataListener) (packet : list byte) (s : State) :
  od_type l <> Protocol.SERVERDATA_AUTH ->
  answering p (od_write l)
    (str (od_response l ++ Packet.body (decode packet (encoding (self s))))) s ->
  answering p (od_write l)
    (str (od_response l ++ Packet.body (decode packet (encoding (self s)))))
    (onData decode l packet s).
Proof.
  intros Ht H.
  destruct (onData_cases decode l packet s) as [(E & _)|[(E & _)|(_ & ->)]];
    try contradiction.
  apply answering_with_connection.
  apply (answering_settle_own _ _ _
           (with_connection (remove_data (od_write l)) s)); auto.
Qed.

Lemma answering_done (p w : nat) (v : value) (s : State) :
  answering p w v s ->
  write_state w s <> Pending ->
  In (ExecReaction p, Fulfilled v) (microtasks s)
  /\ (forall m, In m (microtasks s) ->
                call_of (fst m) = p -> m = (ExecReaction p, Fulfilled v)).
Proof.
  intros [[[Hw _]|(_ & Hin & Hm)] _] Hdone; [|auto].
  unfold write_state in Hdone. rewrite Hw in Hdone. now elim Hdone.
Qed.

Lemma emit_data_answering
    (p : nat) (l : DataListener) (packet : list byte) (enc : string)
    (L : list DataListener) :
  forall s,
  encoding (self s) = enc ->
  (forall l', In l' L -> od_write l' = od_write l -> l' = l) ->
  od_type l <> Protocol.SERVERDATA_AUTH ->
  answering p (od_write l)
    (str (od_response l ++ Packet.body (decode packet enc))) s ->
  answering p (od_write l)
    (str (od_response l ++ Packet.body (decode packet enc)))
    (fold_left (fun s l => onData decode l packet s) L s)
  /\ calls (fold_left (fun s l => onData decode l packet s) L s) = calls s.
Proof.
  induction L as [|a L IH]; intros s Henc Huniq Ht H; cbn [fold_left];
    [auto|].
  assert (Hcalls : calls (onData decode a packet s) = calls s).
  { destruct (onData_cases decode a packet s)
      as [(_ & _ & ->)|[(_ & _ & ->)|(_ & ->)]];
      cbn [calls with_connection with_self]; rewrite calls_settle_write;
      reflexivity. }
  destruct (IH (onData decode a packet s)) as [G1 G2].
  - now rewrite onData_encoding.
  - intros l' Hl'. apply Huniq. now right.
  - exact Ht.
  - subst enc. destruct (decide (od_write a = od_write l)) as [Heq|Hne].
    + assert (a = l) by (apply Huniq; [now left | exact Heq]). subst a.
      now apply answering_onData_own.
    + now apply answering_onData.
  - split; [exact G1 | congruence].
Qed.

(** The first buffer answers a pending command: the promise of the call
    is fulfilled with its body. *)
Lemma data_answers_command
    (p : nat) (l : DataListener) (packet : list byte) (s : State) :
  microtasks s = [] ->
  In l (data_listeners (connection (self s))) ->
  (forall l', In l' (data_listeners (connection (self s))) ->
              od_write l' = od_write l -> l' = l) ->
  od_type l <> Protocol.SERVERDATA_AUTH ->
  writes s !! od_write l = Some (mkWritePromise Pending (Some (ExecReaction p))) ->
  calls s !! p = Some Pending ->
  (forall w' r,
     w' <> od_write l ->
     writes s !! w' = Some (mkWritePromise Pending (Some r)) ->
     call_of r <> p) ->
  call_state p (deliver decode packet s)
  = Fulfilled
      (str (od_response l ++ Packet.body (decode packet (encoding (self s))))).
Proof.
  intros Hm Hin Huniq Ht Hw Hc Ho.
  set (v := str (od_response l ++ Packet.body (decode packet (encoding (self s))))).
  assert (H0 : answering p (od_write l) v s).
  { split; [left; split; [exact Hw|]|exact Ho]. rewrite Hm. intros m []. }
  destruct (emit_data_answering p l packet (encoding (self s))
              (data_listeners (connection (self s))) s eq_refl Huniq Ht H0)
    as [H1 Hcalls].
  fold (emit_data decode packet s) in H1, Hcalls.
  assert (Hdone : write_state (od_write l) (emit_data decode packet s)
                  <> Pending).
  { unfold emit_data.
    rewrite (emit_data_resolves decode packet l _ _ s Hin Huniq Ht Hw).
    discriminate. }
  destruct (answering_done _ _ _ _ H1 Hdone) as [Hq Honly].
  unfold deliver, run_microtasks, call_state.
  destruct (reactions_answer p v (microtasks (emit_data decode packet s))
              (set_microtasks [] (emit_data decode packet s)) Honly)
    as [_ G].
  - cbn [calls set_microtasks]. rewrite Hcalls. now left.
  - now rewrite (G Hq).
Qed.

End Answer.

Section LateAnswer.
Variable encode : Z -> Z -> string -> string -> list byte.
Variable decode : list byte -> string -> Packet.DecodedPacket.

Lemma call_execute_busy (r : spec_float) (command : string) (s : State) :
  authenticated (self s) = true ->
  writable (connection (self s)) = true ->
  running (q (self s)) = true ->
  microtasks s = [] ->
  call_execute encode r command s =
    (length (calls s),
     {| self :=
          set_q
            (mkQueue
               (jobs (q (self s))
                  ++ [mkJob (packetID r) command (length (calls s))])
               true)
            (self s);
        calls := calls s ++ [Pending];
        writes := writes s;
        microtasks := [] |}).
Proof.
  destruct s as [t cs ws ms]. projs. intros Hauth Hwr Hrun ->.
  unfold call_execute, execute, new_call. heap. rewrite Hwr. projs.
  rewrite Hauth. projs.
  unfold q_push, q_start. heap. rewrite Hrun. projs.
  unfold run_microtasks. heap. now rewrite Hauth.
Qed.

Lemma job_over_next (j : Job) (rest : list Job) (b : bool) (s : State) :
  q (self s) = mkQueue (j :: rest) b ->
  microtasks s = [] ->
  fits encode Protocol.SERVERDATA_EXECCOMMAND (job_packetID j) (job_command j)
    (self s) = true ->
  job_over encode s =
    {| self :=
         set_connection
           (socket_write
              (encode Protocol.SERVERDATA_EXECCOMMAND (job_packetID j)
                 (job_command j) (encoding (self s)))
              (once_error (WriteOnError (length (writes s)))
                 (on_data
                    (mkDataListener (length (writes s))
                       Protocol.SERVERDATA_EXECCOMMAND "")
                    (connection (self s)))))
           (set_q (mkQueue rest true) (self s));
       calls := calls s;
       writes :=
         writes s ++ [mkWritePromise Pending (Some (ExecReaction (job_call j)))];
       microtasks := [] |}.
Proof.
  destruct s as [t cs ws ms]. projs. intros Hq -> Hfits.
  unfold job_over, q_start. heap. rewrite Hq. heap.
  unfold run_job. pair_out. rewrite write_then_spec. projs.
  change (fits encode Protocol.SERVERDATA_EXECCOMMAND (job_packetID j)
            (job_command j) _)
    with (fits encode Protocol.SERVERDATA_EXECCOMMAND (job_packetID j)
            (job_command j) t).
  rewrite Hfits. unfold run_microtasks. heap. reflexivity.
Qed.

(** X23: an answer that is late reaches two commands.  The session is
    authenticated and at rest: its socket is writable, its queue idle,
    no data listener is registered, no continuation is pending and every
    earlier [write] is settled; the packets of both commands pass the
    size check of [write].  A first [execute] sends its packet and a
    second one waits in the queue.  When the timeout of the queue ends
    the first job before any buffer has arrived, the second packet is
    sent, and the next buffer fulfils the promises of both calls with
    the same body, the decoded body of that buffer. *)
Theorem late_answer_reaches_two_commands
    (r1 r2 : spec_float) (command1 command2 : string) (answer : list byte)
    (s : State) :
  authenticated (self s) = true ->
  writable (connection (self s)) = true ->
  q (self s) = mkQueue [] false ->
  data_listeners (connection (self s)) = [] ->
  microtasks s = [] ->
  (forall w wp, writes s !! w = Some wp -> w_state wp <> Pending) ->
  fits encode Protocol.SERVERDATA_EXECCOMMAND (packetID r1) command1 (self s)
    = true ->
  fits encode Protocol.SERVERDATA_EXECCOMMAND (packetID r2) command2 (self s)
    = true ->
  let x1 := call_execute encode r1 command1 s in
  let x2 := call_execute encode r2 command2 (snd x1) in
  let s3 := job_over encode (snd x2) in
  let s4 := deliver decode answer s3 in
  let packet1 :=
    encode Protocol.SERVERDATA_EXECCOMMAND (packetID r1) command1
      (encoding (self s)) in
  let packet2 :=
    encode Protocol.SERVERDATA_EXECCOMMAND (packetID r2) command2
      (encoding (self s)) in
  fst x1 <> fst x2
  /\ written (connection (self (snd x2)))
     = written (connection (self s)) ++ [packet1]
  /\ written (connection (self s3))
     = (written (connection (self s)) ++ [packet1]) ++ [packet2]
  /\ call_state (fst x1) s4
     = Fulfilled (str (Packet.body (decode answer (encoding (self s)))))
  /\ call_state (fst x2) s4
     = Fulfilled (str (Packet.body (decode answer (encoding (self s))))).
Proof.
  intros Hauth Hwr Hq Hdata Hm Hsettled Hf1 Hf2. cbv zeta.
  rewrite (call_execute_ready encode r1 command1 s) by assumption.
  cbn [fst snd].
  rewrite call_execute_busy by reflexivity || assumption.
  cbn [fst snd].
  rewrite (job_over_next (mkJob (packetID r2) command2
                            (length (calls s ++ [Pending]))) [] true)
    by (try reflexivity; exact Hf2).
  destruct s as [t cs ws ms]. cbn [self calls writes microtasks] in *.
  subst ms.
  cbn [self calls writes microtasks job_call job_packetID job_command
       connection set_connection set_q written socket_write once_error on_data
       set_error_listeners set_data_listeners encoding].
  split; [rewrite length_app; cbn [length]; lia|].
  split; [reflexivity|]. split; [reflexivity|].
  match goal with
  | |- context [deliver decode answer ?x] => set (s3 := x)
  end.
  set (l1 := mkDataListener (length ws) Protocol.SERVERDATA_EXECCOMMAND "").
  set (l2 := mkDataListener
               (length (ws ++ [mkWritePromise Pending
                                 (Some (ExecReaction (length cs)))]))
               Protocol.SERVERDATA_EXECCOMMAND "").
  assert (HDL : data_listeners (connection (self s3)) = [l1; l2]).
  { unfold s3. cbn [self connection set_connection set_q socket_write
                    once_error on_data set_error_listeners set_data_listeners
                    data_listeners writes]. now rewrite Hdata. }
  assert (Hids : od_write l1 <> od_write l2).
  { unfold l1, l2. cbn [od_write]. rewrite length_app. cbn [length]. lia. }
  assert (Hw3 : writes s3
                = (ws ++ [mkWritePromise Pending (Some (ExecReaction (length cs)))])
                    ++ [mkWritePromise Pending
                          (Some (ExecReaction (length (cs ++ [Pending]))))])
    by reflexivity.
  assert (Hc3 : calls s3 = (cs ++ [Pending]) ++ [Pending]) by reflexivity.
  assert (Hother : forall w' st r,
             writes s3 !! w' = Some (mkWritePromise st (Some r)) ->
             st = Pending ->
             (w' = od_write l1 /\ r = ExecReaction (length cs))
             \/ (w' = od_write l2 /\ r = ExecReaction (length (cs ++ [Pending])))).
  { intros w' st r H ->. rewrite Hw3 in H.
    apply lookup_snoc_Some in H. destruct H as [[_ H]|[H1 H2]].
    - apply lookup_snoc_Some in H. destruct H as [[_ H]|[H1 H2]].
      + apply Hsettled in H. now elim H.
      + left. split; [exact H1 | congruence].
    - right. split; [exact H1 | congruence]. }
  split.
  - change (encoding t) with (encoding (self s3)).
    apply (data_answers_command decode (length cs) l1 answer s3).
    + reflexivity.
    + rewrite HDL. now left.
    + rewrite HDL. intros l' [<-|[<-|[]]] H; [reflexivity | congruence].
    + discriminate.
    + rewrite Hw3. apply lookup_before_end.
    + rewrite Hc3. apply lookup_before_end.
    + intros w' r Hne H.
      destruct (Hother w' _ r H eq_refl) as [[H1 _]|[_ ->]]; [contradiction|].
      cbn [call_of]. rewrite length_app. cbn [length]. lia.
  - change (encoding t) with (encoding (self s3)).
    apply (data_answers_command decode (length (cs ++ [Pending])) l2 answer s3).
    + reflexivity.
    + rewrite HDL. right. now left.
    + rewrite HDL. intros l' [<-|[<-|[]]] H; [congruence | reflexivity].
    + discriminate.
    + rewrite Hw3. apply lookup_end.
    + rewrite Hc3. apply lookup_end.
    + intros w' r Hne H.
      destruct (Hother w' _ r H eq_refl) as [[_ ->]|[H1 _]]; [|contradiction].
      cbn [call_of]. rewrite length_app. cbn [length]. lia.
Qed.

End LateAnswer.

(** ** The properties on concrete sessions *)

(** X6 at work: [execute] on a new session, whose socket is
    writable and which is not authenticated. *)
Lemma execute_guards_reject_first_witness :
  let x :=
    call_execute byte_encode draw_zero "status" (new_SourceRCON no_options) in
  call_state (fst x) (snd x) = Rejected (Error "Unable to authenticate").
Proof.
  cbv zeta.
  apply (execute_guards_reject_first byte_encode draw_zero "status"
           (new_SourceRCON no_options)); reflexivity.
Defined.

(** X7 at work: a command on the session at rest, and a
    connection reset. *)
Lemma execute_socket_error_witness :
  let x := call_execute byte_encode draw_zero "status" session_at_rest in
  call_state (fst x) (socket_error (Error "ECONNRESET") (snd x))
  = Rejected (Error "ECONNRESET").
Proof.
  cbv zeta.
  apply (execute_socket_error byte_encode draw_zero "status"
           (Error "ECONNRESET") session_at_rest);
    vm_compute; reflexivity.
Defined.

(** X8 at work: [authenticate] on a new session, and a
    connection reset. *)
Lemma authenticate_socket_error_witness :
  let a := call_authenticate byte_encode 7 "pw" (new_SourceRCON no_options) in
  let s' := socket_error (Error "ECONNRESET") (snd a) in
  call_state (fst a) s' = Rejected (Error "ECONNRESET")
  /\ authenticated (self s') = false.
Proof.
  cbv zeta.
  destruct (authenticate_socket_error byte_encode 7 "pw" (Error "ECONNRESET")
              (new_SourceRCON no_options) eq_refl eq_refl eq_refl eq_refl)
    as (H1 & H2 & _).
  split; [exact H1 | exact H2].
Defined.

(** X9 at work: the default options, the password ["pw"], the
    command ["status"] and the answer ["ok"]. *)
Lemma handshake_then_command_witness :
  let granted := byte_encode Protocol.SERVERDATA_AUTH_RESPONSE 7 "" "ascii" in
  let answer := byte_encode Protocol.SERVERDATA_RESPONSE_VALUE 1 "ok" "ascii" in
  let a := call_authenticate byte_encode 7 "pw" (new_SourceRCON no_options) in
  let s1 := deliver byte_decode granted (snd a) in
  let x := call_execute byte_encode draw_zero "status" s1 in
  let s2 := deliver byte_decode answer (snd x) in
  call_state (fst a) s1 = Fulfilled undefined
  /\ call_state (fst x) s2
     = Fulfilled (str (Packet.body (byte_decode answer "ascii")))
  /\ deliver byte_decode answer s2 = s2.
Proof.
  cbv zeta.
  destruct (handshake_then_command byte_encode byte_decode 7 no_options "pw"
              draw_zero "status"
              (byte_encode Protocol.SERVERDATA_AUTH_RESPONSE 7 "" "ascii")
              (byte_encode Protocol.SERVERDATA_RESPONSE_VALUE 1 "ok" "ascii")
              (byte_encode Protocol.SERVERDATA_RESPONSE_VALUE 1 "ok" "ascii"))
    as (H1 & _ & H3 & _ & _ & _ & _ & H8);
    [vm_compute; reflexivity | vm_compute; reflexivity
    | vm_compute; reflexivity | vm_compute; discriminate |].
  split; [exact H1|]. split; [exact H3 | exact H8].
Defined.

(** X10 at work: two calls of [write] on a new session, and
    one buffer; the second promise is resolved with its body. *)
Lemma data_resolves_pending_commands_witness :
  let s1 :=
    snd (call_write byte_encode Protocol.SERVERDATA_EXECCOMMAND 1 "a"
           (new_SourceRCON no_options)) in
  let s2 := snd (call_write byte_encode Protocol.SERVERDATA_EXECCOMMAND 2 "b" s1) in
  let answer := byte_encode Protocol.SERVERDATA_RESPONSE_VALUE 9 "ok" "ascii" in
  write_state 1 (deliver byte_decode answer s2)
  = Fulfilled (str ("" ++ Packet.body (byte_decode answer "ascii"))).
Proof.
  cbv zeta.
  apply (data_resolves_pending_commands byte_decode
           (byte_encode Protocol.SERVERDATA_RESPONSE_VALUE 9 "ok" "ascii")
           (mkDataListener 1 Protocol.SERVERDATA_EXECCOMMAND "") None).
  - vm_compute. right. left. reflexivity.
  - intros l' Hin Heq. vm_compute in Hin.
    destruct Hin as [<-|[<-|[]]]; [discriminate Heq | reflexivity].
  - discriminate.
  - vm_compute. reflexivity.
Defined.

(** X11 at work: [authenticate] on a new
    session and a RESPONSE_VALUE buffer; the handler that stays is the one
    of the authentication. *)
Lemma data_leaves_only_stalled_authentications_witness :
  let s :=
    snd (call_authenticate byte_encode 7 "pw" (new_SourceRCON no_options)) in
  let packet := byte_encode Protocol.SERVERDATA_RESPONSE_VALUE 1 "" "ascii" in
  let l := mkDataListener 0 Protocol.SERVERDATA_AUTH "" in
  In l (data_listeners (connection (self s)))
  /\ od_type l = Protocol.SERVERDATA_AUTH
  /\ Packet.type (byte_decode packet (encoding (self s)))
     <> Protocol.SERVERDATA_AUTH_RESPONSE.
Proof.
  cbv zeta.
  apply (data_leaves_only_stalled_authentications byte_decode).
  vm_compute. left. reflexivity.
Defined.

(** X12 at work: [disconnect] on a new session, then ['close']. *)
Lemma disconnect_then_close_witness :
  let d := call_disconnect (new_SourceRCON no_options) in
  let s' := socket_close (snd d) in
  call_state (fst d) s' = Fulfilled undefined
  /\ destroyed (connection (self s')) = true.
Proof.
  cbv zeta.
  destruct (disconnect_then_close (new_SourceRCON no_options) eq_refl)
    as (_ & H2 & _ & H4 & _).
  split; [exact H2 | exact H4].
Defined.

(** X13 at work: a [write] on a new session, and a connection
    reset. *)
Lemma socket_error_only_rejects_witness :
  let s :=
    snd (call_write byte_encode Protocol.SERVERDATA_EXECCOMMAND 1 "a"
           (new_SourceRCON no_options)) in
  let s' := socket_error (Error "ECONNRESET") s in
  (write_state 0 s' = write_state 0 s
   \/ write_state 0 s' = Rejected (Error "ECONNRESET"))
  /\ error_listeners (connection (self s')) = [].
Proof.
  cbv zeta.
  destruct (socket_error_only_rejects (Error "ECONNRESET") 0
              (snd (call_write byte_encode Protocol.SERVERDATA_EXECCOMMAND 1 "a"
                      (new_SourceRCON no_options))))
    as (_ & H2 & _ & _ & H5); [vm_compute; reflexivity|].
  split; [exact H2 | exact H5].
Defined.

(** X14 at work: [authenticate] on a new session, and
    a connection reset: the [write] and the call are rejected. *)
Lemma socket_error_rejects_pending_write_witness :
  let s :=
    snd (call_authenticate byte_encode 7 "pw" (new_SourceRCON no_options)) in
  let s' := socket_error (Error "ECONNRESET") s in
  write_state 0 s' = Rejected (Error "ECONNRESET")
  /\ call_state 0 s' = Rejected (Error "ECONNRESET").
Proof.
  cbv zeta.
  destruct (socket_error_rejects_pending_write (Error "ECONNRESET") 0
              (Some (AuthReaction 0))
              (snd (call_authenticate byte_encode 7 "pw"
                      (new_SourceRCON no_options))))
    as (H1 & _ & H3);
    [vm_compute; reflexivity | vm_compute; left; reflexivity
    | vm_compute; reflexivity |].
  split; [exact H1|].
  apply (H3 (AuthReaction 0) eq_refl). vm_compute. reflexivity.
Defined.

(** X16 at work: a second command while the first is
    running. *)
Lemma execute_waits_for_running_job_witness :
  let s := snd (call_execute byte_encode draw_zero "first" session_at_rest) in
  let x := call_execute byte_encode draw_zero "second" s in
  written (connection (self (snd x))) = written (connection (self s))
  /\ q (self (snd x))
     = mkQueue (jobs (q (self s)) ++ [mkJob (packetID draw_zero) "second" (fst x)])
         true.
Proof.
  cbv zeta.
  destruct (execute_waits_for_running_job byte_encode draw_zero "second"
              (snd (call_execute byte_encode draw_zero "first" session_at_rest)))
    as (H1 & _ & H3); [vm_compute; reflexivity|].
  split; [exact H1 | exact H3].
Defined.

(** X19 at work: [maximumPacketSize: -1] and a body
    of 5000 characters. *)
Lemma negative_size_limit_disables_check_witness :
  let s := new_SourceRCON (mkOptions None None (Some (-1)) None None) in
  let w :=
    call_write byte_encode Protocol.SERVERDATA_EXECCOMMAND 1
      (repeat_char 5000 "a") s in
  maximumPacketSize (self s) = -1
  /\ write_state (fst w) (snd w) = Pending.
Proof.
  cbv zeta.
  apply (negative_size_limit_disables_check byte_encode
           (mkOptions None None (Some (-1)) None None) (-1));
    [reflexivity | lia].
Defined.

(** X20 at work: the turn after [authenticate] in
    which the session becomes authenticated is the arrival of an
    AUTH_RESPONSE buffer with id 7. *)
Lemma authenticated_only_by_auth_response_witness :
  exists packet,
    Data (byte_encode Protocol.SERVERDATA_AUTH_RESPONSE 7 "" "ascii")
    = Data packet
    /\ Packet.type
         (byte_decode packet
            (encoding
               (self (history byte_encode byte_decode 7 [Authenticate "pw"]
                        (new_SourceRCON no_options)))))
       = Protocol.SERVERDATA_AUTH_RESPONSE
    /\ Packet.id
         (byte_decode packet
            (encoding
               (self (history byte_encode byte_decode 7 [Authenticate "pw"]
                        (new_SourceRCON no_options)))))
       <> -1.
Proof.
  apply (authenticated_only_by_auth_response byte_encode byte_decode 7
           no_options [Authenticate "pw"]
           (Data (byte_encode Protocol.SERVERDATA_AUTH_RESPONSE 7 "" "ascii")));
    vm_compute; reflexivity.
Defined.

(** X21 at work: a command on the session at rest, then the
    timeout of the queue, another command, [disconnect] and ['close']. *)
Lemma command_has_no_timeout_witness :
  let x := call_execute byte_encode draw_zero "status" session_at_rest in
  call_state (fst x)
    (history byte_encode byte_decode 7
       [JobOver; Execute draw_zero "again"; Disconnect; SocketClose] (snd x))
  = Pending.
Proof.
  cbv zeta.
  apply (command_has_no_timeout byte_encode byte_decode 7 draw_zero "status"
           [JobOver; Execute draw_zero "again"; Disconnect; SocketClose]
           session_at_rest);
    vm_compute; reflexivity.
Defined.

(** X22 at work: [authenticate] on a new session, then
    the timeout of the queue, [disconnect] and ['close']. *)
Lemma authentication_has_no_timeout_witness :
  let a := call_authenticate byte_encode 7 "pw" (new_SourceRCON no_options) in
  call_state (fst a)
    (history byte_encode byte_decode 7 [JobOver; Disconnect; SocketClose] (snd a))
  = Pending.
Proof.
  cbv zeta.
  apply (authentication_has_no_timeout byte_encode byte_decode 7 "pw"
           [JobOver; Disconnect; SocketClose] (new_SourceRCON no_options));
    vm_compute; reflexivity.
Defined.

(** X23 at work: two commands on the session at rest,
    the timeout of the queue, and one answer. *)
Lemma late_answer_reaches_two_commands_witness :
  let answer := byte_encode Protocol.SERVERDATA_RESPONSE_VALUE 1 "ok" "ascii" in
  let x1 := call_execute byte_encode draw_zero "first" session_at_rest in
  let x2 := call_execute byte_encode draw_zero "second" (snd x1) in
  let s4 := deliver byte_decode answer (job_over byte_encode (snd x2)) in
  fst x1 <> fst x2
  /\ call_state (fst x1) s4
     = Fulfilled
         (str (Packet.body (byte_decode answer (encoding (self session_at_rest)))))
  /\ call_state (fst x2) s4
     = Fulfilled
         (str (Packet.body (byte_decode answer (encoding (self session_at_rest))))).
Proof.
  cbv zeta.
  destruct (late_answer_reaches_two_commands byte_encode byte_decode
              draw_zero draw_zero "first" "second"
              (byte_encode Protocol.SERVERDATA_RESPONSE_VALUE 1 "ok" "ascii")
              session_at_rest)
    as (H1 & _ & _ & H4 & H5); try (vm_compute; reflexivity).
  - intros w wp H. vm_compute in H.
    destruct w as [|w]; [injection H as <-; discriminate|].
    destruct w; discriminate H.
  - split; [exact H1|]. split; [exact H4 | exact H5].
Defined.

(** X15 at work: [disconnect] on the session at rest, then a
    connection reset. *)
Lemma disconnect_then_error_witness :
  let d := call_disconnect session_at_rest in
  let s' := socket_error (Error "ECONNRESET") (snd d) in
  call_state (fst d) s' = Rejected (Error "ECONNRESET")
  /\ authenticated (self s') = false.
Proof.
  cbv zeta.
  destruct (disconnect_then_error (Error "ECONNRESET") session_at_rest)
    as (H1 & _ & H3 & _); [vm_compute; reflexivity|].
  split; [exact H1 | exact H3].
Defined.
